(** * Berret status monitor: dependency-chain resolver and installation tracker

    A shallow embedding of the [NpmMonitor] class of the status command
    (it follows the cache-clearing command in [src/commands/stash.js])
    together with the properties the specification states about it.

    JavaScript values are embedded as follows.
    - A parsed JSON document is a [json] tree.  An object is the list of its
      own enumerable properties in [Object.entries] order.
    - [undefined] is [None] in an [option json].
    - A thrown exception is the [Throw] case of [outcome].
    - Strings are Rocq strings; the string methods the code calls
      ([startsWith], [endsWith], [includes], [replace], [split]) are
      written out on them.
    - Numbers shown on a progress bar are IEEE-754 binary64 values
      ([spec_float] with 53 bits of precision). *)

From Stdlib Require Import ZArith Ascii String List Bool Lia.
From Stdlib Require Import Floats.SpecFloat.
From stdpp Require Import base option list strings pretty gmap.

Local Open Scope string_scope.
Local Open Scope list_scope.

#[local] Set Warnings "-register-all".
#[local] Set Default Proof Using "Type".

(* ===================================================================== *)
(** * JavaScript strings *)
(* ===================================================================== *)

Module JSString.

(** [s.startsWith(pre)] *)
Fixpoint startsWith (s pre : string) {struct pre} : bool :=
  match pre, s with
  | EmptyString, _ => true
  | String _ _, EmptyString => false
  | String c pre', String d s' =>
      if Ascii.eqb c d then startsWith s' pre' else false
  end.

(** [s.indexOf(pat)], [None] standing for [-1]. *)
Fixpoint indexOf (s pat : string) : option nat :=
  if startsWith s pat then Some 0
  else match s with
       | EmptyString => None
       | String _ s' =>
           match indexOf s' pat with
           | Some i => Some (S i)
           | None => None
           end
       end.

(** [s.includes(pat)] *)
Definition includes (s pat : string) : bool :=
  match indexOf s pat with Some _ => true | None => false end.

(** [s.slice(0, n)] and [s.slice(n)] for an index [n] in range. *)
Fixpoint take (n : nat) (s : string) : string :=
  match n, s with
  | S n', String c s' => String c (take n' s')
  | _, _ => EmptyString
  end.

Fixpoint drop (n : nat) (s : string) : string :=
  match n, s with
  | S n', String _ s' => drop n' s'
  | _, _ => s
  end.

(** [s.endsWith(suf)] *)
Definition endsWith (s suf : string) : bool :=
  if (String.length suf <=? String.length s)%nat
  then String.eqb (drop (String.length s - String.length suf) s) suf
  else false.

(** [s.replace(pat, rep)] with a string pattern: only the FIRST occurrence
    of [pat] is replaced.  ([rep] is the empty string at the only call
    site, so the dollar patterns of the replacement play no role.) *)
Definition replace (s pat rep : string) : string :=
  match indexOf s pat with
  | None => s
  | Some i => take i s ++ rep ++ drop (i + String.length pat) s
  end.

(** [s.split(sep)] for a one-character separator: never the empty array. *)
Fixpoint split (sep : ascii) (s : string) : list string :=
  match s with
  | EmptyString => [EmptyString]
  | String c s' =>
      if Ascii.eqb c sep then EmptyString :: split sep s'
      else match split sep s' with
           | h :: t => String c h :: t
           | [] => [String c EmptyString]
           end
  end.

(** [arr.pop()] as a value: the last element, [undefined] on [[]]. *)
Definition pop (l : list string) : option string := last l.

(** A string is falsy exactly when it is empty. *)
Definition nonempty (s : string) : bool := negb (String.eqb s "").

End JSString.

(* ===================================================================== *)
(** * JSON values and the object operations the monitor uses *)
(* ===================================================================== *)

Module JS.

(** The result of [JSON.parse].  Of a number only its being zero can be
    observed by the monitor (in a truthiness test), so a number is kept as
    an integer. *)
Inductive json : Type :=
| JNull
| JBool (b : bool)
| JNum (n : Z)
| JStr (s : string)
| JArr (xs : list json)
| JObj (props : list (string * json)).

Inductive js_error : Type :=
| TypeError   (* property read on null *)
| RangeError  (* call stack exhausted *)
| ReadError.  (* fs.readJson rejected: missing, unreadable or malformed *)

Inductive outcome (A : Type) : Type :=
| Ret (a : A)
| Throw (e : js_error).
Arguments Ret {A} a.
Arguments Throw {A} e.

#[global] Instance outcome_ret : MRet outcome := fun A a => Ret a.
#[global] Instance outcome_bind : MBind outcome := fun A B f m =>
  match m with
  | Ret a => f a
  | Throw e => Throw e
  end.

(** [try { body } catch (error) { handler }] *)
Definition try_catch {A} (body : outcome A) (handler : js_error -> outcome A)
  : outcome A :=
  match body with
  | Ret a => Ret a
  | Throw e => handler e
  end.

(** ToBoolean. *)
Definition truthy (v : json) : bool :=
  match v with
  | JNull => false
  | JBool b => b
  | JNum n => negb (n =? 0)%Z
  | JStr s => JSString.nonempty s
  | JArr _ | JObj _ => true
  end.

Definition truthy_opt (o : option json) : bool :=
  match o with
  | Some v => truthy v
  | None => false
  end.

(** Own property of an object, by key. *)
Fixpoint assoc (k : string) (ps : list (string * json)) : option json :=
  match ps with
  | [] => None
  | (k', v) :: ps' => if String.eqb k' k then Some v else assoc k ps'
  end.

(** The three property names the monitor reads with dot syntax.  No
    built-in prototype defines any of them, so on anything but a plain
    object with that own property the read gives [undefined]. *)
Inductive field : Type := F_dependencies | F_devDependencies | F_packages.

Definition field_name (f : field) : string :=
  match f with
  | F_dependencies => "dependencies"
  | F_devDependencies => "devDependencies"
  | F_packages => "packages"
  end.

(** [v.f]: a TypeError on [null], the own property on an object. *)
Definition get_field (v : json) (f : field) : outcome (option json) :=
  match v with
  | JNull => Throw TypeError
  | JObj ps => Ret (assoc (field_name f) ps)
  | _ => Ret None
  end.

(** [Object.entries(v)] for a non-nullish [v]; also the properties an
    object spread [{...v}] copies.  Arrays and strings expose their
    indices. *)
Definition entries (v : json) : list (string * json) :=
  match v with
  | JObj ps => ps
  | JArr xs => imap (fun i x => (pretty i, x)) xs
  | JStr s =>
      imap (fun i c => (pretty i, JStr (String c EmptyString)))
           (list_ascii_of_string s)
  | _ => []
  end.

(** [obj[k] = v] on an object given by its property list. *)
Fixpoint set_prop (k : string) (v : json) (ps : list (string * json))
  : list (string * json) :=
  match ps with
  | [] => [(k, v)]
  | (k', v') :: ps' =>
      if String.eqb k' k then (k', v) :: ps' else (k', v') :: set_prop k v ps'
  end.

(** One [...src] inside an object literal; [undefined] and [null] add
    nothing. *)
Definition spread (acc : list (string * json)) (src : option json)
  : list (string * json) :=
  match src with
  | None => acc
  | Some v => fold_left (fun a kv => set_prop (fst kv) (snd kv) a) (entries v) acc
  end.

(** The properties every object literal inherits from [Object.prototype];
    each is a function or an object, hence truthy. *)
Definition object_prototype_names : list string :=
  [ "constructor"; "__defineGetter__"; "__defineSetter__"; "hasOwnProperty";
    "__lookupGetter__"; "__lookupSetter__"; "isPrototypeOf";
    "propertyIsEnumerable"; "toString"; "valueOf"; "__proto__";
    "toLocaleString" ].

(** Truthiness of [obj[k]] for an object literal [obj]: the own property
    when there is one, else what [Object.prototype] provides. *)
Definition lookup_truthy (obj : list (string * json)) (k : string) : bool :=
  match assoc k obj with
  | Some v => truthy v
  | None => existsb (String.eqb k) object_prototype_names
  end.

(** Nesting depth of a document. *)
Fixpoint json_depth (v : json) : nat :=
  match v with
  | JArr xs => S (fold_right (fun x d => Nat.max (json_depth x) d) 0 xs)
  | JObj ps => S (fold_right (fun kv d => Nat.max (json_depth (snd kv)) d) 0 ps)
  | _ => 0
  end.

End JS.

(* ===================================================================== *)
(** * ChainResolver: [analyzeDependencyChain] and [findPackageInLock] *)
(* ===================================================================== *)

Module ChainResolver.
Import JS.

Inductive ChainType : Type := UserRequested | Dependency | Unknown.

(** The [type] strings of the source. *)
Definition type_string (t : ChainType) : string :=
  match t with
  | UserRequested => "user-requested"
  | Dependency => "dependency"
  | Unknown => "unknown"
  end.

Record ChainInfo : Type := mkChainInfo {
  type : ChainType;
  parent : option string;
  reason : string
}.

(** What [findPackageInLock] returns when it finds the package:
    [{ parent }]. *)
Record PackageInfo : Type := mkPackageInfo { info_parent : option string }.

(** The part of [fs-extra] the resolver calls.  [readJson] rejects on a
    missing, unreadable or malformed file; [pathExists] never rejects. *)
Record FileSystem : Type := mkFileSystem {
  readJson : string -> outcome json;
  pathExists : string -> bool
}.

(** The loop over [lockJson.packages]: the first key, in property order,
    that ends with [/node_modules/<packageName>] decides. *)
Fixpoint scanPackages (packageName : string) (parent : option string)
    (es : list (string * json)) : option PackageInfo :=
  match es with
  | [] => None
  | (pkgPath, _) :: rest =>
      if JSString.endsWith pkgPath ("/node_modules/" ++ packageName) then
        let parentPath :=
          JSString.replace pkgPath ("/node_modules/" ++ packageName) "" in
        let parentName :=
          match JSString.pop (JSString.split "/" parentPath) with
          | Some seg => if JSString.nonempty seg then Some seg else parent
          | None => parent
          end in
        Some (mkPackageInfo parentName)
      else scanPackages packageName parent rest
  end.

(** The loop over [lockJson.dependencies].  [recur depName d] stands for
    the recursive call
    [this.findPackageInLock(packageName, { dependencies: d }, depName)]. *)
Fixpoint scanDependencies
    (recur : string -> json -> outcome (option PackageInfo))
    (packageName : string) (parent : option string)
    (es : list (string * json)) : outcome (option PackageInfo) :=
  match es with
  | [] => Ret None
  | (depName, depInfo) :: rest =>
      if String.eqb depName packageName
      then Ret (Some (mkPackageInfo parent))
      else
        sub ← get_field depInfo F_dependencies;
        if truthy_opt sub then
          result ← recur depName (default JNull sub);
          match result with
          | Some r => Ret (Some r)
          | None => scanDependencies recur packageName parent rest
          end
        else scanDependencies recur packageName parent rest
  end.

(** [findPackageInLock(packageName, lockJson, parent)].  [fuel] is the
    number of calls of the function the call stack still has room for,
    this one included: a call made when none is left throws a RangeError,
    which nothing in the function catches. *)
Fixpoint findPackageInLock_rec (fuel : nat) (packageName : string)
    (lockJson : json) (parent : option string)
  : outcome (option PackageInfo) :=
  match fuel with
  | O => Throw RangeError
  | S fuel' =>
      packages ← get_field lockJson F_packages;
      match (if truthy_opt packages
             then scanPackages packageName parent
                    (from_option entries [] packages)
             else None) with
      | Some info => Ret (Some info)
      | None =>
          deps ← get_field lockJson F_dependencies;
          if truthy_opt deps then
            scanDependencies
              (fun depName d =>
                 findPackageInLock_rec fuel' packageName
                   (JObj [("dependencies", d)]) (Some depName))
              packageName parent (from_option entries [] deps)
          else Ret None
      end
  end.

(** The call [analyzeDependencyChain] makes.  [stackDepth] is the room
    the engine's call stack leaves below that call: the number of calls of
    [findPackageInLock] that can be nested inside it. *)
Definition findPackageInLock (stackDepth : nat) (packageName : string)
    (lockJson : json) (parent : option string)
  : outcome (option PackageInfo) :=
  findPackageInLock_rec (S stackDepth) packageName lockJson parent.

Section Resolver.

(** [path.join] of Node, used only to name the two files. *)
Variable path_join : list string -> string.
(** The room on the call stack, see [findPackageInLock]. *)
Variable stackDepth : nat.

Definition userRequested : ChainInfo :=
  mkChainInfo UserRequested None "Direct dependency in package.json".

Definition dependencyOf (info : PackageInfo) : ChainInfo :=
  mkChainInfo Dependency (info_parent info)
    ("Dependency of " ++
       match info_parent info with
       | Some p => if JSString.nonempty p then p else "unknown package"
       | None => "unknown package"
       end).

Definition unknownSource : ChainInfo :=
  mkChainInfo Unknown None "Installation source unknown".

Definition couldNotAnalyze : ChainInfo :=
  mkChainInfo Unknown None "Could not analyze dependency chain".

(** [allDeps = { ...packageJson.dependencies, ...packageJson.devDependencies }] *)
Definition allDeps (packageJson : json) : outcome (list (string * json)) :=
  deps ← get_field packageJson F_dependencies;
  devDeps ← get_field packageJson F_devDependencies;
  mret (spread (spread [] deps) devDeps).

(** The test [if (allDeps[packageName])]. *)
Definition manifestMatch (packageJson : json) (packageName : string)
  : outcome bool :=
  all ← allDeps packageJson;
  mret (lookup_truthy all packageName).

(** The body of the [try] block of [analyzeDependencyChain]. *)
Definition analyzeDependencyChain_try (fs : FileSystem)
    (packageName projectPath : string) : outcome ChainInfo :=
  let packageJsonPath := path_join [projectPath; "package.json"] in
  packageJson ← readJson fs packageJsonPath;
  direct ← manifestMatch packageJson packageName;
  if direct : bool then mret userRequested
  else
    let lockPath := path_join [projectPath; "package-lock.json"] in
    if pathExists fs lockPath then
      lockJson ← readJson fs lockPath;
      packageInfo ← findPackageInLock stackDepth packageName lockJson None;
      match packageInfo with
      | Some info => mret (dependencyOf info)
      | None => mret unknownSource
      end
    else mret unknownSource.

Definition analyzeDependencyChain (fs : FileSystem)
    (packageName projectPath : string) : outcome ChainInfo :=
  try_catch (analyzeDependencyChain_try fs packageName projectPath)
            (fun _ => Ret couldNotAnalyze).

End Resolver.

End ChainResolver.

(* ===================================================================== *)
(** * The monitor: installation tracker and project registry *)
(* ===================================================================== *)

Module Monitor.
Import JS ChainResolver.

(** ** Numbers

    A JavaScript Number is a binary64 float.  Timestamps ([Date.now()]) are
    integers far below 2^53, so their difference is exact and is taken in
    [Z] before it enters float arithmetic. *)
Definition number : Type := spec_float.
Definition num (z : Z) : number := binary_normalize 53 1024 z 0 false.
Definition num_div : number -> number -> number := SFdiv 53 1024.
Definition num_mul : number -> number -> number := SFmul 53 1024.

(** [Math.min(a, b)]: NaN if either is, and [-0] below [+0]. *)
Definition Math_min (a b : number) : number :=
  match SFcompare a b with
  | None => S754_nan
  | Some Lt => a
  | Some Gt => b
  | Some Eq => match a with S754_zero true => a | _ => b end
  end.

(** ** State *)

(** A value of [activeInstalls].  [progressInterval] is assigned by
    [simulateInstallProgress] right after the record is stored. *)
Record Install : Type := mkInstall {
  startTime : Z;
  projectName : string;
  chainInfo : ChainInfo;
  progressBar : nat;
  progressInterval : option nat
}.

(** [install.progressInterval = id] *)
Definition assignInterval (install : Install) (id : nat) : Install :=
  mkInstall (startTime install) (projectName install) (chainInfo install)
            (progressBar install) (Some id).

(** A bar of the multi-bar display: its value out of 100 and its payload. *)
Record Bar : Type := mkBar {
  bar_value : number;
  bar_package : string;
  bar_status : string;
  bar_eta : string
}.

(** The closures handed to [setInterval] and [setTimeout], with what each
    captures.  The tick closure captures the [install] object; the fields
    it reads are never reassigned, so the captured record stands for it. *)
Inductive Callback : Type :=
| ProgressTick (key packageName : string) (install : Install)
| CheckComplete (key packageName projectName : string)
| RetireBar (install : Install) (projectName packageName : string)
            (elapsed : Z).

Record Timer : Type := mkTimer {
  delay : Z;          (* milliseconds *)
  repeating : bool;   (* setInterval rather than setTimeout *)
  callback : Callback
}.

(** Lines written with [console.log], before colouring. *)
Inductive ConsoleLine : Type :=
| LineInstalling (projectName packageName : string) (chain : ChainInfo)
| LineInstalled (projectName packageName : string) (elapsed : Z)
                (chain : ChainInfo)
| LineFoundProject (projectName : string)
| LineCurrentProject (projectName : string).

(** The chokidar subscriptions a project registration opens.  (The
    watches on the global store and on the current directory are opened
    once at start; they appear below through their callbacks.) *)
Inductive Watcher : Type :=
| WatchDependencyDir (projectPath : string)
| WatchManifest (projectPath : string).

#[global] Instance Watcher_eq_dec : EqDecision Watcher.
Proof. solve_decision. Defined.

Record Monitor : Type := mkMonitor {
  activeInstalls : gmap string Install;
  progressBars : gmap string nat;
  multibar : gmap nat Bar;
  timers : gmap nat Timer;
  next_id : nat;                      (* next fresh bar or timer identity *)
  monitoredProjects : list string;    (* a Set, in insertion order *)
  watchers : list Watcher;
  console : list ConsoleLine
}.

Definition initial : Monitor := mkMonitor ∅ ∅ ∅ ∅ 0 [] [] [].

Definition set_activeInstalls (f : gmap string Install -> gmap string Install)
    (s : Monitor) : Monitor :=
  mkMonitor (f (activeInstalls s)) (progressBars s) (multibar s) (timers s)
            (next_id s) (monitoredProjects s) (watchers s) (console s).
Definition set_progressBars (f : gmap string nat -> gmap string nat)
    (s : Monitor) : Monitor :=
  mkMonitor (activeInstalls s) (f (progressBars s)) (multibar s) (timers s)
            (next_id s) (monitoredProjects s) (watchers s) (console s).
Definition set_multibar (f : gmap nat Bar -> gmap nat Bar)
    (s : Monitor) : Monitor :=
  mkMonitor (activeInstalls s) (progressBars s) (f (multibar s)) (timers s)
            (next_id s) (monitoredProjects s) (watchers s) (console s).
Definition set_timers (f : gmap nat Timer -> gmap nat Timer)
    (s : Monitor) : Monitor :=
  mkMonitor (activeInstalls s) (progressBars s) (multibar s) (f (timers s))
            (next_id s) (monitoredProjects s) (watchers s) (console s).
Definition bump_id (s : Monitor) : Monitor :=
  mkMonitor (activeInstalls s) (progressBars s) (multibar s) (timers s)
            (S (next_id s)) (monitoredProjects s) (watchers s) (console s).
(** [monitoredProjects.add(p)]: a Set keeps one copy. *)
Definition add_project (p : string) (s : Monitor) : Monitor :=
  mkMonitor (activeInstalls s) (progressBars s) (multibar s) (timers s)
            (next_id s)
            (if bool_decide (p ∈ monitoredProjects s)
             then monitoredProjects s else monitoredProjects s ++ [p])
            (watchers s) (console s).
Definition add_watcher (w : Watcher) (s : Monitor) : Monitor :=
  mkMonitor (activeInstalls s) (progressBars s) (multibar s) (timers s)
            (next_id s) (monitoredProjects s) (watchers s ++ [w]) (console s).
Definition log (l : ConsoleLine) (s : Monitor) : Monitor :=
  mkMonitor (activeInstalls s) (progressBars s) (multibar s) (timers s)
            (next_id s) (monitoredProjects s) (watchers s) (console s ++ [l]).

(** [setTimeout] / [setInterval]: the new timer gets a fresh identity. *)
Definition schedule (t : Timer) (s : Monitor) : Monitor :=
  bump_id (set_timers (insert (next_id s) t) s).

(** What the outside world answers during one callback. *)
Record World : Type := mkWorld {
  now : Z;                        (* Date.now() *)
  existsSync : string -> bool     (* fs.existsSync, fs.pathExists *)
}.

(** ** Pure helpers of the class *)

Definition largePackages : list string :=
  ["react"; "angular"; "vue"; "webpack"; "typescript"; "babel"].
Definition mediumPackages : list string :=
  ["lodash"; "moment"; "axios"; "express"].

Definition estimateInstallDuration (packageName : string) : Z :=
  if existsb (fun pkg => JSString.includes packageName pkg) largePackages
  then 8000
  else if existsb (fun pkg => JSString.includes packageName pkg) mediumPackages
  then 4000
  else 2000.

(** The template literal [`${x}`] of a possibly-null parent. *)
Definition show_parent (p : option string) : string :=
  match p with Some n => n | None => "null" end.

Definition getStatusText (c : ChainInfo) : string :=
  match type c with
  | UserRequested => "User Package"
  | Dependency => "Dep of " ++ show_parent (parent c)
  | Unknown => "Installing..."
  end.

(** [formatETA]: whole seconds, rounded up.  (For the millisecond counts
    that occur, the float quotient rounds up to the same integer.) *)
Definition formatETA (milliseconds : Z) : string :=
  if (milliseconds <=? 0)%Z then "0s"
  else pretty ((milliseconds + 999) / 1000)%Z ++ "s".

(** [progress = Math.min(95, (elapsed / estimatedDuration) * 100)] *)
Definition progressAt (elapsed estimatedDuration : Z) : number :=
  Math_min (num 95)
           (num_mul (num_div (num elapsed) (num estimatedDuration)) (num 100)).

Definition compositeKey (projectName packageName : string) : string :=
  projectName ++ ":" ++ packageName.

Section Environment.

(** Node's [path] module and the process environment. *)
Variable path_join : list string -> string.
Variable path_basename : string -> string.
Variable path_dirname : string -> string.
Variable platform : string.            (* process.platform *)
Variable APPDATA : option string.      (* process.env.APPDATA *)
Variable cwd : string.                 (* process.cwd() *)
Variable stackDepth : nat.             (* room on the call stack *)

Definition getGlobalNodeModulesPath : string :=
  if String.eqb platform "win32"
  then path_join [default "" APPDATA; "npm"; "node_modules"]
  else "/usr/local/lib/node_modules".

(** ** InstallationTracker *)

(** The body of the [setInterval] callback of [simulateInstallProgress];
    [id] is the interval it runs in. *)
Definition progressTick (w : World) (id : nat) (key packageName : string)
    (install : Install) (s : Monitor) : Monitor :=
  match activeInstalls s !! key with
  | None => set_timers (delete id) s                 (* clearInterval *)
  | Some _ =>
      let elapsed := (now w - startTime install)%Z in
      let estimatedDuration := estimateInstallDuration packageName in
      let progress := progressAt elapsed estimatedDuration in
      set_multibar
        (alter (fun _ => mkBar progress packageName
                           (getStatusText (chainInfo install))
                           (formatETA (estimatedDuration - elapsed)))
               (progressBar install)) s
  end.

Definition simulateInstallProgress (key packageName projectName : string)
    (s : Monitor) : Monitor :=
  match activeInstalls s !! key with
  | None => s
  | Some install =>
      let progressInterval := next_id s in
      let s1 := schedule (mkTimer 200 true
                            (ProgressTick key packageName install)) s in
      set_activeInstalls
        (insert key (assignInterval install progressInterval)) s1
  end.

(** Where the installed package's own manifest is looked for; [None] is
    the [undefined] left when no monitored project has that name.
    ([path.join] never returns the empty string, so a computed path is
    truthy.) *)
Definition packagePathOf (projectName packageName : string) (s : Monitor)
  : option string :=
  if String.eqb projectName "GLOBAL" then
    Some (path_join [getGlobalNodeModulesPath; packageName; "package.json"])
  else if String.eqb projectName "LOCAL" then
    Some (path_join ["node_modules"; packageName; "package.json"])
  else
    match List.find (fun monitoredPath =>
                       String.eqb (path_basename monitoredPath) projectName)
                    (monitoredProjects s) with
    | Some monitoredPath =>
        Some (path_join [monitoredPath; "node_modules"; packageName;
                         "package.json"])
    | None => None
    end.

Definition manifestObserved (w : World) (projectName packageName : string)
    (s : Monitor) : bool :=
  match packagePathOf projectName packageName s with
  | Some packagePath => existsSync w packagePath
  | None => false
  end.

(** The closure [checkComplete], run when its timeout fires. *)
Definition checkComplete (w : World) (key packageName projectName : string)
    (s : Monitor) : Monitor :=
  match activeInstalls s !! key with
  | None => s
  | Some install =>
      if manifestObserved w projectName packageName s then
        let s1 := set_multibar
                    (alter (fun _ => mkBar (num 100) packageName
                                       "Complete!" "0s")
                           (progressBar install)) s in
        let s2 := match progressInterval install with
                  | Some id => set_timers (delete id) s1   (* clearInterval *)
                  | None => s1
                  end in
        let s3 := schedule (mkTimer 1000 false
                              (RetireBar install projectName packageName
                                 (now w - startTime install))) s2 in
        set_progressBars (delete key) (set_activeInstalls (delete key) s3)
      else
        schedule (mkTimer 300 false
                    (CheckComplete key packageName projectName)) s
  end.

Definition checkInstallationCompleteWithProgress
    (key packageName projectName : string) (s : Monitor) : Monitor :=
  schedule (mkTimer 500 false (CheckComplete key packageName projectName)) s.

(** The closure that runs a second after completion. *)
Definition retireBar (install : Install) (projectName packageName : string)
    (elapsed : Z) (s : Monitor) : Monitor :=
  log (LineInstalled projectName packageName elapsed (chainInfo install))
      (set_multibar (delete (progressBar install)) s).

Definition trackInstallationWithProgress (w : World)
    (packageName projectName : string) (chain : ChainInfo) (s : Monitor)
  : Monitor :=
  let key := compositeKey projectName packageName in
  match activeInstalls s !! key with
  | Some _ => s
  | None =>
      let progressBar := next_id s in
      let s1 := bump_id
                  (set_multibar
                     (insert progressBar
                        (mkBar (num 0) packageName (getStatusText chain)
                               "calculating..."))
                     s) in
      let s2 := set_progressBars (insert key progressBar) s1 in
      let s3 := set_activeInstalls
                  (insert key (mkInstall (now w) projectName chain
                                 progressBar None)) s2 in
      let s4 := log (LineInstalling projectName packageName chain) s3 in
      let s5 := simulateInstallProgress key packageName projectName s4 in
      checkInstallationCompleteWithProgress key packageName projectName s5
  end.

(** The event loop takes one pending timer and runs its callback.  A
    timeout is consumed by firing; an interval stays until cleared. *)
Definition fireTimer (w : World) (id : nat) (s : Monitor) : Monitor :=
  match timers s !! id with
  | None => s
  | Some t =>
      match callback t with
      | ProgressTick key packageName install =>
          progressTick w id key packageName install s
      | CheckComplete key packageName projectName =>
          checkComplete w key packageName projectName
            (set_timers (delete id) s)
      | RetireBar install projectName packageName elapsed =>
          retireBar install projectName packageName elapsed
            (set_timers (delete id) s)
      end
  end.

(** ** Watch callbacks *)

(** The [addDir] callback installed by [watchGlobalNodeModules]. *)
Definition globalChain : ChainInfo :=
  mkChainInfo UserRequested None "Global installation".

Definition onGlobalAddDir (w : World) (dirPath : string) (s : Monitor)
  : Monitor :=
  let packageName := path_basename dirPath in
  if negb (JSString.startsWith packageName ".") then
    trackInstallationWithProgress w packageName "GLOBAL" globalChain s
  else s.

(** The [addDir] callback installed by [watchProjectDirectoryWithProgress]
    for [projectPath].  [fs] is the file system the resolver reads while
    the callback is suspended; [s] is the state when it resumes. *)
Definition onProjectAddDir (fs : FileSystem) (w : World)
    (projectPath dirPath : string) (s : Monitor) : Monitor :=
  let packageName := path_basename dirPath in
  let projectName := path_basename projectPath in
  if negb (JSString.startsWith packageName ".") then
    match analyzeDependencyChain path_join stackDepth fs packageName
            projectPath with
    | Ret chain => trackInstallationWithProgress w packageName projectName chain s
    | Throw _ => s
    end
  else s.

(** The [addDir] callback installed by [watchNodeModulesWithProgress]. *)
Definition onLocalAddDir (fs : FileSystem) (w : World) (dirPath : string)
    (s : Monitor) : Monitor :=
  let packageName := path_basename dirPath in
  if negb (JSString.startsWith packageName ".") then
    match analyzeDependencyChain path_join stackDepth fs packageName cwd with
    | Ret chain => trackInstallationWithProgress w packageName "LOCAL" chain s
    | Throw _ => s
    end
  else s.

(** ** ProjectWatchRegistry *)

(** [watchProjectDirectoryWithProgress]: a watch on the dependency
    directory if it exists now, and one on the manifest if it exists. *)
Definition watchProjectDirectoryWithProgress (w : World)
    (projectPath : string) (s : Monitor) : Monitor :=
  let nodeModulesPath := path_join [projectPath; "node_modules"] in
  let s1 := if existsSync w nodeModulesPath
            then add_watcher (WatchDependencyDir projectPath) s
            else s in
  let packageJsonPath := path_join [projectPath; "package.json"] in
  if existsSync w packageJsonPath
  then add_watcher (WatchManifest projectPath) s1
  else s1.

(** The per-file callback of [fastFindAndMonitorProjects]. *)
Definition monitorDiscovered (w : World) (s : Monitor)
    (packageJsonPath : string) : Monitor :=
  let projectPath := path_dirname packageJsonPath in
  if bool_decide (projectPath ∈ monitoredProjects s) then s
  else
    watchProjectDirectoryWithProgress w projectPath
      (log (LineFoundProject (path_basename projectPath))
           (add_project projectPath s)).

(** The batch loop of [fastFindAndMonitorProjects] over the files the scan
    found: [for (i = 0; i < files.length; i += batchSize)]. *)
Definition batchSize : nat := 5.

Fixpoint batchLoop (fuel : nat) (w : World) (files : list string) (i : nat)
    (s : Monitor) : Monitor :=
  match fuel with
  | O => s
  | S fuel' =>
      if (i <? length files)%nat then
        let batch := firstn batchSize (skipn i files) in   (* slice(i, i+5) *)
        batchLoop fuel' w files (i + batchSize)
                  (fold_left (monitorDiscovered w) batch s)
      else s
  end.

Definition monitorAllDiscovered (w : World) (files : list string)
    (s : Monitor) : Monitor :=
  batchLoop (S (length files)) w files 0 s.

(** The first lines of [startUniversalMonitoring] and of
    [startQuickUniversalMonitoring]: the current directory is monitored
    at once when it holds a manifest. *)
Definition monitorCurrentProject (w : World) (s : Monitor) : Monitor :=
  if existsSync w "package.json"
  then watchProjectDirectoryWithProgress w cwd
         (log (LineCurrentProject (path_basename cwd)) (add_project cwd s))
  else s.

(** ** The event loop *)

Inductive Event : Type :=
| EvGlobalAddDir (dirPath : string)
| EvProjectAddDir (fs : FileSystem) (projectPath dirPath : string)
| EvLocalAddDir (fs : FileSystem) (dirPath : string)
| EvTimer (id : nat)
| EvDiscovered (files : list string).

Definition step (w : World) (e : Event) (s : Monitor) : Monitor :=
  match e with
  | EvGlobalAddDir dirPath => onGlobalAddDir w dirPath s
  | EvProjectAddDir fs projectPath dirPath =>
      onProjectAddDir fs w projectPath dirPath s
  | EvLocalAddDir fs dirPath => onLocalAddDir fs w dirPath s
  | EvTimer id => fireTimer w id s
  | EvDiscovered files => monitorAllDiscovered w files s
  end.

(** The states of a run: a fresh monitor, possibly with the current
    project registered, then any sequence of events. *)
Inductive reachable : Monitor -> Prop :=
| reachable_initial : reachable initial
| reachable_current w : reachable (monitorCurrentProject w initial)
| reachable_step w e s : reachable s -> reachable (step w e s).

End Environment.

End Monitor.

(* ===================================================================== *)
(** * Specification-side notions *)
(* ===================================================================== *)

Module Spec.
Import JS ChainResolver.

(** [frag] occurs somewhere inside [s]. *)
Definition is_substring (frag s : string) : Prop :=
  exists pre post, s = (pre ++ frag ++ post)%string.

(** ** Declarations of a manifest

    "packageName appears among its direct and development dependency
    declarations": the value declared for [name], a development
    declaration taking precedence, as in the merged object. *)
Definition own_entry (o : option json) (name : string) : option json :=
  match o with
  | Some v => assoc name (entries v)
  | None => None
  end.

Definition declared_version (dependencies devDependencies : option json)
    (name : string) : option json :=
  match own_entry devDependencies name with
  | Some v => Some v
  | None => own_entry dependencies name
  end.

(** Keys of a parsed object are pairwise different. *)
Definition distinct_keys (o : option json) : Prop :=
  List.NoDup (map fst (from_option entries [] o)).

(** ** The nested-tree lock format

    "A recursive mapping of name -> {subdependencies}": an entry carries
    whatever other fields the lock file records for it ([meta]) and,
    when it has any, its own [dependencies] tree. *)
Inductive DepTree : Type :=
| Leaf (meta : list (string * json))
| Node (meta : list (string * json)) (deps : list (string * DepTree)).

(** The JSON text of an entry. *)
Fixpoint encode (t : DepTree) : json :=
  match t with
  | Leaf meta => JObj meta
  | Node meta deps =>
      JObj (meta ++
            [("dependencies",
              JObj (map (fun kt => (fst kt, encode (snd kt))) deps))])
  end.

Definition encode_forest (forest : list (string * DepTree))
  : list (string * json) :=
  map (fun kt => (fst kt, encode (snd kt))) forest.

(** The other fields of an entry are not called [dependencies]. *)
Definition plain_meta (meta : list (string * json)) : bool :=
  match assoc "dependencies" meta with Some _ => false | None => true end.

Fixpoint well_formed (t : DepTree) : bool :=
  match t with
  | Leaf meta => plain_meta meta
  | Node meta deps =>
      plain_meta meta && forallb (fun kt => well_formed (snd kt)) deps
  end.

(** How deep the [dependencies] of an entry nest: the number of calls
    a search of the entry nests inside the call that reaches it. *)
Fixpoint tree_height (t : DepTree) : nat :=
  match t with
  | Leaf _ => 0
  | Node _ deps =>
      S (fold_right (fun kt h => Nat.max (tree_height (snd kt)) h) 0 deps)
  end.

Definition forest_height (forest : list (string * DepTree)) : nat :=
  fold_right (fun kt h => Nat.max (tree_height (snd kt)) h) 0 forest.

(** The search as the specification words it: "depth-first search for
    packageName, tracking the nearest ancestor name as parent".
    [spec_dfs_under] searches below the entry called [self]; [spec_dfs]
    searches a forest whose enclosing entry is [parent] ([None] at the
    top level). *)
Fixpoint spec_dfs_under (name self : string) (t : DepTree)
  : option (option string) :=
  match t with
  | Leaf _ => None
  | Node _ deps =>
      (fix forest (l : list (string * DepTree)) : option (option string) :=
         match l with
         | [] => None
         | (k, t') :: rest =>
             if String.eqb k name then Some (Some self)
             else match spec_dfs_under name k t' with
                  | Some p => Some p
                  | None => forest rest
                  end
         end) deps
  end.

Fixpoint spec_dfs (name : string) (parent : option string)
    (forest : list (string * DepTree)) : option (option string) :=
  match forest with
  | [] => None
  | (k, t) :: rest =>
      if String.eqb k name then Some parent
      else match spec_dfs_under name k t with
           | Some p => Some p
           | None => spec_dfs name parent rest
           end
  end.

(** [FoundUnder name parent forest p]: the forest, whose enclosing entry
    is [parent], has an entry called [name] somewhere, and the entry
    immediately enclosing that occurrence is [p]. *)
Inductive FoundUnder (name : string)
  : option string -> list (string * DepTree) -> option string -> Prop :=
| found_here parent forest t :
    In (name, t) forest -> FoundUnder name parent forest parent
| found_below parent forest k meta deps p :
    In (k, Node meta deps) forest ->
    FoundUnder name (Some k) deps p ->
    FoundUnder name parent forest p.

(** ** Fixtures for the worked examples *)

(** A stand-in for [path.join] on already-normal relative paths. *)
Definition fixture_join (parts : list string) : string :=
  String.concat "/" parts.

Definition fixture_basename (p : string) : string :=
  default p (JSString.pop (JSString.split "/" p)).

Definition fixture_dirname (p : string) : string :=
  String.concat "/" (removelast (JSString.split "/" p)).

Fixpoint fixture_file (files : list (string * outcome json)) (p : string)
  : option (outcome json) :=
  match files with
  | [] => None
  | (q, c) :: rest => if String.eqb q p then Some c else fixture_file rest p
  end.

(** A file system holding exactly the listed files. *)
Definition fixture_fs (files : list (string * outcome json)) : FileSystem :=
  mkFileSystem
    (fun p => default (Throw ReadError) (fixture_file files p))
    (fun p => match fixture_file files p with Some _ => true | None => false end).

(** A call stack with room for a thousand nested searches. *)
Definition fixture_stack : nat := 1000.

(** An entry whose [dependencies] hold [a], whose [dependencies] hold [a],
    and so on [n] times, with [b] at the bottom. *)
Fixpoint deep_tree (n : nat) : DepTree :=
  match n with
  | O => Node [] [("b", Leaf [])]
  | S n' => Node [] [("a", deep_tree n')]
  end.

(** A project whose manifest declares nothing and whose lock file holds
    the tree [forest]. *)
Definition fixture_locked (forest : list (string * DepTree)) : FileSystem :=
  fixture_fs
    [("proj/package.json", Ret (JObj []));
     ("proj/package-lock.json",
      Ret (JObj [("dependencies", JObj (encode_forest forest))]))].

(** A world at time [t] in which exactly the listed paths exist. *)
Definition fixture_world (t : Z) (present : list string) : Monitor.World :=
  Monitor.mkWorld t (fun p => existsb (String.eqb p) present).

End Spec.

(* ===================================================================== *)
(** * Invariants of the monitor state *)
(* ===================================================================== *)

Module Invariant.
Import JS ChainResolver Monitor.

(** Bar [b] belongs to an installation that is still being tracked. *)
Definition in_flight (s : Monitor) (b : nat) : Prop :=
  exists key install,
    activeInstalls s !! key = Some install /\ progressBar install = b.

(** [v] does not exceed 95 and is not 100. *)
Definition capped (v : number) : Prop :=
  SFltb (num 95) v = false /\ v <> num 100.

Definition is_tick_for (key : string) (t : Timer) : Prop :=
  exists packageName install, callback t = ProgressTick key packageName install.

Definition is_check_for (key : string) (t : Timer) : Prop :=
  exists packageName projectName,
    callback t = CheckComplete key packageName projectName /\
    repeating t = false /\ (delay t = 500%Z \/ delay t = 300%Z).

Record tracker_inv (s : Monitor) : Prop := mkTrackerInv {
  (** the table of bars has the keys of the table of installations *)
  inv_registered :
    forall key,
      progressBars s !! key = progressBar <$> activeInstalls s !! key;
  (** installations in flight have different bars *)
  inv_distinct :
    forall k1 k2 i1 i2,
      activeInstalls s !! k1 = Some i1 -> activeInstalls s !! k2 = Some i2 ->
      progressBar i1 = progressBar i2 -> k1 = k2;
  (** identities handed out so far are below [next_id] *)
  inv_fresh_bar :
    forall key install,
      activeInstalls s !! key = Some install ->
      (progressBar install < next_id s)%nat;
  inv_fresh_interval :
    forall key install tid,
      activeInstalls s !! key = Some install ->
      progressInterval install = Some tid -> (tid < next_id s)%nat;
  inv_fresh_timers :
    forall id t, timers s !! id = Some t -> (id < next_id s)%nat;
  inv_fresh_multibar :
    forall b bar, multibar s !! b = Some bar -> (b < next_id s)%nat;
  (** a bar in flight shows at most 95, a bar no longer in flight 100 *)
  inv_cap :
    forall key install bar,
      activeInstalls s !! key = Some install ->
      multibar s !! progressBar install = Some bar ->
      capped (bar_value bar);
  inv_done :
    forall b bar,
      multibar s !! b = Some bar -> ~ in_flight s b ->
      bar_value bar = num 100;
  (** a pending tick belongs to the installation in flight under its key *)
  inv_ticks_owned :
    forall tid t key packageName snapshot,
      timers s !! tid = Some t ->
      callback t = ProgressTick key packageName snapshot ->
      exists install,
        activeInstalls s !! key = Some install /\
        progressInterval install = Some tid /\
        progressBar snapshot = progressBar install /\
        startTime snapshot = startTime install;
  inv_interval_is_tick :
    forall key install tid t,
      activeInstalls s !! key = Some install ->
      progressInterval install = Some tid ->
      timers s !! tid = Some t -> is_tick_for key t;
  (** an installation in flight has its bar on display, and no bar that
      is waiting to be retired is in flight *)
  inv_bar_present :
    forall key install,
      activeInstalls s !! key = Some install ->
      is_Some (multibar s !! progressBar install);
  inv_retired :
    forall tid t install projectName packageName elapsed,
      timers s !! tid = Some t ->
      callback t = RetireBar install projectName packageName elapsed ->
      (progressBar install < next_id s)%nat /\
      ~ in_flight s (progressBar install);
  (** every installation in flight has a completion check pending *)
  inv_check_pending :
    forall key install,
      activeInstalls s !! key = Some install ->
      exists tid t, timers s !! tid = Some t /\ is_check_for key t
}.

(** The registry: one entry and at most one watch of each kind per
    project path, and watches only on registered projects. *)
Record registry_inv (s : Monitor) : Prop := mkRegistryInv {
  inv_projects_nodup : List.NoDup (monitoredProjects s);
  inv_one_dependency_watch :
    forall p, (count_occ Watcher_eq_dec (watchers s) (WatchDependencyDir p) <= 1)%nat;
  inv_one_manifest_watch :
    forall p, (count_occ Watcher_eq_dec (watchers s) (WatchManifest p) <= 1)%nat;
  inv_watched_registered :
    forall p,
      In (WatchDependencyDir p) (watchers s) \/ In (WatchManifest p) (watchers s) ->
      In p (monitoredProjects s)
}.

(** A completion check carries the key of the package and project it
    was scheduled for. *)
Definition checks_keyed (s : Monitor) : Prop :=
  forall tid t key packageName projectName,
    timers s !! tid = Some t ->
    callback t = CheckComplete key packageName projectName ->
    key = compositeKey projectName packageName.

(** Event [e], taken in world [w] from state [s], is a completion check
    of [key] that observes the installed package's manifest. *)
Definition completes (path_join : list string -> string)
    (path_basename : string -> string) (platform : string)
    (APPDATA : option string)
    (w : World) (e : Event) (s : Monitor) (key : string) : Prop :=
  exists id t packageName projectName install,
    e = EvTimer id /\ timers s !! id = Some t /\
    callback t = CheckComplete key packageName projectName /\
    activeInstalls s !! key = Some install /\
    manifestObserved path_join path_basename platform APPDATA
      w projectName packageName s = true.

(** [polled ... s projectName packageName p]: in state [s] a completion
    check of the package looks for the file [p].  That is the package's
    manifest in the global store for the project name GLOBAL, in the
    dependency directory of the current directory for LOCAL, and for any
    other name in the dependency directory of the first monitored
    project, in registration order, whose base name is that name.  When
    no monitored project has the name, no file is looked for. *)
Inductive polled (path_join : list string -> string)
    (path_basename : string -> string) (platform : string)
    (APPDATA : option string)
    (s : Monitor) (projectName packageName : string) : string -> Prop :=
| polled_global :
    projectName = "GLOBAL" ->
    polled path_join path_basename platform APPDATA s projectName packageName
      (path_join [getGlobalNodeModulesPath path_join platform APPDATA;
                  packageName; "package.json"])
| polled_local :
    projectName = "LOCAL" ->
    polled path_join path_basename platform APPDATA s projectName packageName
      (path_join ["node_modules"; packageName; "package.json"])
| polled_project before first after :
    projectName <> "GLOBAL" -> projectName <> "LOCAL" ->
    monitoredProjects s = before ++ first :: after ->
    Forall (fun p => path_basename p <> projectName) before ->
    path_basename first = projectName ->
    polled path_join path_basename platform APPDATA s projectName packageName
      (path_join [first; "node_modules"; packageName; "package.json"]).

(** Two states with the same tracker tables, or the same registry. *)
Definition same_tracker (s s' : Monitor) : Prop :=
  activeInstalls s' = activeInstalls s /\ progressBars s' = progressBars s /\
  multibar s' = multibar s /\ timers s' = timers s /\ next_id s' = next_id s.

Definition same_registry (s s' : Monitor) : Prop :=
  monitoredProjects s' = monitoredProjects s /\ watchers s' = watchers s.

End Invariant.

(* ===================================================================== *)
(** * Shapes of documents *)
(* ===================================================================== *)

Module Shape.
Import JS.

(** No [null] anywhere in the document. *)
Fixpoint null_free (v : json) : bool :=
  match v with
  | JNull => false
  | JArr xs => forallb null_free xs
  | JObj ps => forallb (fun kv => null_free (snd kv)) ps
  | _ => true
  end.

End Shape.

(* ===================================================================== *)
(** * The table of dependency chains: [analyzeDependencyChains] *)
(* ===================================================================== *)

Module DependencyChains.
Import JS ChainResolver.

(** A value of [dependencyChains]. *)
Record ChainEntry : Type := mkChainEntry {
  entry_type : ChainType;
  entry_parent : option string;
  entry_version : json;
  entry_reason : string
}.

(** What the loop stores for a declared package. *)
Definition directEntry (version : json) : ChainEntry :=
  mkChainEntry UserRequested None version "Direct dependency in package.json".

(** [for (const [depName, version] of Object.entries(allDeps))
       this.dependencyChains.set(depName, ...)] *)
Definition recordAll (all : list (string * json))
    (dependencyChains : gmap string ChainEntry) : gmap string ChainEntry :=
  fold_left (fun chains kv => <[fst kv := directEntry (snd kv)]> chains)
            all dependencyChains.

(** The body of the [try] block: the manifest of the current directory,
    read by its relative name. *)
Definition analyzeDependencyChains_try (fs : FileSystem)
    (dependencyChains : gmap string ChainEntry)
  : outcome (gmap string ChainEntry) :=
  let packageJsonPath := "package.json" in
  if negb (pathExists fs packageJsonPath) then mret dependencyChains
  else
    packageJson ← readJson fs packageJsonPath;
    all ← allDeps packageJson;
    mret (recordAll all dependencyChains).

(** [analyzeDependencyChains()]: the table afterwards.  An error leaves
    the table as it was, the loop having not started. *)
Definition analyzeDependencyChains (fs : FileSystem)
    (dependencyChains : gmap string ChainEntry) : gmap string ChainEntry :=
  match analyzeDependencyChains_try fs dependencyChains with
  | Ret chains => chains
  | Throw _ => dependencyChains
  end.

End DependencyChains.

(* ===================================================================== *)
(** * Timers and bars over the life of an installation *)
(* ===================================================================== *)

Module Lifecycle.
Import JS ChainResolver Monitor Invariant.

Record lifecycle_inv (s : Monitor) : Prop := mkLifecycleInv {
  (** an installation in flight has its percentage interval pending *)
  inv_interval_pending :
    forall key install,
      activeInstalls s !! key = Some install ->
      exists tid packageName snapshot,
        progressInterval install = Some tid /\
        timers s !! tid
        = Some (mkTimer 200 true (ProgressTick key packageName snapshot));
  (** a bar on display that is not in flight is waiting to be removed *)
  inv_retire_pending :
    forall b bar,
      multibar s !! b = Some bar -> ~ in_flight s b ->
      exists tid install projectName packageName elapsed,
        timers s !! tid
        = Some (mkTimer 1000 false
                  (RetireBar install projectName packageName elapsed)) /\
        progressBar install = b
}.

(** Completion checks: a pending check belongs to an installation in
    flight, and an installation has no two of them. *)
Record poll_inv (s : Monitor) : Prop := mkPollInv {
  inv_check_active :
    forall tid t key packageName projectName,
      timers s !! tid = Some t ->
      callback t = CheckComplete key packageName projectName ->
      is_Some (activeInstalls s !! key);
  inv_check_unique :
    forall tid1 tid2 t1 t2 key pn1 pj1 pn2 pj2,
      timers s !! tid1 = Some t1 -> timers s !! tid2 = Some t2 ->
      callback t1 = CheckComplete key pn1 pj1 ->
      callback t2 = CheckComplete key pn2 pj2 ->
      tid1 = tid2
}.

(** Every "installed" line comes after an "Installing" line of the same
    project and package, with the same chain. *)
Definition announced (lines : list ConsoleLine) : Prop :=
  forall before after projectName packageName elapsed chain,
    lines = before ++ LineInstalled projectName packageName elapsed chain
                      :: after ->
    In (LineInstalling projectName packageName chain) before.

(** What has been announced, for the installations in flight and for
    those waiting to be reported. *)
Record log_inv (s : Monitor) : Prop := mkLogInv {
  inv_check_announced :
    forall tid t key packageName projectName install,
      timers s !! tid = Some t ->
      callback t = CheckComplete key packageName projectName ->
      activeInstalls s !! key = Some install ->
      In (LineInstalling projectName packageName (chainInfo install))
         (console s);
  inv_retire_announced :
    forall tid t install projectName packageName elapsed,
      timers s !! tid = Some t ->
      callback t = RetireBar install projectName packageName elapsed ->
      In (LineInstalling projectName packageName (chainInfo install))
         (console s);
  inv_announced : announced (console s)
}.

End Lifecycle.

(* ===================================================================== *)
(** * What a run only ever adds to *)
(* ===================================================================== *)

Module Growth.
Import Monitor.

(** [s'] has the projects, the watches and the console lines of [s], in
    the same order, and possibly more after them. *)
Definition grows (s s' : Monitor) : Prop :=
  (exists projects, monitoredProjects s' = monitoredProjects s ++ projects) /\
  (exists watches, watchers s' = watchers s ++ watches) /\
  (exists lines, console s' = console s ++ lines).

End Growth.

(* ===================================================================== *)
(** * The cache-clearing command: [stashCommand] *)
(* ===================================================================== *)

Module Stash.

(** What a rejected promise carries. *)
Inductive Error : Type :=
| CommandFailed (code : option Z)
    (* new Error(`Command failed with code ${code}`) *)
| InvalidPathArgument
    (* the TypeError of path.join on undefined *)
| Platform (message : string).
    (* an error of the platform: spawn or fs.remove failing *)

(** The text of [`Command failed with code ${code}`]; the exit code is
    [null] when the child was ended by a signal. *)
Definition commandFailedMessage (code : option Z) : string :=
  "Command failed with code "
  ++ match code with Some c => pretty c | None => "null" end.

(** What the child process emits, of the two events [runCommand] listens
    to. *)
Inductive ChildEvent : Type :=
| Close (code : option Z)
| Failed (error : Error).

Inductive Settled : Type :=
| Resolved
| Rejected (error : Error).

(** The tasks of the command: a program to run, or the action
    [clearBerretCache]. *)
Inductive Task : Type :=
| CommandTask (name command : string) (args : list string)
| ActionTask (name : string).

Definition task_name (task : Task) : string :=
  match task with
  | CommandTask name _ _ => name
  | ActionTask name => name
  end.

Definition tasks : list Task :=
  [ CommandTask "npm cache" "npm" ["cache"; "clean"; "--force"];
    ActionTask "berret cache" ].

(** What the command writes, before colouring. *)
Inductive Output : Type :=
| LogClearing                                   (* "Clearing caches..." *)
| SpinnerStart (name : string)                  (* `Clearing ${name}` *)
| SpinnerSucceed (name : string)                (* `${name} cleared` *)
| SpinnerFail (name : string) (error : Error)   (* `Failed to clear ${name}: ${error.message}` *)
| LogAllCleared.                                (* "All caches cleared successfully!" *)

Section Host.

(** The file system is a state [FS] the command reads with
    [fs.pathExists] and changes with [fs.remove] and through the child
    process. *)
Variable FS : Type.
Variable HOME : option string.         (* process.env.HOME *)
Variable USERPROFILE : option string.  (* process.env.USERPROFILE *)
Variable cwd : string.                 (* process.cwd() *)
Variable path_join : list string -> string.
(** The events of the child, in order, and the file system it leaves. *)
Variable spawn : string -> list string -> FS -> list ChildEvent * FS.
Variable pathExists : FS -> string -> bool.
(** [fs.remove]: the error if it rejects, and the file system after. *)
Variable remove : FS -> string -> option Error * FS.

(** The promise of [runCommand]; [None] when it never settles.  The
    first of the two events settles it.  (An exception of [spawn] itself
    rejects the promise as an error event does.) *)
Definition runCommand (command : string) (args : list string) (fs : FS)
  : option (Settled * FS) :=
  let (events, fs') := spawn command args fs in
  match events with
  | [] => None
  | Close (Some 0%Z) :: _ => Some (Resolved, fs')
  | Close code :: _ => Some (Rejected (CommandFailed code), fs')
  | Failed error :: _ => Some (Rejected error, fs')
  end.

(** [process.env.HOME || process.env.USERPROFILE] *)
Definition homeOrProfile : option string :=
  match HOME with
  | Some home => if JSString.nonempty home then Some home else USERPROFILE
  | None => USERPROFILE
  end.

Definition clearBerretCache (fs : FS) : Settled * FS :=
  match homeOrProfile with
  | None => (Rejected InvalidPathArgument, fs)
  | Some home =>
      let cacheDir := path_join [home; ".berret-cache"] in
      let (r1, fs1) :=
        if pathExists fs cacheDir then remove fs cacheDir else (None, fs) in
      match r1 with
      | Some error => (Rejected error, fs1)
      | None =>
          let tempDir := path_join [cwd; ".berret-temp"] in
          let (r2, fs2) :=
            if pathExists fs1 tempDir then remove fs1 tempDir
            else (None, fs1) in
          match r2 with
          | Some error => (Rejected error, fs2)
          | None => (Resolved, fs2)
          end
      end
  end.

(** The [await] in the loop body. *)
Definition runTask (task : Task) (fs : FS) : option (Settled * FS) :=
  match task with
  | CommandTask _ command args => runCommand command args fs
  | ActionTask _ => Some (clearBerretCache fs)
  end.

(** A run of the command: what it has written, whether it has returned,
    and the file system it leaves. *)
Record Run : Type := mkRun {
  output : list Output;
  finished : bool;
  disk : FS
}.

(** [for (const task of tasks)] *)
Fixpoint runTasks (todo : list Task) (out : list Output) (fs : FS) : Run :=
  match todo with
  | [] => mkRun out true fs
  | task :: rest =>
      let out1 := out ++ [SpinnerStart (task_name task)] in
      match runTask task fs with
      | None => mkRun out1 false fs
      | Some (Resolved, fs') =>
          runTasks rest (out1 ++ [SpinnerSucceed (task_name task)]) fs'
      | Some (Rejected error, fs') =>
          runTasks rest (out1 ++ [SpinnerFail (task_name task) error]) fs'
      end
  end.

Definition stashCommand (fs : FS) : Run :=
  let run := runTasks tasks [LogClearing] fs in
  if finished run
  then mkRun (output run ++ [LogAllCleared]) true (disk run)
  else run.

End Host.

Arguments mkRun {FS} output finished disk.
Arguments output {FS} r.
Arguments finished {FS} r.
Arguments disk {FS} r.

(** ** A file system for the worked examples: the paths that exist *)

Definition fixture_exists (fs : list string) (p : string) : bool :=
  existsb (String.eqb p) fs.

Definition fixture_remove (fs : list string) (p : string)
  : option Error * list string :=
  (None, List.filter (fun q => negb (String.eqb p q)) fs).

End Stash.

(* ===================================================================== *)
(** * Start of universal monitoring *)
(* ===================================================================== *)

Module Startup.
Import Monitor.

Section Environment.

Variable path_join : list string -> string.
Variable path_basename : string -> string.
Variable path_dirname : string -> string.
Variable cwd : string.

(** [startUniversalMonitoring], as far as the registry goes: the current
    project first, then one discovery pass over the manifest files the
    scan finds (none when no directory can be scanned).  The number is
    the one the spinner reports, [this.monitoredProjects.size].  [w1] and
    [w2] are what exists when the current project and when the
    discovered ones are registered. *)
Definition startUniversalMonitoring (w1 w2 : World) (files : list string)
    (s : Monitor) : Monitor * nat :=
  let s1 := monitorCurrentProject path_join path_basename cwd w1 s in
  let s2 := monitorAllDiscovered path_join path_basename path_dirname
              w2 files s1 in
  (s2, length (monitoredProjects s2)).

End Environment.

End Startup.

(* ===================================================================== *)
(** * The texts written for a chain *)
(* ===================================================================== *)

Module Texts.
Import ChainResolver Monitor.

(** [formatChainInfo], before colouring. *)
Definition formatChainInfo (packageName : string) (chainInfo : ChainInfo)
    (projectName : string) : string :=
  (let prefix :=
     if String.eqb projectName "GLOBAL" then "🌍"
     else if String.eqb projectName "LOCAL" then "📥"
     else "📥 [" ++ projectName ++ "]" in
   match type chainInfo with
   | UserRequested =>
       prefix ++ " Installing: " ++ packageName ++ " " ++ "(user requested)"
   | Dependency =>
       prefix ++ " Installing: " ++ packageName ++ " "
       ++ "(dependency of " ++ show_parent (parent chainInfo) ++ ")"
   | Unknown =>
       prefix ++ " Installing: " ++ packageName ++ " " ++ "(analyzing...)"
   end)%string.

(** [chainText], the end of the "installed" line: a chain record is an
    object, hence truthy. *)
Definition chainText (chainInfo : ChainInfo) : string :=
  match type chainInfo with
  | UserRequested => " (user requested)"
  | _ => (" (dep of " ++ show_parent (parent chainInfo) ++ ")")%string
  end.

End Texts.

(* ===================================================================== *)
(** * Properties *)
(* ===================================================================== *)

Section StringFacts.
Import JSString.

Lemma append_cons c (s t : string) :
  (String c s ++ t)%string = String c (s ++ t)%string.
Proof. reflexivity. Qed.

Lemma append_nil_l (s : string) : ("" ++ s)%string = s.
Proof. reflexivity. Qed.

Lemma startsWith_spec s pre :
  startsWith s pre = true <-> exists post, s = (pre ++ post)%string.
Proof.
  revert s. induction pre as [|c pre IH]; intros s; simpl.
  - split; [intros _; exists s; reflexivity | reflexivity].
  - destruct s as [|d s].
    + split; [discriminate | intros [post H]; discriminate].
    + destruct (Ascii.eqb_spec c d) as [->|Hne].
      * rewrite IH. split; intros [post H]; exists post;
          rewrite append_cons in *; congruence.
      * split; [discriminate | intros [post H]; rewrite append_cons in H; congruence].
Qed.

Lemma indexOf_nil pat :
  indexOf "" pat = if startsWith "" pat then Some 0 else None.
Proof. reflexivity. Qed.

Lemma indexOf_cons c s pat :
  indexOf (String c s) pat =
  if startsWith (String c s) pat then Some 0
  else match indexOf s pat with Some i => Some (S i) | None => None end.
Proof. reflexivity. Qed.

Lemma take_0 s : take 0 s = "".
Proof. reflexivity. Qed.

Lemma take_length_app (p q : string) :
  take (String.length p) (p ++ q) = p.
Proof.
  induction p as [|c p IH]; [reflexivity|].
  rewrite append_cons. simpl. now rewrite IH.
Qed.

Lemma drop_length_app (p q : string) :
  drop (String.length p) (p ++ q) = q.
Proof.
  induction p as [|c p IH]; [reflexivity|].
  rewrite append_cons. simpl. exact IH.
Qed.

Lemma indexOf_split s pat i :
  indexOf s pat = Some i ->
  s = (take i s ++ pat ++ drop (i + String.length pat) s)%string.
Proof.
  revert i. induction s as [|c s IH]; intros i.
  - rewrite indexOf_nil. destruct (startsWith "" pat) eqn:E; [|discriminate].
    intros [= <-]. apply startsWith_spec in E as [post E].
    destruct pat; [reflexivity | discriminate].
  - rewrite indexOf_cons. destruct (startsWith (String c s) pat) eqn:E.
    + intros [= <-]. apply startsWith_spec in E as [post E].
      rewrite take_0, append_nil_l. change (0 + String.length pat) with (String.length pat).
      rewrite E at 2. rewrite drop_length_app. exact E.
    + destruct (indexOf s pat) as [j|] eqn:Ej; [|discriminate].
      intros [= <-]. simpl take. simpl drop. rewrite append_cons.
      f_equal. apply IH. reflexivity.
Qed.

Lemma indexOf_startsWith s pat :
  startsWith s pat = true -> indexOf s pat = Some 0.
Proof.
  intros H. destruct s; [rewrite indexOf_nil | rewrite indexOf_cons];
    rewrite H; reflexivity.
Qed.

Lemma includes_spec s pat :
  includes s pat = true <-> Spec.is_substring pat s.
Proof.
  unfold includes, Spec.is_substring. split.
  - destruct (indexOf s pat) as [i|] eqn:E; [|discriminate].
    intros _. apply indexOf_split in E. eauto.
  - intros (pre & post & ->).
    induction pre as [|c pre IH].
    + rewrite append_nil_l, indexOf_startsWith; [reflexivity|].
      apply startsWith_spec; eauto.
    + rewrite append_cons, indexOf_cons.
      destruct (startsWith _ pat); [reflexivity|].
      destruct (indexOf _ pat); [reflexivity | discriminate].
Qed.

Lemma existsb_includes name (frags : list string) :
  existsb (fun pkg => includes name pkg) frags = true <->
  Exists (fun pkg => Spec.is_substring pkg name) frags.
Proof.
  rewrite existsb_exists, Exists_exists. setoid_rewrite list_elem_of_In.
  split; intros (pkg & Hin & H); exists pkg; (split; [exact Hin|]);
    apply includes_spec; exact H.
Qed.

End StringFacts.

(* --------------------------------------------------------------------- *)
(** ** Duration estimate *)
(* --------------------------------------------------------------------- *)

Section Estimate.
Import Monitor Spec.

(** C9.  [estimateInstallDuration] answers 8000 ms when the package name
    contains one of the large-package fragments, otherwise 4000 ms when it
    contains one of the medium-package fragments, otherwise 2000 ms.
    Containment is substring containment: the name need not equal the
    fragment. *)
Theorem C9_estimate_by_substring (packageName : string) :
  let large :=
    Exists (fun pkg => is_substring pkg packageName) largePackages in
  let medium :=
    Exists (fun pkg => is_substring pkg packageName) mediumPackages in
  (large -> estimateInstallDuration packageName = 8000%Z) /\
  (~ large -> medium -> estimateInstallDuration packageName = 4000%Z) /\
  (~ large -> ~ medium -> estimateInstallDuration packageName = 2000%Z).
Proof.
  cbv zeta. unfold estimateInstallDuration.
  destruct (existsb _ largePackages) eqn:EL;
    [apply existsb_includes in EL
    |assert (NL : ~ Exists (fun pkg => is_substring pkg packageName)
                      largePackages)
       by (rewrite <- existsb_includes; congruence)].
  - split; [|split]; intros; first [reflexivity | contradiction].
  - destruct (existsb _ mediumPackages) eqn:EM.
    + apply existsb_includes in EM.
      split; [|split]; intros; first [reflexivity | contradiction].
    + assert (NM : ~ Exists (fun pkg => is_substring pkg packageName)
                       mediumPackages)
        by (rewrite <- existsb_includes; congruence).
      split; [|split]; intros; first [reflexivity | contradiction].
Qed.

Lemma C9_estimate_witness :
  estimateInstallDuration "react-dom" = 8000%Z /\
  estimateInstallDuration "my-lodash-fork" = 4000%Z /\
  estimateInstallDuration "chalk" = 2000%Z.
Proof.
  split; [|split].
  - apply (proj1 (C9_estimate_by_substring "react-dom")).
    apply Exists_cons_hd. exists "", "-dom". reflexivity.
  - apply (proj1 (proj2 (C9_estimate_by_substring "my-lodash-fork"))).
    + rewrite <- existsb_includes. vm_compute. discriminate.
    + apply Exists_cons_hd. exists "my-", "-fork". reflexivity.
  - apply (proj2 (proj2 (C9_estimate_by_substring "chalk"))).
    + rewrite <- existsb_includes. vm_compute. discriminate.
    + rewrite <- existsb_includes. vm_compute. discriminate.
Defined.

End Estimate.

(* --------------------------------------------------------------------- *)
(** ** ChainResolver *)
(* --------------------------------------------------------------------- *)

Section ResolverFacts.
Import JS ChainResolver Spec.

Variable path_join : list string -> string.
Variable stackDepth : nat.

Local Abbreviation resolve := (analyzeDependencyChain path_join stackDepth).
Local Abbreviation manifestPath p := (path_join [p; "package.json"]).
Local Abbreviation lockPath p := (path_join [p; "package-lock.json"]).

Lemma bind_Ret {A B} (a : A) (f : A -> outcome B) : (Ret a ≫= f) = f a.
Proof. reflexivity. Qed.

Lemma bind_Throw {A B} e (f : A -> outcome B) : (Throw e ≫= f) = Throw e.
Proof. reflexivity. Qed.

(** The [catch] turns every exception into the second Unknown answer. *)
Lemma resolve_of_try fs name proj :
  resolve fs name proj =
  match analyzeDependencyChain_try path_join stackDepth fs name proj with
  | Ret info => Ret info
  | Throw _ => Ret couldNotAnalyze
  end.
Proof. reflexivity. Qed.

Lemma resolve_direct fs name proj manifest :
  readJson fs (manifestPath proj) = Ret manifest ->
  manifestMatch manifest name = Ret true ->
  resolve fs name proj = Ret userRequested.
Proof.
  intros Hm Hd. rewrite resolve_of_try. unfold analyzeDependencyChain_try.
  rewrite Hm, bind_Ret, Hd. reflexivity.
Qed.

Lemma resolve_via_lock fs name proj manifest lock :
  readJson fs (manifestPath proj) = Ret manifest ->
  manifestMatch manifest name = Ret false ->
  pathExists fs (lockPath proj) = true ->
  readJson fs (lockPath proj) = Ret lock ->
  resolve fs name proj =
  match findPackageInLock stackDepth name lock None with
  | Ret (Some info) => Ret (dependencyOf info)
  | Ret None => Ret unknownSource
  | Throw _ => Ret couldNotAnalyze
  end.
Proof.
  intros Hm Hd He Hl. rewrite resolve_of_try. unfold analyzeDependencyChain_try.
  rewrite Hm, bind_Ret, Hd, bind_Ret, He, Hl, bind_Ret.
  destruct (findPackageInLock stackDepth name lock None) as [[info|]|e];
    reflexivity.
Qed.

(** C6.  [analyzeDependencyChain] always returns and never throws.  When
    the manifest is read and does not list the package, and the lock file
    is absent or is read and searched without a hit, the answer is Unknown
    with reason "Installation source unknown".  When reading the manifest
    fails, when the manifest or the lock file is not of the expected
    shape, or when the lock file exists and reading it fails, the error is
    caught and the answer is Unknown with the different reason "Could not
    analyze dependency chain". *)
Theorem C6_resolver_never_throws (fs : FileSystem) (name proj : string) :
  (exists info, resolve fs name proj = Ret info) /\
  (forall manifest,
      readJson fs (manifestPath proj) = Ret manifest ->
      manifestMatch manifest name = Ret false ->
      pathExists fs (lockPath proj) = false \/
      (exists lock, readJson fs (lockPath proj) = Ret lock /\
                    findPackageInLock stackDepth name lock None = Ret None) ->
      resolve fs name proj = Ret unknownSource) /\
  (forall e, readJson fs (manifestPath proj) = Throw e ->
             resolve fs name proj = Ret couldNotAnalyze) /\
  (forall manifest e,
      readJson fs (manifestPath proj) = Ret manifest ->
      manifestMatch manifest name = Throw e ->
      resolve fs name proj = Ret couldNotAnalyze) /\
  (forall manifest,
      readJson fs (manifestPath proj) = Ret manifest ->
      manifestMatch manifest name = Ret false ->
      pathExists fs (lockPath proj) = true ->
      (exists e, readJson fs (lockPath proj) = Throw e) \/
      (exists lock e, readJson fs (lockPath proj) = Ret lock /\
                      findPackageInLock stackDepth name lock None = Throw e) ->
      resolve fs name proj = Ret couldNotAnalyze) /\
  type unknownSource = Unknown /\
  type couldNotAnalyze = Unknown /\
  reason unknownSource = "Installation source unknown" /\
  reason couldNotAnalyze = "Could not analyze dependency chain" /\
  reason unknownSource <> reason couldNotAnalyze.
Proof.
  split; [|split; [|split; [|split; [|split]]]].
  - rewrite resolve_of_try.
    destruct (analyzeDependencyChain_try _ _ _ _); eauto.
  - intros manifest Hm Hd [He | (lock & Hl & Hf)].
    + rewrite resolve_of_try. unfold analyzeDependencyChain_try.
      rewrite Hm, bind_Ret, Hd, bind_Ret, He. reflexivity.
    + destruct (pathExists fs (lockPath proj)) eqn:He.
      * rewrite (resolve_via_lock _ _ _ _ _ Hm Hd He Hl), Hf. reflexivity.
      * rewrite resolve_of_try. unfold analyzeDependencyChain_try.
        rewrite Hm, bind_Ret, Hd, bind_Ret, He. reflexivity.
  - intros e Hm. rewrite resolve_of_try. unfold analyzeDependencyChain_try.
    rewrite Hm. reflexivity.
  - intros manifest e Hm Hd. rewrite resolve_of_try.
    unfold analyzeDependencyChain_try. rewrite Hm, bind_Ret, Hd. reflexivity.
  - intros manifest Hm Hd He [(e & Hl) | (lock & e & Hl & Hf)].
    + rewrite resolve_of_try. unfold analyzeDependencyChain_try.
      rewrite Hm, bind_Ret, Hd, bind_Ret, He, Hl. reflexivity.
    + rewrite (resolve_via_lock _ _ _ _ _ Hm Hd He Hl), Hf. reflexivity.
  - repeat split; discriminate.
Qed.

(** *** The manifest test *)

Lemma assoc_set_prop k k' v ps :
  assoc k (set_prop k' v ps) = if String.eqb k' k then Some v else assoc k ps.
Proof.
  induction ps as [|[k0 v0] ps IH]; simpl.
  - destruct (String.eqb k' k); reflexivity.
  - destruct (String.eqb_spec k0 k') as [->|Hne]; simpl.
    + destruct (String.eqb k' k); reflexivity.
    + rewrite IH. destruct (String.eqb_spec k0 k) as [->|Hne'].
      * destruct (String.eqb_spec k' k) as [->|]; [contradiction|reflexivity].
      * reflexivity.
Qed.

Lemma assoc_absent k ps : ~ In k (map fst ps) -> assoc k ps = None.
Proof.
  induction ps as [|[k0 v0] ps IH]; simpl; [reflexivity|].
  intros H. destruct (String.eqb_spec k0 k) as [->|Hne].
  - exfalso. apply H. left. reflexivity.
  - apply IH. intros Hin. apply H. right. exact Hin.
Qed.

Lemma assoc_fold_set_prop k es :
  forall acc,
    List.NoDup (map fst es) ->
    assoc k (fold_left (fun a kv => set_prop (fst kv) (snd kv) a) es acc) =
    match assoc k es with Some v => Some v | None => assoc k acc end.
Proof.
  induction es as [|[k0 v0] es IH]; intros acc Hnd; simpl; [reflexivity|].
  inversion Hnd as [|? ? Hnotin Hnd']; subst.
  rewrite (IH _ Hnd'), assoc_set_prop.
  destruct (String.eqb_spec k0 k) as [->|Hne]; [|reflexivity].
  rewrite (assoc_absent _ _ Hnotin). reflexivity.
Qed.

(** A spread lets the properties of its source override those already
    there. *)
Lemma assoc_spread k acc o :
  distinct_keys o ->
  assoc k (spread acc o) =
  match own_entry o k with Some v => Some v | None => assoc k acc end.
Proof.
  destruct o as [v|]; [|reflexivity]. intros Hnd.
  apply assoc_fold_set_prop, Hnd.
Qed.

(** Step 1 in full: the test holds when the declared version is truthy,
    and for an undeclared name when [Object.prototype] has a property of
    that name. *)
Lemma manifestMatch_spec manifest deps devs name :
  get_field manifest F_dependencies = Ret deps ->
  get_field manifest F_devDependencies = Ret devs ->
  distinct_keys deps -> distinct_keys devs ->
  manifestMatch manifest name =
  Ret match declared_version deps devs name with
      | Some v => truthy v
      | None => existsb (String.eqb name) object_prototype_names
      end.
Proof.
  intros Hdeps Hdevs Hn1 Hn2. unfold manifestMatch, allDeps.
  rewrite Hdeps, bind_Ret, Hdevs, !bind_Ret.
  unfold mret, outcome_ret, lookup_truthy, declared_version. f_equal.
  rewrite (assoc_spread _ _ _ Hn2), (assoc_spread _ _ _ Hn1).
  destruct (own_entry devs name); [reflexivity|].
  destruct (own_entry deps name); reflexivity.
Qed.

(** The sound half of step 1: a package whose declared version is truthy
    (a non-empty range) is answered UserRequested. *)
Lemma declared_truthy_is_user_requested fs name proj manifest deps devs v :
  readJson fs (manifestPath proj) = Ret manifest ->
  get_field manifest F_dependencies = Ret deps ->
  get_field manifest F_devDependencies = Ret devs ->
  distinct_keys deps -> distinct_keys devs ->
  declared_version deps devs name = Some v ->
  truthy v = true ->
  resolve fs name proj = Ret userRequested.
Proof.
  intros Hm Hdeps Hdevs Hn1 Hn2 Hv Ht.
  apply (resolve_direct _ _ _ _ Hm).
  rewrite (manifestMatch_spec _ _ _ _ Hdeps Hdevs Hn1 Hn2), Hv, Ht.
  reflexivity.
Qed.

(** A name no manifest declares can still pass the test. *)
Remark inherited_name_passes :
  manifestMatch (JObj []) "constructor" = Ret true /\
  manifestMatch (JObj []) "left-pad" = Ret false.
Proof. split; reflexivity. Qed.

End ResolverFacts.

Section ResolverExamples.
Import JS ChainResolver Spec.

Lemma C6_resolver_witness :
  analyzeDependencyChain fixture_join fixture_stack
    (fixture_fs [("proj/package.json", Ret (JObj []))]) "left-pad" "proj"
  = Ret unknownSource /\
  analyzeDependencyChain fixture_join fixture_stack (fixture_fs [])
    "left-pad" "proj"
  = Ret couldNotAnalyze.
Proof.
  split.
  - apply (proj1 (proj2 (C6_resolver_never_throws fixture_join fixture_stack
                           (fixture_fs [("proj/package.json", Ret (JObj []))])
                           "left-pad" "proj")))
      with (manifest := JObj []);
      [reflexivity | reflexivity | left; reflexivity].
  - apply (proj1 (proj2 (proj2 (C6_resolver_never_throws fixture_join
                                  fixture_stack
                                  (fixture_fs []) "left-pad" "proj"))))
      with (e := ReadError).
    reflexivity.
Defined.

(** C1 (the code departs from it).  The manifest declares [foo] with the
    empty version range, which npm reads as "any version"; the truthiness
    test [if (allDeps[packageName])] takes the empty string for an absent
    entry, so the resolver does not answer UserRequested. *)
Theorem C1_empty_range_not_user_requested :
  let dependencies := JObj [("foo", JStr "")] in
  let manifest := JObj [("dependencies", dependencies)] in
  let fs := fixture_fs [("proj/package.json", Ret manifest)] in
  declared_version (Some dependencies) None "foo" = Some (JStr "") /\
  analyzeDependencyChain fixture_join fixture_stack fs "foo" "proj"
  = Ret unknownSource /\
  analyzeDependencyChain fixture_join fixture_stack fs "foo" "proj"
  <> Ret userRequested.
Proof. cbv zeta. split; [|split]; [reflexivity | reflexivity | discriminate]. Qed.

End ResolverExamples.

(* --------------------------------------------------------------------- *)
(** ** Lock file, nested-tree format *)
(* --------------------------------------------------------------------- *)

Section NestedTree.
Import JS ChainResolver Spec.

Lemma DepTree_forest_ind (P : DepTree -> Prop) :
  (forall meta, P (Leaf meta)) ->
  (forall meta deps, Forall (fun kt => P (snd kt)) deps -> P (Node meta deps)) ->
  forall t, P t.
Proof.
  intros HL HN. fix IH 1. intros [meta|meta deps].
  - apply HL.
  - apply HN. induction deps as [|kt rest IHrest]; constructor.
    + apply IH.
    + exact IHrest.
Qed.

Lemma spec_dfs_under_node name self meta deps :
  spec_dfs_under name self (Node meta deps) = spec_dfs name (Some self) deps.
Proof.
  simpl. induction deps as [|[k t] rest IH]; [reflexivity|].
  simpl. rewrite IH. reflexivity.
Qed.

Lemma spec_dfs_cons name parent k t rest :
  spec_dfs name parent ((k, t) :: rest) =
  if String.eqb k name then Some parent
  else match spec_dfs_under name k t with
       | Some p => Some p
       | None => spec_dfs name parent rest
       end.
Proof. reflexivity. Qed.

(** What the search returns is the nearest ancestor of an occurrence. *)
Lemma spec_dfs_sound name forest :
  forall parent p,
    spec_dfs name parent forest = Some p -> FoundUnder name parent forest p.
Proof.
  assert (Htree : forall t self p,
             spec_dfs_under name self t = Some p ->
             exists meta deps, t = Node meta deps /\
                               FoundUnder name (Some self) deps p).
  { induction t as [meta|meta deps IHdeps] using DepTree_forest_ind;
      intros self p H; [discriminate|].
    exists meta, deps. split; [reflexivity|].
    rewrite spec_dfs_under_node in H. revert H. generalize (Some self).
    induction IHdeps as [|[k t] rest Ht _ IHrest]; intros parent H;
      [discriminate|].
    rewrite spec_dfs_cons in H.
    destruct (String.eqb_spec k name) as [->|Hne].
    - injection H as <-. eapply found_here. left. reflexivity.
    - destruct (spec_dfs_under name k t) as [q|] eqn:E.
      + injection H as <-. destruct (Ht _ _ E) as (m & d & Heq & Hf).
        simpl in Heq. subst t.
        eapply found_below; [left; reflexivity | exact Hf].
      + specialize (IHrest _ H).
        inversion IHrest; subst.
        * eapply found_here. right. eassumption.
        * eapply found_below; [right; eassumption | eassumption]. }
  induction forest as [|[k t] rest IH]; intros parent p H; [discriminate|].
  rewrite spec_dfs_cons in H.
  destruct (String.eqb_spec k name) as [->|Hne].
  - injection H as <-. eapply found_here. left. reflexivity.
  - destruct (spec_dfs_under name k t) as [q|] eqn:E.
    + injection H as <-. destruct (Htree _ _ _ E) as (m & d & -> & Hf).
      eapply found_below; [left; reflexivity | exact Hf].
    + specialize (IH _ _ H). inversion IH; subst.
      * eapply found_here. right. eassumption.
      * eapply found_below; [right; eassumption | eassumption].
Qed.

(** The search misses no occurrence. *)
Lemma spec_dfs_complete name parent forest p :
  FoundUnder name parent forest p ->
  exists p', spec_dfs name parent forest = Some p'.
Proof.
  induction 1 as [parent forest t Hin | parent forest k meta deps p Hin _ IH].
  - induction forest as [|[k0 t0] rest IHf]; [destruct Hin|].
    rewrite spec_dfs_cons.
    destruct (String.eqb_spec k0 name) as [->|Hne]; [eauto|].
    destruct (spec_dfs_under name k0 t0); [eauto|].
    apply IHf. destruct Hin as [Heq|Hin]; [congruence | exact Hin].
  - destruct IH as [p' IH].
    induction forest as [|[k0 t0] rest IHf]; [destruct Hin|].
    rewrite spec_dfs_cons.
    destruct (String.eqb_spec k0 name) as [->|Hne]; [eauto|].
    destruct Hin as [Heq|Hin].
    + injection Heq as -> ->. rewrite spec_dfs_under_node, IH. eauto.
    + destruct (spec_dfs_under name k0 t0); [eauto|]. apply IHf. exact Hin.
Qed.

(** *** The code on an encoded tree *)

Lemma assoc_app_absent k v meta :
  assoc k meta = None -> assoc k (meta ++ [(k, v)]) = Some v.
Proof.
  induction meta as [|[k0 v0] meta IH]; simpl.
  - rewrite String.eqb_refl. reflexivity.
  - destruct (String.eqb k0 k); [discriminate | exact IH].
Qed.

Lemma assoc_In k v ps : assoc k ps = Some v -> In (k, v) ps.
Proof.
  induction ps as [|[k0 v0] ps IH]; simpl; [discriminate|].
  destruct (String.eqb_spec k0 k) as [->|Hne].
  - intros [= ->]. left. reflexivity.
  - intros H. right. apply IH. exact H.
Qed.

Lemma json_depth_prop k v ps :
  In (k, v) ps -> json_depth v < json_depth (JObj ps).
Proof.
  simpl. induction ps as [|[k0 v0] ps IH]; intros Hin; [destruct Hin|].
  simpl. destruct Hin as [[= -> ->]|Hin]; [|specialize (IH Hin)]; lia.
Qed.

Lemma get_field_encode t :
  well_formed t = true ->
  get_field (encode t) F_dependencies =
  Ret match t with
      | Leaf _ => None
      | Node _ deps => Some (JObj (encode_forest deps))
      end.
Proof.
  destruct t as [meta|meta deps]; simpl; unfold plain_meta.
  - destruct (assoc "dependencies" meta); [discriminate|reflexivity].
  - destruct (assoc "dependencies" meta) eqn:E; [discriminate|].
    intros _. rewrite (assoc_app_absent _ _ _ E). reflexivity.
Qed.

Lemma findPackageInLock_rec_wrapper fuel name d parent :
  truthy d = true ->
  findPackageInLock_rec (S fuel) name (JObj [("dependencies", d)]) parent =
  scanDependencies
    (fun depName d' =>
       findPackageInLock_rec fuel name (JObj [("dependencies", d')])
                             (Some depName))
    name parent (entries d).
Proof. intros H. simpl. rewrite H. reflexivity. Qed.

Lemma forest_height_cons k t rest :
  forest_height ((k, t) :: rest)
  = Nat.max (tree_height t) (forest_height rest).
Proof. reflexivity. Qed.

Lemma tree_height_node meta deps :
  tree_height (Node meta deps) = S (forest_height deps).
Proof. reflexivity. Qed.

(** With room for as many nested calls as the forest is high, the loop
    over an encoded forest computes the specification's depth-first
    search. *)
Lemma scanDependencies_encode name fuel :
  forall forest parent,
    forest_height forest <= fuel ->
    forallb (fun kt => well_formed (snd kt)) forest = true ->
    scanDependencies
      (fun depName d =>
         findPackageInLock_rec fuel name (JObj [("dependencies", d)])
                               (Some depName))
      name parent (encode_forest forest)
    = Ret (mkPackageInfo <$> spec_dfs name parent forest).
Proof.
  induction fuel as [fuel IHfuel] using lt_wf_ind.
  induction forest as [|[k t] rest IHrest]; intros parent Hd Hwf;
    [reflexivity|].
  simpl in Hwf. apply andb_prop in Hwf as [Hwt Hwr].
  rewrite forest_height_cons in Hd.
  assert (Hdrest : forest_height rest <= fuel) by lia.
  assert (Hdt : tree_height t <= fuel) by lia.
  specialize (IHrest parent Hdrest Hwr).
  rewrite spec_dfs_cons.
  change (encode_forest ((k, t) :: rest))
    with ((k, encode t) :: encode_forest rest).
  cbn [scanDependencies].
  destruct (String.eqb k name); [reflexivity|].
  rewrite (get_field_encode _ Hwt), bind_Ret.
  destruct t as [meta|meta deps]; [exact IHrest|].
  cbn [truthy_opt truthy default from_option id].
  rewrite spec_dfs_under_node.
  rewrite tree_height_node in Hdt.
  destruct fuel as [|fuel']; [lia|].
  rewrite findPackageInLock_rec_wrapper by reflexivity.
  cbn [entries].
  rewrite (IHfuel fuel' (Nat.lt_succ_diag_r _) deps (Some k));
    [|lia|simpl in Hwt; apply andb_prop in Hwt as [_ Hw]; exact Hw].
  rewrite bind_Ret.
  destruct (spec_dfs name (Some k) deps); [reflexivity | exact IHrest].
Qed.

Lemma findPackageInLock_nested stackDepth name lockprops forest :
  assoc "packages" lockprops = None ->
  assoc "dependencies" lockprops = Some (JObj (encode_forest forest)) ->
  forallb (fun kt => well_formed (snd kt)) forest = true ->
  forest_height forest <= stackDepth ->
  findPackageInLock stackDepth name (JObj lockprops) None
  = Ret (mkPackageInfo <$> spec_dfs name None forest).
Proof.
  intros Hp Hdeps Hwf Hh. unfold findPackageInLock.
  cbn [findPackageInLock_rec get_field field_name].
  rewrite Hp, bind_Ret. cbn [truthy_opt]. rewrite Hdeps, bind_Ret.
  cbn [truthy_opt truthy from_option entries].
  apply scanDependencies_encode; assumption.
Qed.

(** *** A tree nested deeper than the stack has room for *)

Lemma deep_tree_well_formed n : well_formed (deep_tree n) = true.
Proof. induction n as [|n IH]; [reflexivity|]. simpl. rewrite IH. reflexivity. Qed.

Lemma deep_tree_height n : tree_height (deep_tree n) = S n.
Proof.
  induction n as [|n IH]; [reflexivity|].
  cbn [deep_tree]. rewrite tree_height_node, forest_height_cons, IH.
  cbn [forest_height fold_right]. lia.
Qed.

(** The specification's search finds [b] under the last [a]. *)
Lemma deep_tree_found n :
  spec_dfs "b" None [("a", deep_tree n)] = Some (Some "a").
Proof.
  assert (H : spec_dfs_under "b" "a" (deep_tree n) = Some (Some "a")).
  { induction n as [|n IH]; [reflexivity|].
    cbn [deep_tree]. rewrite spec_dfs_under_node, spec_dfs_cons.
    cbn [String.eqb Ascii.eqb Bool.eqb]. rewrite IH. reflexivity. }
  rewrite spec_dfs_cons. cbn [String.eqb Ascii.eqb Bool.eqb].
  rewrite H. reflexivity.
Qed.

(** The code's search needs one nested call more than there is room
    for. *)
Lemma deep_tree_overflow n parent :
  findPackageInLock n "b"
    (JObj [("dependencies", JObj (encode_forest [("a", deep_tree n)]))])
    parent
  = Throw RangeError.
Proof.
  unfold findPackageInLock. revert parent.
  induction n as [|n IH]; intros parent; [reflexivity|].
  rewrite findPackageInLock_rec_wrapper by reflexivity.
  change (entries (JObj (encode_forest [("a", deep_tree (S n))])))
    with [("a", encode (deep_tree (S n)))].
  cbn [scanDependencies String.eqb Ascii.eqb Bool.eqb].
  rewrite (get_field_encode _ (deep_tree_well_formed (S n))), bind_Ret.
  cbn [deep_tree truthy_opt truthy default from_option id].
  rewrite (IH (Some "a")). reflexivity.
Qed.

Lemma null_free_deep_tree n : Shape.null_free (encode (deep_tree n)) = true.
Proof. induction n as [|n IH]; [reflexivity|]. simpl. rewrite IH. reflexivity. Qed.

End NestedTree.

(* --------------------------------------------------------------------- *)
(** ** When the lock search runs out of stack *)
(* --------------------------------------------------------------------- *)

Section Fuel.
Import JS ChainResolver.

Lemma In_imap_value {A} (g : nat -> A -> string * json) (h : A -> json)
    (xs : list A) k v :
  (forall i x, snd (g i x) = h x) ->
  In (k, v) (imap g xs) -> exists x, In x xs /\ v = h x.
Proof.
  revert g. induction xs as [|x xs IH]; intros g Hg Hin; [destruct Hin|].
  cbn [imap] in Hin. destruct Hin as [Heq|Hin].
  - exists x. split; [left; reflexivity|].
    rewrite <- (Hg 0 x), Heq. reflexivity.
  - destruct (IH (g ∘ S)) as (y & Hy & ->); [intros; apply Hg | exact Hin |].
    exists y. split; [right; exact Hy | reflexivity].
Qed.

Lemma json_depth_element v xs :
  In v xs -> json_depth v < json_depth (JArr xs).
Proof.
  simpl. induction xs as [|x xs IH]; intros Hin; [destruct Hin|].
  simpl. destruct Hin as [->|Hin]; [|specialize (IH Hin)]; lia.
Qed.

(** An entry of [d] that has a [dependencies] property lies deeper than
    [d]. *)
Lemma entries_deeper d k v sub :
  In (k, v) (entries d) ->
  get_field v F_dependencies = Ret (Some sub) ->
  json_depth sub + 2 <= json_depth d.
Proof.
  intros Hin Hsub.
  assert (Hv : json_depth sub < json_depth v).
  { destruct v; try discriminate Hsub. simpl in Hsub.
    injection Hsub as Hsub. apply assoc_In in Hsub.
    eapply json_depth_prop; exact Hsub. }
  assert (Hd : json_depth v < json_depth d).
  { destruct d as [| | |str|xs|ps]; try destruct Hin.
    - cbn [entries] in Hin.
      apply (In_imap_value _ (fun c => JStr (String c EmptyString))) in Hin
        as (c & _ & ->); [discriminate Hsub | reflexivity].
    - cbn [entries] in Hin.
      apply (In_imap_value _ (fun x => x)) in Hin as (x & Hx & ->);
        [|reflexivity].
      apply json_depth_element, Hx.
    - eapply json_depth_prop; exact Hin. }
  lia.
Qed.

Lemma scanDependencies_no_overflow recur name parent es :
  (forall depName depInfo d,
      In (depName, depInfo) es ->
      get_field depInfo F_dependencies = Ret (Some d) ->
      recur depName d <> Throw RangeError) ->
  scanDependencies recur name parent es <> Throw RangeError.
Proof.
  induction es as [|[depName depInfo] rest IH]; intros Hok; [discriminate|].
  cbn [scanDependencies].
  destruct (String.eqb depName name); [discriminate|].
  assert (IH' := IH (fun a b c Hin => Hok a b c (or_intror Hin))).
  destruct (get_field depInfo F_dependencies) as [[d|]|e] eqn:Hg;
    rewrite ?bind_Ret, ?bind_Throw; cbn [truthy_opt default from_option id];
    [|exact IH'|].
  - destruct (truthy d); [|exact IH'].
    specialize (Hok depName depInfo d (or_introl eq_refl) Hg).
    destruct (recur depName d) as [[r|]|e'];
      rewrite ?bind_Ret, ?bind_Throw; [discriminate | exact IH' | exact Hok].
  - destruct depInfo; simpl in Hg; congruence.
Qed.

Lemma findPackageInLock_rec_unfold fuel name lock parent :
  findPackageInLock_rec (S fuel) name lock parent =
  (packages ← get_field lock F_packages;
   match (if truthy_opt packages
          then scanPackages name parent (from_option entries [] packages)
          else None) with
   | Some info => Ret (Some info)
   | None =>
       deps ← get_field lock F_dependencies;
       if truthy_opt deps then
         scanDependencies
           (fun depName d =>
              findPackageInLock_rec fuel name (JObj [("dependencies", d)])
                                    (Some depName))
           name parent (from_option entries [] deps)
       else Ret None
   end).
Proof. reflexivity. Qed.

Lemma json_depth_wrapper d :
  json_depth (JObj [("dependencies", d)]) = S (json_depth d).
Proof. simpl. rewrite Nat.max_0_r. reflexivity. Qed.

(** What [entries deps] can descend into, for [deps] a property of
    [lock]. *)
Lemma descent_bound lock deps depName depInfo d :
  get_field lock F_dependencies = Ret (Some deps) ->
  In (depName, depInfo) (entries deps) ->
  get_field depInfo F_dependencies = Ret (Some d) ->
  json_depth (JObj [("dependencies", d)]) + 2 <= json_depth lock.
Proof.
  intros Hl Hin Hd. rewrite json_depth_wrapper.
  pose proof (entries_deeper _ _ _ _ Hin Hd) as H1.
  destruct lock; try discriminate Hl. simpl in Hl. injection Hl as Hl.
  apply assoc_In, json_depth_prop in Hl. lia.
Qed.

(** A nested call is made on a document two levels less deep, so room for
    half as many calls as the document is deep suffices. *)
Lemma findPackageInLock_rec_no_overflow name :
  forall fuel lock parent,
    0 < fuel -> json_depth lock <= 2 * fuel ->
    findPackageInLock_rec fuel name lock parent <> Throw RangeError.
Proof.
  induction fuel as [|fuel IH]; intros lock parent Hpos H; [lia|].
  rewrite findPackageInLock_rec_unfold.
  destruct (get_field lock F_packages) as [packages|e] eqn:Hp;
    rewrite ?bind_Ret, ?bind_Throw;
    [|destruct lock; simpl in Hp; congruence].
  destruct (if truthy_opt packages then _ else None); [discriminate|].
  destruct (get_field lock F_dependencies) as [[deps|]|e] eqn:Hdeps;
    rewrite ?bind_Ret, ?bind_Throw; cbn [truthy_opt from_option];
    [|discriminate|destruct lock; simpl in Hdeps; congruence].
  destruct (truthy deps); [|discriminate].
  apply scanDependencies_no_overflow. intros depName depInfo d Hin Hd.
  pose proof (descent_bound _ _ _ _ _ Hdeps Hin Hd) as Hb.
  pose proof (json_depth_wrapper d) as Hw.
  apply IH; lia.
Qed.

Lemma findPackageInLock_no_overflow stackDepth name lock parent :
  json_depth lock <= 2 * stackDepth + 2 ->
  findPackageInLock stackDepth name lock parent <> Throw RangeError.
Proof.
  intros H. apply findPackageInLock_rec_no_overflow; lia.
Qed.

(** The search reads no file. *)
Lemma findPackageInLock_rec_no_read name :
  forall fuel lock parent,
    findPackageInLock_rec fuel name lock parent <> Throw ReadError.
Proof.
  induction fuel as [|fuel IH]; intros lock parent; [discriminate|].
  rewrite findPackageInLock_rec_unfold.
  destruct (get_field lock F_packages) as [packages|e] eqn:Hp;
    rewrite ?bind_Ret, ?bind_Throw;
    [|destruct lock; simpl in Hp; congruence].
  destruct (if truthy_opt packages then _ else None); [discriminate|].
  destruct (get_field lock F_dependencies) as [[deps|]|e] eqn:Hdeps;
    rewrite ?bind_Ret, ?bind_Throw; cbn [truthy_opt from_option];
    [|discriminate|destruct lock; simpl in Hdeps; congruence].
  destruct (truthy deps); [|discriminate].
  generalize (entries deps). intros es.
  induction es as [|[depName depInfo] rest IHes]; [discriminate|].
  cbn [scanDependencies].
  destruct (String.eqb depName name); [discriminate|].
  destruct (get_field depInfo F_dependencies) as [[d|]|e] eqn:Hg;
    rewrite ?bind_Ret, ?bind_Throw; cbn [truthy_opt default from_option id];
    [|exact IHes|destruct depInfo; simpl in Hg; congruence].
  destruct (truthy d); [|exact IHes].
  destruct (findPackageInLock_rec fuel name _ _) as [[r|]|e'] eqn:Er;
    rewrite ?bind_Ret, ?bind_Throw; [discriminate | exact IHes |].
  intros [= ->]. exact (IH _ _ Er).
Qed.

End Fuel.

Section NestedTreeResolution.
Import JS ChainResolver Spec.

Variable path_join : list string -> string.
Variable stackDepth : nat.

(** C5.  On a lock file in nested-tree format (a [dependencies] tree and
    no [packages] table) whose tree nests no deeper than the call stack
    has room for, for a package the manifest does not list, the
    resolver's answer is that of a depth-first search of the tree: when
    the search finds the package the answer is Transitive ([dependency])
    with the nearest ancestor's name as parent, [null] for a top-level
    entry; when it does not, the answer is Unknown.  The search returns
    the nearest ancestor of an occurrence and finds the package whenever
    it occurs. *)
Theorem C5_nested_tree_depth_first
    (fs : FileSystem) (name proj : string) (manifest : json)
    (lockprops : list (string * json)) (forest : list (string * DepTree)) :
  readJson fs (path_join [proj; "package.json"]) = Ret manifest ->
  manifestMatch manifest name = Ret false ->
  pathExists fs (path_join [proj; "package-lock.json"]) = true ->
  readJson fs (path_join [proj; "package-lock.json"]) = Ret (JObj lockprops) ->
  assoc "packages" lockprops = None ->
  assoc "dependencies" lockprops = Some (JObj (encode_forest forest)) ->
  forallb (fun kt => well_formed (snd kt)) forest = true ->
  forest_height forest <= stackDepth ->
  analyzeDependencyChain path_join stackDepth fs name proj =
    Ret match spec_dfs name None forest with
        | Some p => dependencyOf (mkPackageInfo p)
        | None => unknownSource
        end /\
  (forall p, spec_dfs name None forest = Some p ->
             FoundUnder name None forest p /\
             type (dependencyOf (mkPackageInfo p)) = Dependency /\
             parent (dependencyOf (mkPackageInfo p)) = p) /\
  ((exists p, FoundUnder name None forest p) ->
   exists p, spec_dfs name None forest = Some p).
Proof.
  intros Hm Hd He Hl Hp Hdeps Hwf Hh. split; [|split].
  - rewrite (resolve_via_lock _ _ _ _ _ _ _ Hm Hd He Hl).
    rewrite (findPackageInLock_nested _ _ _ _ Hp Hdeps Hwf Hh).
    destruct (spec_dfs name None forest); reflexivity.
  - intros p H. split; [apply spec_dfs_sound; exact H | split; reflexivity].
  - intros [p H]. eapply spec_dfs_complete. exact H.
Qed.

End NestedTreeResolution.

Section NestedTreeExample.
Import JS ChainResolver Spec.

(** The tree [{"a": {"dependencies": {"b": {}}}}] under the lock file's
    [dependencies]: resolving ["b"] gives Transitive with parent ["a"]. *)
Lemma C5_nested_tree_witness :
  let forest := [("a", Node [] [("b", Leaf [])])] in
  let lock := JObj [("dependencies", JObj (encode_forest forest))] in
  let fs := fixture_fs [("proj/package.json", Ret (JObj []));
                        ("proj/package-lock.json", Ret lock)] in
  lock = JObj [("dependencies",
                JObj [("a", JObj [("dependencies", JObj [("b", JObj [])])])])]
  /\ forest_height forest = 1
  /\ analyzeDependencyChain fixture_join fixture_stack fs "b" "proj"
     = Ret (mkChainInfo Dependency (Some "a") "Dependency of a").
Proof.
  cbv zeta. split; [reflexivity|]. split; [reflexivity|].
  apply (proj1 (C5_nested_tree_depth_first fixture_join fixture_stack
                  (fixture_fs
                     [("proj/package.json", Ret (JObj []));
                      ("proj/package-lock.json",
                       Ret (JObj [("dependencies",
                                   JObj (encode_forest
                                           [("a", Node [] [("b", Leaf [])])]))]))])
                  "b" "proj" (JObj [])
                  [("dependencies",
                    JObj (encode_forest [("a", Node [] [("b", Leaf [])])]))]
                  [("a", Node [] [("b", Leaf [])])]
                  eq_refl eq_refl eq_refl eq_refl eq_refl eq_refl eq_refl
                  (proj1 (Nat.leb_le 1 fixture_stack) eq_refl))).
Defined.

(** The deep tree searched with room for fewer nested calls than it is
    high. *)
Lemma resolve_deep_tree stackDepth :
  analyzeDependencyChain fixture_join stackDepth
    (fixture_locked [("a", deep_tree stackDepth)]) "b" "proj"
  = Ret couldNotAnalyze.
Proof.
  rewrite (resolve_via_lock fixture_join stackDepth _ "b" "proj" (JObj [])
             (JObj [("dependencies",
                     JObj (encode_forest [("a", deep_tree stackDepth)]))]));
    try reflexivity.
  rewrite deep_tree_overflow. reflexivity.
Qed.

(** C5 as stated fails on a tree nested deeper than the call stack has
    room for.  The package [b] is in the tree, under an entry [a], and
    the depth-first search of the specification finds it there; the
    recursion of the code exhausts the call stack on the way down, the
    RangeError is caught by the resolver, and the answer is Unknown,
    "Could not analyze dependency chain", not Transitive.  This happens
    whatever the room on the stack is, with a tree one level higher. *)
Theorem C5_deep_tree_not_resolved :
  (spec_dfs "b" None [("a", deep_tree fixture_stack)] = Some (Some "a") /\
   analyzeDependencyChain fixture_join fixture_stack
     (fixture_locked [("a", deep_tree fixture_stack)]) "b" "proj"
   = Ret couldNotAnalyze) /\
  (forall stackDepth,
      let forest := [("a", deep_tree stackDepth)] in
      forallb (fun kt => well_formed (snd kt)) forest = true /\
      forest_height forest = S stackDepth /\
      FoundUnder "b" None forest (Some "a") /\
      spec_dfs "b" None forest = Some (Some "a") /\
      analyzeDependencyChain fixture_join stackDepth (fixture_locked forest)
        "b" "proj"
      = Ret couldNotAnalyze /\
      analyzeDependencyChain fixture_join stackDepth (fixture_locked forest)
        "b" "proj"
      <> Ret (dependencyOf (mkPackageInfo (Some "a")))).
Proof.
  split.
  - split; [apply deep_tree_found | apply resolve_deep_tree].
  - intros stackDepth. cbv zeta.
    split; [cbn; rewrite deep_tree_well_formed; reflexivity|].
    split; [rewrite forest_height_cons, deep_tree_height; cbn; lia|].
    split; [apply spec_dfs_sound, deep_tree_found|].
    split; [apply deep_tree_found|].
    rewrite resolve_deep_tree. split; [reflexivity | discriminate].
Qed.

End NestedTreeExample.

(* --------------------------------------------------------------------- *)
(** ** Lock file, flat path table *)
(* --------------------------------------------------------------------- *)

Section FlatTable.
Import JS JSString ChainResolver Spec.

Lemma length_append (p q : string) :
  String.length (p ++ q) = String.length p + String.length q.
Proof.
  induction p as [|c p IH]; [reflexivity|].
  rewrite append_cons. simpl. rewrite IH. reflexivity.
Qed.

Lemma append_nil_r (p : string) : (p ++ "")%string = p.
Proof.
  induction p as [|c p IH]; [reflexivity|].
  rewrite append_cons, IH. reflexivity.
Qed.

Lemma endsWith_append (pre suf : string) : endsWith (pre ++ suf) suf = true.
Proof.
  unfold endsWith. rewrite length_append.
  replace (String.length pre + String.length suf - String.length suf)
    with (String.length pre) by lia.
  rewrite drop_length_app, String.eqb_refl.
  destruct (Nat.leb_spec (String.length suf)
              (String.length pre + String.length suf)); [reflexivity|lia].
Qed.

(** When the suffix does not occur earlier in the key, [replace] strips
    exactly the suffix. *)
Lemma replace_last_occurrence (pre suf : string) :
  indexOf (pre ++ suf) suf = Some (String.length pre) ->
  replace (pre ++ suf) suf "" = pre.
Proof.
  intros H. unfold replace. rewrite H, take_length_app, append_nil_l.
  rewrite <- length_append.
  rewrite <- (append_nil_r (pre ++ suf)) at 2.
  rewrite drop_length_app. apply append_nil_r.
Qed.

(** The sound half of the flat-table rule: when the suffix
    [/node_modules/<packageName>] occurs in the key only at its end, the
    parent is the last segment of what precedes it, and the caller's
    parent ([null]) when that segment is empty. *)
Lemma scanPackages_suffix_once name parent0 pre v rest :
  indexOf (pre ++ "/node_modules/" ++ name) ("/node_modules/" ++ name)
  = Some (String.length pre) ->
  scanPackages name parent0 ((pre ++ "/node_modules/" ++ name, v) :: rest)%string
  = Some (mkPackageInfo
            match pop (split "/" pre) with
            | Some seg => if nonempty seg then Some seg else parent0
            | None => parent0
            end).
Proof.
  intros H. cbn [scanPackages].
  rewrite endsWith_append, (replace_last_occurrence _ _ H). reflexivity.
Qed.

Lemma split_no_separator seg :
  includes seg "/" = false -> split "/" seg = [seg].
Proof.
  unfold includes. induction seg as [|c seg IH]; [reflexivity|].
  rewrite indexOf_cons. cbn [startsWith split].
  rewrite Ascii.eqb_sym.
  destruct (Ascii.eqb c "/"); [discriminate|].
  destruct (indexOf seg "/"); [discriminate|].
  intros _. rewrite IH; reflexivity.
Qed.

Lemma split_last_segment q seg :
  includes seg "/" = false ->
  exists h t, split "/" (q ++ "/" ++ seg) = h :: t /\ t <> [] /\
              last t = Some seg.
Proof.
  intros Hseg. induction q as [|c q (h & t & IH & Hne & Hlast)].
  - exists "", [seg]. rewrite append_nil_l.
    change ("/" ++ seg)%string with (String "/" seg). cbn [split].
    rewrite (split_no_separator _ Hseg). repeat split. discriminate.
  - rewrite append_cons. cbn [split]. rewrite IH.
    destruct (Ascii.eqb c "/").
    + exists "", (h :: t). repeat split; [discriminate|].
      destruct t; [contradiction | exact Hlast].
    + exists (String c h), t. repeat split; assumption.
Qed.

Lemma pop_split_last_segment q seg :
  includes seg "/" = false -> pop (split "/" (q ++ "/" ++ seg)) = Some seg.
Proof.
  intros Hseg. destruct (split_last_segment q seg Hseg) as (h & t & -> & Hne & Hl).
  unfold pop. destruct t; [contradiction | exact Hl].
Qed.

(** In that case the parent is the path segment right before the suffix. *)
Lemma scanPackages_preceding_segment name parent0 q seg v rest :
  includes seg "/" = false ->
  nonempty seg = true ->
  indexOf ((q ++ "/" ++ seg) ++ "/node_modules/" ++ name)
          ("/node_modules/" ++ name)
  = Some (String.length (q ++ "/" ++ seg)) ->
  scanPackages name parent0
    (((q ++ "/" ++ seg) ++ "/node_modules/" ++ name, v) :: rest)%string
  = Some (mkPackageInfo (Some seg)).
Proof.
  intros Hseg Hne H. rewrite (scanPackages_suffix_once _ _ _ _ _ H).
  rewrite (pop_split_last_segment _ _ Hseg), Hne. reflexivity.
Qed.

(** C4 (the code departs from it).  The key ends with
    [/node_modules/react] and the segment immediately before that suffix
    is [react-dom]; [replace] removes the first occurrence of the suffix
    text, which lies inside [/node_modules/react-dom], and the parent
    comes out as [react].  The two keys the specification names behave as
    it says. *)
Theorem C4_flat_parent_first_occurrence :
  let resolve_flat key name :=
    analyzeDependencyChain fixture_join fixture_stack
      (fixture_fs [("proj/package.json", Ret (JObj []));
                   ("proj/package-lock.json",
                    Ret (JObj [("packages", JObj [(key, JObj [])])]))])
      name "proj" in
  ("node_modules/x/node_modules/react-dom/node_modules/react"
   = "node_modules/x/node_modules/react-dom" ++ "/node_modules/" ++ "react")%string
  /\ resolve_flat "node_modules/x/node_modules/react-dom/node_modules/react"
                  "react"
     = Ret (mkChainInfo Dependency (Some "react") "Dependency of react")
  /\ resolve_flat "node_modules/a/node_modules/b" "b"
     = Ret (mkChainInfo Dependency (Some "a") "Dependency of a")
  /\ resolve_flat "/node_modules/b" "b"
     = Ret (mkChainInfo Dependency None "Dependency of unknown package").
Proof. cbv zeta. repeat split. Qed.

End FlatTable.

(* --------------------------------------------------------------------- *)
(** ** InstallationTracker: the transitions in closed form *)
(* --------------------------------------------------------------------- *)

(** Setters are unfolded call-by-value on a state given by its fields, so
    that the fields are not copied at every nesting level. *)
Ltac monitor_cbv :=
  cbv [Monitor.set_activeInstalls Monitor.set_progressBars Monitor.set_multibar
       Monitor.set_timers Monitor.bump_id
       Monitor.add_project Monitor.add_watcher Monitor.log
       Monitor.schedule Invariant.in_flight
       Monitor.activeInstalls Monitor.progressBars Monitor.multibar
       Monitor.timers Monitor.next_id
       Monitor.monitoredProjects Monitor.watchers Monitor.console] in *.

Section TrackerSteps.
Import JS ChainResolver Monitor Invariant.

Variable path_join : list string -> string.
Variable path_basename : string -> string.
Variable platform : string.
Variable APPDATA : option string.

Local Abbreviation manifestObserved :=
  (Monitor.manifestObserved path_join path_basename platform APPDATA).
Local Abbreviation checkComplete :=
  (Monitor.checkComplete path_join path_basename platform APPDATA).
Local Abbreviation fireTimer :=
  (Monitor.fireTimer path_join path_basename platform APPDATA).

Lemma track_active w packageName projectName chain s :
  is_Some (activeInstalls s !! compositeKey projectName packageName) ->
  trackInstallationWithProgress w packageName projectName chain s = s.
Proof.
  intros [install H]. unfold trackInstallationWithProgress. rewrite H.
  reflexivity.
Qed.

Lemma track_new w packageName projectName chain s :
  activeInstalls s !! compositeKey projectName packageName = None ->
  let key := compositeKey projectName packageName in
  let n := next_id s in
  trackInstallationWithProgress w packageName projectName chain s =
  mkMonitor
    (<[key := mkInstall (now w) projectName chain n (Some (S n))]>
       (activeInstalls s))
    (<[key := n]> (progressBars s))
    (<[n := mkBar (num 0) packageName (getStatusText chain) "calculating..."]>
       (multibar s))
    (<[S (S n) := mkTimer 500 false (CheckComplete key packageName projectName)]>
       (<[S n := mkTimer 200 true
                   (ProgressTick key packageName
                      (mkInstall (now w) projectName chain n None))]>
          (timers s)))
    (S (S (S n)))
    (monitoredProjects s) (watchers s)
    (console s ++ [LineInstalling projectName packageName chain]).
Proof.
  intros H. destruct s as [ai pb mb tm n0 mp ws cs].
  cbv [trackInstallationWithProgress checkInstallationCompleteWithProgress].
  monitor_cbv. rewrite H.
  cbv [simulateInstallProgress]. monitor_cbv.
  rewrite lookup_insert_eq.
  cbv [assignInterval startTime Monitor.projectName chainInfo progressBar
       progressInterval].
  rewrite insert_insert_eq. reflexivity.
Qed.

Lemma capped_zero : capped (num 0).
Proof. split; [reflexivity | discriminate]. Qed.

(** A detection keeps the invariant. *)
Lemma track_preserves w packageName projectName chain s :
  tracker_inv s ->
  tracker_inv (trackInstallationWithProgress w packageName projectName chain s).
Proof.
  intros Hinv.
  destruct (activeInstalls s !! compositeKey projectName packageName) eqn:E.
  { rewrite track_active; [exact Hinv | eauto]. }
  rewrite (track_new _ _ _ _ _ E).
  set (key := compositeKey projectName packageName) in *.
  destruct s as [ai pb mb tm n mp ws cs].
  destruct Hinv as [Hreg Hdis Hfb Hfi Hft Hfm Hcap Hdone Hown Htick
                      Hpres Hret Hpend].
  constructor; monitor_cbv.
  - intros k. destruct (decide (key = k)) as [<-|Hne].
    + rewrite !lookup_insert_eq. reflexivity.
    + rewrite !lookup_insert_ne by exact Hne. apply Hreg.
  - intros k1 k2 i1 i2 H1 H2 Hb.
    apply lookup_insert_Some in H1 as [[<- <-]|[Hn1 H1]];
      apply lookup_insert_Some in H2 as [[<- <-]|[Hn2 H2]];
      cbn [progressBar] in Hb.
    + reflexivity.
    + apply Hfb in H2. lia.
    + apply Hfb in H1. lia.
    + eapply Hdis; eassumption.
  - intros k i H.
    apply lookup_insert_Some in H as [[<- <-]|[Hn H]]; cbn [progressBar].
    + lia.
    + apply Hfb in H. lia.
  - intros k i tid H Hi.
    apply lookup_insert_Some in H as [[<- <-]|[Hn H]].
    + cbn [progressInterval] in Hi. injection Hi as <-. lia.
    + specialize (Hfi _ _ _ H Hi). lia.
  - intros id t H.
    apply lookup_insert_Some in H as [[<- <-]|[Hn H]]; [lia|].
    apply lookup_insert_Some in H as [[<- <-]|[Hn' H]]; [lia|].
    apply Hft in H. lia.
  - intros b bar H.
    apply lookup_insert_Some in H as [[<- <-]|[Hn H]]; [lia|].
    apply Hfm in H. lia.
  - intros k i bar H Hbar.
    apply lookup_insert_Some in H as [[<- <-]|[Hn H]].
    + cbn [progressBar] in Hbar. rewrite lookup_insert_eq in Hbar.
      injection Hbar as <-. exact capped_zero.
    + pose proof (Hfb _ _ H) as Hlt.
      rewrite lookup_insert_ne in Hbar by lia.
      eapply Hcap; eassumption.
  - intros b bar H Hnot.
    apply lookup_insert_Some in H as [[<- <-]|[Hn H]].
    + exfalso. apply Hnot. exists key. eexists. split.
      * apply lookup_insert_eq.
      * reflexivity.
    + apply (Hdone _ _ H). intros (k & i & Hk & Hb). apply Hnot.
      exists k, i. split; [|exact Hb].
      rewrite lookup_insert_ne; [exact Hk|]. congruence.
  - intros tid t k pn snap H Hcb.
    apply lookup_insert_Some in H as [[<- <-]|[Hn H]]; [discriminate Hcb|].
    apply lookup_insert_Some in H as [[<- <-]|[Hn' H]].
    + cbn [callback] in Hcb. injection Hcb as <- <- <-.
      eexists. split; [apply lookup_insert_eq|]. repeat split.
    + destruct (Hown _ _ _ _ _ H Hcb) as (i & Hi & Hint & Hb & Hst).
      exists i. split; [|split; [|split]; assumption].
      rewrite lookup_insert_ne; [exact Hi|]. congruence.
  - intros k i tid t H Hi Ht.
    apply lookup_insert_Some in H as [[<- <-]|[Hn H]].
    + cbn [progressInterval] in Hi. injection Hi as <-.
      rewrite lookup_insert_ne in Ht by lia.
      rewrite lookup_insert_eq in Ht. injection Ht as <-.
      eexists _, _. reflexivity.
    + pose proof (Hfi _ _ _ H Hi) as Hlt.
      rewrite !lookup_insert_ne in Ht by lia.
      eapply Htick; eassumption.
  - intros k i H.
    apply lookup_insert_Some in H as [[<- <-]|[Hn H]]; cbn [progressBar].
    + rewrite lookup_insert_eq. eauto.
    + pose proof (Hfb _ _ H) as Hlt.
      rewrite lookup_insert_ne by lia. eapply Hpres; eassumption.
  - intros tid t i pn pk el H Hcb.
    apply lookup_insert_Some in H as [[<- <-]|[Hn H]]; [discriminate Hcb|].
    apply lookup_insert_Some in H as [[<- <-]|[Hn' H]]; [discriminate Hcb|].
    destruct (Hret _ _ _ _ _ _ H Hcb) as [Hlt Hnot].
    split; [lia|]. intros (k & i' & Hk & Hb).
    apply lookup_insert_Some in Hk as [[<- <-]|[Hnk Hk]].
    + cbn [progressBar] in Hb. lia.
    + apply Hnot. exists k, i'. split; assumption.
  - intros k i H.
    apply lookup_insert_Some in H as [[<- <-]|[Hn H]].
    + exists (S (S n)). eexists. split; [apply lookup_insert_eq|].
      eexists _, _. cbn. split; [reflexivity|]. split; [reflexivity|].
      left; reflexivity.
    + destruct (Hpend _ _ H) as (tid & t & Ht & Hc).
      exists tid, t. split; [|exact Hc].
      pose proof (Hft _ _ Ht) as Hlt.
      rewrite !lookup_insert_ne by lia. exact Ht.
Qed.

(** *** The tick *)

Lemma Math_min_95_capped (x : number) : capped (Math_min (num 95) x).
Proof.
  unfold capped, Math_min, SFltb.
  destruct (SFcompare (num 95) x) as [[| |]|] eqn:E.
  - change (match num 95 with S754_zero true => num 95 | _ => x end) with x.
    rewrite E. split; [reflexivity|]. intros ->. discriminate E.
  - split; [reflexivity | discriminate].
  - rewrite E. split; [reflexivity|]. intros ->. discriminate E.
  - split; [reflexivity | discriminate].
Qed.

Lemma progressAt_capped elapsed estimatedDuration :
  capped (progressAt elapsed estimatedDuration).
Proof. apply Math_min_95_capped. Qed.

Lemma tick_preserves w id t key packageName snapshot s :
  tracker_inv s ->
  timers s !! id = Some t ->
  callback t = ProgressTick key packageName snapshot ->
  tracker_inv (progressTick w id key packageName snapshot s).
Proof.
  intros Hinv Ht Hcb.
  destruct (inv_ticks_owned _ Hinv _ _ _ _ _ Ht Hcb) as (i & Hi & Hint & Hb & Hst).
  unfold progressTick. rewrite Hi.
  destruct s as [ai pb mb tm n mp ws cs].
  destruct Hinv as [Hreg Hdis Hfb Hfi Hft Hfm Hcap Hdone Hown Htick
                      Hpres Hret Hpend].
  constructor; monitor_cbv; try assumption.
  - intros b bar H.
    apply lookup_alter_Some in H as [(_ & bar' & H & _)|[_ H]];
      eapply Hfm; eassumption.
  - intros k i' bar H Hbar.
    apply lookup_alter_Some in Hbar as [(_ & bar' & _ & ->)|[_ Hbar]].
    + apply progressAt_capped.
    + eapply Hcap; eassumption.
  - intros b bar H Hnot.
    apply lookup_alter_Some in H as [(<- & _)|[_ H]].
    + exfalso. apply Hnot. exists key, i. split; [exact Hi | congruence].
    + eapply Hdone; eassumption.
  - intros k i' H. specialize (Hpres _ _ H) as [bar Hbar].
    destruct (decide (progressBar snapshot = progressBar i')) as [e|ne].
    + rewrite e, lookup_alter_eq, Hbar. eauto.
    + rewrite lookup_alter_ne by exact ne. eauto.
Qed.

(** *** Timers that go away *)

Lemma is_check_for_key key key' t packageName projectName :
  callback t = CheckComplete key packageName projectName ->
  is_check_for key' t -> key' = key.
Proof. intros H (pn & pj & H' & _). congruence. Qed.

Lemma delete_timer_preserves id t s :
  tracker_inv s ->
  timers s !! id = Some t ->
  (forall key, is_Some (activeInstalls s !! key) -> ~ is_check_for key t) ->
  tracker_inv (set_timers (delete id) s).
Proof.
  intros Hinv Ht Hnc. destruct s as [ai pb mb tm n mp ws cs].
  destruct Hinv as [Hreg Hdis Hfb Hfi Hft Hfm Hcap Hdone Hown Htick
                      Hpres Hret Hpend].
  constructor; monitor_cbv; try assumption.
  - intros tid t' H. apply lookup_delete_Some in H as [_ H]. eauto.
  - intros tid t' k pn snap H Hcb. apply lookup_delete_Some in H as [_ H].
    eauto.
  - intros k i tid t' H Hi H'. apply lookup_delete_Some in H' as [_ H'].
    eauto.
  - intros tid t' i pn pk el H Hcb. apply lookup_delete_Some in H as [_ H].
    eapply Hret; eassumption.
  - intros k i H. destruct (Hpend _ _ H) as (tid & t' & Ht' & Hc).
    exists tid, t'. split; [|exact Hc].
    rewrite lookup_delete_ne; [exact Ht'|].
    intros <-. rewrite Ht in Ht'. injection Ht' as <-.
    eapply Hnc; eauto.
Qed.

(** *** The completion check *)

Lemma checkComplete_inactive w key packageName projectName s :
  activeInstalls s !! key = None ->
  checkComplete w key packageName projectName s = s.
Proof. intros H. unfold Monitor.checkComplete. rewrite H. reflexivity. Qed.

Lemma checkComplete_waiting w key packageName projectName install s :
  activeInstalls s !! key = Some install ->
  manifestObserved w projectName packageName s = false ->
  checkComplete w key packageName projectName s =
  schedule (mkTimer 300 false (CheckComplete key packageName projectName)) s.
Proof.
  intros H Hobs. unfold Monitor.checkComplete. rewrite H, Hobs. reflexivity.
Qed.

Lemma checkComplete_done w key packageName projectName install s :
  activeInstalls s !! key = Some install ->
  manifestObserved w projectName packageName s = true ->
  checkComplete w key packageName projectName s =
  mkMonitor
    (delete key (activeInstalls s))
    (delete key (progressBars s))
    (alter (fun _ => mkBar (num 100) packageName "Complete!" "0s")
           (progressBar install) (multibar s))
    (<[next_id s :=
         mkTimer 1000 false
           (RetireBar install projectName packageName
              (now w - startTime install))]>
       (match progressInterval install with
        | Some tid => delete tid (timers s)
        | None => timers s
        end))
    (S (next_id s))
    (monitoredProjects s) (watchers s) (console s).
Proof.
  intros H Hobs. unfold Monitor.checkComplete. rewrite H, Hobs.
  destruct (progressInterval install); reflexivity.
Qed.

Lemma poll_waiting_preserves id t key packageName projectName install s :
  tracker_inv s ->
  timers s !! id = Some t ->
  callback t = CheckComplete key packageName projectName ->
  activeInstalls s !! key = Some install ->
  tracker_inv
    (schedule (mkTimer 300 false (CheckComplete key packageName projectName))
              (set_timers (delete id) s)).
Proof.
  intros Hinv Ht Hcb Hact. destruct s as [ai pb mb tm n mp ws cs].
  destruct Hinv as [Hreg Hdis Hfb Hfi Hft Hfm Hcap Hdone Hown Htick
                      Hpres Hret Hpend].
  constructor; monitor_cbv; try assumption.
  - intros k i H. apply Hfb in H. lia.
  - intros k i tid H Hi. specialize (Hfi _ _ _ H Hi). lia.
  - intros tid t' H.
    apply lookup_insert_Some in H as [[<- <-]|[Hn H]]; [lia|].
    apply lookup_delete_Some in H as [_ H]. apply Hft in H. lia.
  - intros b bar H. apply Hfm in H. lia.
  - intros tid t' k pn snap H Hc.
    apply lookup_insert_Some in H as [[<- <-]|[Hn H]]; [discriminate Hc|].
    apply lookup_delete_Some in H as [_ H]. eauto.
  - intros k i tid t' H Hi H'.
    apply lookup_insert_Some in H' as [[<- <-]|[Hn H']].
    + specialize (Hfi _ _ _ H Hi). lia.
    + apply lookup_delete_Some in H' as [_ H']. eauto.
  - intros tid t' i pn pk el H Hc.
    apply lookup_insert_Some in H as [[<- <-]|[Hn H]]; [discriminate Hc|].
    apply lookup_delete_Some in H as [_ H].
    destruct (Hret _ _ _ _ _ _ H Hc) as [Hlt Hnot]. split; [lia|exact Hnot].
  - intros k i H. destruct (decide (k = key)) as [->|Hne].
    + exists n. eexists. split; [apply lookup_insert_eq|].
      eexists _, _. cbn. split; [reflexivity|]. split; [reflexivity|].
      right; reflexivity.
    + destruct (Hpend _ _ H) as (tid & t' & Ht' & Hc).
      exists tid, t'. split; [|exact Hc].
      pose proof (Hft _ _ Ht') as Hlt.
      rewrite lookup_insert_ne by lia.
      rewrite lookup_delete_ne; [exact Ht'|].
      intros <-. rewrite Ht in Ht'. injection Ht' as <-.
      apply Hne. eapply is_check_for_key; eassumption.
Qed.

Lemma poll_done_preserves w id t key packageName projectName install s :
  tracker_inv s ->
  timers s !! id = Some t ->
  callback t = CheckComplete key packageName projectName ->
  activeInstalls s !! key = Some install ->
  manifestObserved w projectName packageName s = true ->
  tracker_inv (checkComplete w key packageName projectName
                 (set_timers (delete id) s)).
Proof.
  intros Hinv Ht Hcb Hact Hobs.
  rewrite (checkComplete_done _ _ _ _ install) by assumption.
  destruct s as [ai pb mb tm0 n mp ws cs].
  destruct Hinv as [Hreg Hdis Hfb Hfi Hft Hfm Hcap Hdone Hown Htick
                      Hpres Hret Hpend].
  monitor_cbv.
  set (tm := match progressInterval install with
             | Some tid => delete tid (delete id tm0)
             | None => delete id tm0
             end).
  assert (Hsub : forall tid t', tm !! tid = Some t' ->
             tm0 !! tid = Some t' /\
             progressInterval install <> Some tid).
  { intros tid t' H. subst tm. destruct (progressInterval install) as [ti|].
    - apply lookup_delete_Some in H as [Hne H].
      apply lookup_delete_Some in H as [_ H]. split; [exact H|congruence].
    - apply lookup_delete_Some in H as [_ H]. split; [exact H|discriminate]. }
  assert (Hkeep : forall tid t', tm0 !! tid = Some t' -> tid <> id ->
             progressInterval install <> Some tid -> tm !! tid = Some t').
  { intros tid t' H Hne Hni. subst tm.
    destruct (progressInterval install) as [ti|].
    - rewrite lookup_delete_ne by congruence.
      rewrite lookup_delete_ne by congruence. exact H.
    - rewrite lookup_delete_ne by congruence. exact H. }
  clearbody tm.
  assert (Hother : forall k i, delete key ai !! k = Some i ->
             k <> key /\ ai !! k = Some i).
  { intros k i H. apply lookup_delete_Some in H as [Hne H]. split; congruence. }
  constructor; monitor_cbv.
  - intros k. destruct (decide (key = k)) as [<-|Hne].
    + rewrite !lookup_delete_eq. reflexivity.
    + rewrite !lookup_delete_ne by exact Hne. apply Hreg.
  - intros k1 k2 i1 i2 H1 H2. apply Hother in H1 as [_ H1].
    apply Hother in H2 as [_ H2]. eapply Hdis; eassumption.
  - intros k i H. apply Hother in H as [_ H]. apply Hfb in H. lia.
  - intros k i tid H Hi. apply Hother in H as [_ H].
    specialize (Hfi _ _ _ H Hi). lia.
  - intros tid t' H.
    apply lookup_insert_Some in H as [[<- <-]|[Hn H]]; [lia|].
    apply Hsub in H as [H _]. apply Hft in H. lia.
  - intros b bar H.
    apply lookup_alter_Some in H as [(_ & bar' & H & _)|[_ H]];
      apply Hfm in H; lia.
  - intros k i bar H Hbar. apply Hother in H as [Hne H].
    apply lookup_alter_Some in Hbar as [(Heq & _)|[_ Hbar]].
    + exfalso. apply Hne. eapply Hdis; [exact H | exact Hact | congruence].
    + eapply Hcap; eassumption.
  - intros b bar H Hnot.
    apply lookup_alter_Some in H as [(_ & bar' & _ & ->)|[Hne H]];
      [reflexivity|].
    apply (Hdone _ _ H). intros (k & i & Hk & Hb). apply Hnot.
    exists k, i. split; [|exact Hb].
    rewrite lookup_delete_ne; [exact Hk|].
    intros <-. rewrite Hact in Hk. injection Hk as <-. congruence.
  - intros tid t' k pn snap H Hc.
    apply lookup_insert_Some in H as [[<- <-]|[Hn H]]; [discriminate Hc|].
    apply Hsub in H as [H Hni].
    destruct (Hown _ _ _ _ _ H Hc) as (i & Hi & Hint & Hb & Hst).
    exists i. split; [|split; [|split]; assumption].
    rewrite lookup_delete_ne; [exact Hi|].
    intros <-. rewrite Hact in Hi. injection Hi as <-. contradiction.
  - intros k i tid t' H Hi H'. apply Hother in H as [Hne H].
    apply lookup_insert_Some in H' as [[<- <-]|[Hn H']].
    + specialize (Hfi _ _ _ H Hi). lia.
    + apply Hsub in H' as [H' _]. eapply Htick; eassumption.
  - intros k i H. apply Hother in H as [Hne H].
    specialize (Hpres _ _ H) as [bar Hbar].
    destruct (decide (progressBar install = progressBar i)) as [e|ne].
    + rewrite e, lookup_alter_eq, Hbar. eauto.
    + rewrite lookup_alter_ne by exact ne. eauto.
  - intros tid t' i pn pk el H Hc.
    apply lookup_insert_Some in H as [[<- <-]|[Hn H]].
    + cbn [callback] in Hc. injection Hc as <- _ _ _.
      split; [apply Hfb in Hact; lia|].
      intros (k & i' & Hk & Hb).
      apply Hother in Hk as [Hne Hk]. apply Hne.
      eapply Hdis; [exact Hk | exact Hact | exact Hb].
    + apply Hsub in H as [H _].
      destruct (Hret _ _ _ _ _ _ H Hc) as [Hlt Hnot]. split; [lia|].
      intros (k & i' & Hk & Hb).
      apply Hother in Hk as [_ Hk]. apply Hnot. exists k, i'.
      split; assumption.
  - intros k i H. apply Hother in H as [Hne H].
    destruct (Hpend _ _ H) as (tid & tc & Htc & Hc).
    exists tid, tc. split; [|exact Hc].
    pose proof (Hft _ _ Htc) as Hlt.
    rewrite lookup_insert_ne by lia.
    apply Hkeep; [exact Htc| |].
    + intros ->. rewrite Ht in Htc. injection Htc as <-.
      apply Hne. eapply is_check_for_key; eassumption.
    + intros Hi. destruct (Htick _ _ _ _ Hact Hi Htc) as (pn & sn & Htk).
      destruct Hc as (pn' & pj' & Hc & _). congruence.
Qed.

Lemma poll_preserves w id t key packageName projectName s :
  tracker_inv s ->
  timers s !! id = Some t ->
  callback t = CheckComplete key packageName projectName ->
  tracker_inv (checkComplete w key packageName projectName
                 (set_timers (delete id) s)).
Proof.
  intros Hinv Ht Hcb.
  destruct (activeInstalls s !! key) as [install|] eqn:Hact.
  - destruct (manifestObserved w projectName packageName s) eqn:Hobs.
    + eapply poll_done_preserves; eassumption.
    + rewrite (checkComplete_waiting _ _ _ _ install) by assumption.
      eapply poll_waiting_preserves; eassumption.
  - rewrite checkComplete_inactive by assumption.
    apply (delete_timer_preserves _ _ _ Hinv Ht).
    intros k [i Hk] Hc.
    rewrite (is_check_for_key _ _ _ _ _ Hcb Hc) in Hk. congruence.
Qed.

Lemma retire_preserves id t install projectName packageName elapsed s :
  tracker_inv s ->
  timers s !! id = Some t ->
  callback t = RetireBar install projectName packageName elapsed ->
  tracker_inv (retireBar install projectName packageName elapsed
                 (set_timers (delete id) s)).
Proof.
  intros Hinv Ht Hcb.
  destruct (inv_retired _ Hinv _ _ _ _ _ _ Ht Hcb) as [_ Hnot].
  assert (Hinv' : tracker_inv (set_timers (delete id) s)).
  { apply (delete_timer_preserves _ _ _ Hinv Ht).
    intros k _ (pn & pj & Hc & _). congruence. }
  clear Hinv Ht. destruct s as [ai pb mb tm n mp ws cs].
  destruct Hinv' as [Hreg Hdis Hfb Hfi Hft Hfm Hcap Hdone Hown Htick
                       Hpres Hret Hpend].
  unfold retireBar.
  constructor; monitor_cbv; try assumption.
  - intros b bar H. apply lookup_delete_Some in H as [_ H]. eauto.
  - intros k i bar H Hbar. apply lookup_delete_Some in Hbar as [_ Hbar]. eauto.
  - intros b bar H Hn. apply lookup_delete_Some in H as [_ H].
    apply (Hdone _ _ H). exact Hn.
  - intros k i H. rewrite lookup_delete_ne; [eauto|].
    intros Heq. apply Hnot. exists k, i. split; [exact H | congruence].
Qed.

End TrackerSteps.

(* --------------------------------------------------------------------- *)
(** ** ProjectWatchRegistry *)
(* --------------------------------------------------------------------- *)

Section RegistryInvariant.
Import JS ChainResolver Monitor Invariant.

Lemma count_occ_optional {A} (dec : forall x y : A, {x = y} + {x <> y})
    (b : bool) (x y : A) :
  count_occ dec (if b then [x] else []) y
  = if b then (if dec x y then 1 else 0) else 0.
Proof. destruct b; reflexivity. Qed.

Lemma registry_inv_register s s' p (a b : bool) :
  registry_inv s ->
  ~ In p (monitoredProjects s) ->
  monitoredProjects s' = monitoredProjects s ++ [p] ->
  watchers s' = watchers s
                ++ (if a then [WatchDependencyDir p] else [])
                ++ (if b then [WatchManifest p] else []) ->
  registry_inv s'.
Proof.
  intros [Hnd Hdep Hman Hreg] Hnew Hmp Hws.
  assert (Hnone : forall q, q = p ->
            count_occ Watcher_eq_dec (watchers s) (WatchDependencyDir q) = 0 /\
            count_occ Watcher_eq_dec (watchers s) (WatchManifest q) = 0).
  { intros q ->. split; apply count_occ_not_In; intros Hin; apply Hnew, Hreg;
      [left|right]; exact Hin. }
  constructor; rewrite ?Hmp, ?Hws.
  - apply List.NoDup_app; [exact Hnd | repeat constructor; intros [] |].
    intros x Hx [<-|[]]. contradiction.
  - intros q. rewrite !count_occ_app, !count_occ_optional.
    specialize (Hdep q).
    destruct (decide (q = p)) as [->|Hne].
    + destruct (Hnone p eq_refl) as [-> _].
      destruct a, b; repeat destruct (Watcher_eq_dec _ _); try lia;
        discriminate.
    + destruct a, b; repeat destruct (Watcher_eq_dec _ _); try lia;
        congruence.
  - intros q. rewrite !count_occ_app, !count_occ_optional.
    specialize (Hman q).
    destruct (decide (q = p)) as [->|Hne].
    + destruct (Hnone p eq_refl) as [_ ->].
      destruct a, b; repeat destruct (Watcher_eq_dec _ _); try lia;
        discriminate.
    + destruct a, b; repeat destruct (Watcher_eq_dec _ _); try lia;
        congruence.
  - intros q Hq. apply in_or_app.
    assert (Hcase : (In (WatchDependencyDir q) (watchers s) \/
                     In (WatchManifest q) (watchers s)) \/ q = p).
    { destruct Hq as [Hq|Hq]; apply in_app_or in Hq as [Hq|Hq];
        try (left; auto; fail);
        apply in_app_or in Hq as [Hq|Hq];
        destruct a, b; simpl in Hq; intuition congruence. }
    destruct Hcase as [Hold| ->]; [left; apply Hreg; exact Hold|].
    right. left. reflexivity.
Qed.

Lemma registry_inv_initial : registry_inv initial.
Proof.
  constructor; simpl.
  - constructor.
  - intros p. lia.
  - intros p. lia.
  - intros p [[]|[]].
Qed.

End RegistryInvariant.

Section RegistrySteps.
Import JS ChainResolver Monitor Invariant.

Variable path_join : list string -> string.
Variable path_basename : string -> string.
Variable path_dirname : string -> string.

Local Abbreviation watchProject :=
  (Monitor.watchProjectDirectoryWithProgress path_join).
Local Abbreviation monitorDiscovered :=
  (Monitor.monitorDiscovered path_join path_basename path_dirname).
Local Abbreviation batchLoop :=
  (Monitor.batchLoop path_join path_basename path_dirname).
Local Abbreviation monitorAllDiscovered :=
  (Monitor.monitorAllDiscovered path_join path_basename path_dirname).

(** The watches one registration of [p] opens in world [w]. *)
Lemma watchProject_watchers w p s :
  watchers (watchProject w p s) =
  watchers s
  ++ (if existsSync w (path_join [p; "node_modules"])
      then [WatchDependencyDir p] else [])
  ++ (if existsSync w (path_join [p; "package.json"])
      then [WatchManifest p] else []).
Proof.
  destruct s as [ai pb mb tm n mp ws cs].
  unfold Monitor.watchProjectDirectoryWithProgress.
  destruct (existsSync w (path_join [p; "node_modules"]));
    destruct (existsSync w (path_join [p; "package.json"]));
    monitor_cbv; rewrite ?app_nil_r, <- ?app_assoc; reflexivity.
Qed.

(** Registration touches the watch list only. *)
Lemma watchProject_rest w p s :
  watchProject w p s =
  mkMonitor (activeInstalls s) (progressBars s) (multibar s) (timers s)
            (next_id s) (monitoredProjects s)
            (watchers (watchProject w p s)) (console s).
Proof.
  destruct s as [ai pb mb tm n mp ws cs].
  unfold Monitor.watchProjectDirectoryWithProgress.
  destruct (existsSync w (path_join [p; "node_modules"]));
    destruct (existsSync w (path_join [p; "package.json"]));
    reflexivity.
Qed.

Lemma monitorDiscovered_known w s file :
  In (path_dirname file) (monitoredProjects s) ->
  monitorDiscovered w s file = s.
Proof.
  intros H. unfold Monitor.monitorDiscovered.
  rewrite bool_decide_eq_true_2; [reflexivity|].
  apply list_elem_of_In. exact H.
Qed.

Lemma monitorDiscovered_new w s file :
  ~ In (path_dirname file) (monitoredProjects s) ->
  let p := path_dirname file in
  monitorDiscovered w s file =
  mkMonitor (activeInstalls s) (progressBars s) (multibar s) (timers s)
            (next_id s) (monitoredProjects s ++ [p])
            (watchers s
             ++ (if existsSync w (path_join [p; "node_modules"])
                 then [WatchDependencyDir p] else [])
             ++ (if existsSync w (path_join [p; "package.json"])
                 then [WatchManifest p] else []))
            (console s ++ [LineFoundProject (path_basename p)]).
Proof.
  intros H p. unfold Monitor.monitorDiscovered. fold p.
  assert (Hd : bool_decide (p ∈ monitoredProjects s) = false).
  { apply bool_decide_eq_false_2. rewrite list_elem_of_In. exact H. }
  rewrite Hd, watchProject_rest, watchProject_watchers.
  destruct s as [ai pb mb tm n mp ws cs]. monitor_cbv.
  cbv [monitoredProjects] in Hd. rewrite Hd. reflexivity.
Qed.

(** The batch loop visits the files in order, each once. *)
Lemma batchLoop_fold w files :
  forall fuel i s,
    length files - i < fuel ->
    batchLoop fuel w files i s
    = fold_left (monitorDiscovered w) (skipn i files) s.
Proof.
  induction fuel as [|fuel IH]; intros i s Hf; [lia|].
  cbn [Monitor.batchLoop].
  destruct (Nat.ltb_spec i (length files)) as [Hlt|Hge].
  - rewrite IH by (unfold batchSize; lia).
    rewrite <- (firstn_skipn batchSize (skipn i files)) at 2.
    rewrite fold_left_app. f_equal.
    rewrite Nat.add_comm. symmetry. apply skipn_skipn.
  - rewrite (skipn_all2 files) by lia. reflexivity.
Qed.

Lemma monitorAllDiscovered_fold w files s :
  monitorAllDiscovered w files s = fold_left (monitorDiscovered w) files s.
Proof.
  unfold Monitor.monitorAllDiscovered. rewrite batchLoop_fold by lia.
  reflexivity.
Qed.

Lemma registry_inv_discovered w s file :
  registry_inv s -> registry_inv (monitorDiscovered w s file).
Proof.
  intros Hinv.
  destruct (in_dec string_dec (path_dirname file) (monitoredProjects s))
    as [Hin|Hnew].
  - rewrite monitorDiscovered_known by exact Hin. exact Hinv.
  - rewrite (monitorDiscovered_new _ _ _ Hnew).
    eapply (registry_inv_register s _ (path_dirname file)); eauto.
Qed.

Lemma registry_inv_fold w files :
  forall s, registry_inv s ->
            registry_inv (fold_left (monitorDiscovered w) files s).
Proof.
  induction files as [|f files IH]; intros s H; [exact H|].
  apply IH, registry_inv_discovered, H.
Qed.

End RegistrySteps.

(* --------------------------------------------------------------------- *)
(** ** The invariants hold in every state of a run *)
(* --------------------------------------------------------------------- *)

Section Reachable.
Import JS ChainResolver Monitor Invariant.

Variable path_join : list string -> string.
Variable path_basename : string -> string.
Variable path_dirname : string -> string.
Variable platform : string.
Variable APPDATA : option string.
Variable cwd : string.
Variable stackDepth : nat.

Local Abbreviation checkComplete :=
  (Monitor.checkComplete path_join path_basename platform APPDATA).
Local Abbreviation fireTimer :=
  (Monitor.fireTimer path_join path_basename platform APPDATA).
Local Abbreviation monitorDiscovered :=
  (Monitor.monitorDiscovered path_join path_basename path_dirname).
Local Abbreviation monitorAllDiscovered :=
  (Monitor.monitorAllDiscovered path_join path_basename path_dirname).
Local Abbreviation monitorCurrentProject :=
  (Monitor.monitorCurrentProject path_join path_basename cwd).
Local Abbreviation step :=
  (Monitor.step path_join path_basename path_dirname platform APPDATA cwd
                stackDepth).
Local Abbreviation reachable :=
  (Monitor.reachable path_join path_basename path_dirname platform APPDATA cwd
                     stackDepth).

Lemma tracker_inv_frame s s' :
  same_tracker s s' -> tracker_inv s -> tracker_inv s'.
Proof.
  destruct s, s'. intros (Ha & Hb & Hc & Hd & He). monitor_cbv. subst.
  intros [? ? ? ? ? ? ? ? ? ? ? ? ?]. constructor; assumption.
Qed.

Lemma registry_inv_frame s s' :
  same_registry s s' -> registry_inv s -> registry_inv s'.
Proof.
  destruct s, s'. intros (Ha & Hb). monitor_cbv. subst.
  intros [? ? ? ?]. constructor; assumption.
Qed.

Lemma track_same_registry w packageName projectName chain s :
  same_registry s
    (trackInstallationWithProgress w packageName projectName chain s).
Proof.
  destruct (activeInstalls s !! compositeKey projectName packageName) eqn:E.
  - rewrite track_active by eauto. split; reflexivity.
  - rewrite (track_new _ _ _ _ _ E). split; reflexivity.
Qed.

Lemma fireTimer_same_registry w id s : same_registry s (fireTimer w id s).
Proof.
  destruct s as [ai pb mb tm n mp ws cs].
  unfold Monitor.fireTimer, Monitor.progressTick, Monitor.checkComplete,
    retireBar.
  monitor_cbv.
  destruct (tm !! id) as [t|]; [|split; reflexivity].
  destruct (callback t) as [key pn i|key pn pj|i pj pn el].
  - destruct (ai !! key); split; reflexivity.
  - destruct (ai !! key) as [i|]; [|split; reflexivity].
    destruct (Monitor.manifestObserved _ _ _ _ _ _ _ _);
      [|split; reflexivity].
    destruct (progressInterval i); split; reflexivity.
  - split; reflexivity.
Qed.

Lemma monitorDiscovered_same_tracker w s file :
  same_tracker s (monitorDiscovered w s file).
Proof.
  destruct (in_dec string_dec (path_dirname file) (monitoredProjects s))
    as [Hin|Hnew].
  - rewrite monitorDiscovered_known by exact Hin. repeat split.
  - rewrite (monitorDiscovered_new _ _ _ _ _ _ Hnew). repeat split.
Qed.

Lemma same_tracker_trans s1 s2 s3 :
  same_tracker s1 s2 -> same_tracker s2 s3 -> same_tracker s1 s3.
Proof.
  intros (A1 & A2 & A3 & A4 & A5) (B1 & B2 & B3 & B4 & B5).
  unfold same_tracker. rewrite B1, B2, B3, B4, B5. auto.
Qed.

Lemma fold_same_tracker w files :
  forall s, same_tracker s (fold_left (monitorDiscovered w) files s).
Proof.
  induction files as [|f files IH]; intros s; [repeat split|].
  eapply same_tracker_trans; [apply monitorDiscovered_same_tracker|apply IH].
Qed.

Lemma fireTimer_preserves w id s :
  tracker_inv s -> tracker_inv (fireTimer w id s).
Proof.
  intros Hinv. unfold Monitor.fireTimer.
  destruct (timers s !! id) as [t|] eqn:Ht; [|exact Hinv].
  destruct (callback t) as [key pn i|key pn pj|i pj pn el] eqn:Hcb.
  - eapply tick_preserves; eassumption.
  - eapply poll_preserves; eassumption.
  - eapply retire_preserves; eassumption.
Qed.

Lemma tracker_inv_initial : tracker_inv initial.
Proof.
  constructor; cbn; intros;
    repeat match goal with
           | H : _ !! _ = Some _ |- _ =>
               rewrite lookup_empty in H; discriminate H
           end.
  rewrite !lookup_empty. reflexivity.
Qed.

Lemma step_preserves w e s :
  tracker_inv s /\ registry_inv s ->
  tracker_inv (step w e s) /\ registry_inv (step w e s).
Proof.
  intros [Ht Hr].
  destruct e as [dirPath|fs projectPath dirPath|fs dirPath|id|files];
    cbn [Monitor.step].
  - unfold onGlobalAddDir. destruct (negb _); [|split; assumption]. split.
    + apply track_preserves, Ht.
    + eapply registry_inv_frame; [apply track_same_registry | exact Hr].
  - unfold onProjectAddDir. destruct (negb _); [|split; assumption].
    destruct (analyzeDependencyChain _ _ _ _ _); [|split; assumption]. split.
    + apply track_preserves, Ht.
    + eapply registry_inv_frame; [apply track_same_registry | exact Hr].
  - unfold onLocalAddDir. destruct (negb _); [|split; assumption].
    destruct (analyzeDependencyChain _ _ _ _ _); [|split; assumption]. split.
    + apply track_preserves, Ht.
    + eapply registry_inv_frame; [apply track_same_registry | exact Hr].
  - split.
    + apply fireTimer_preserves, Ht.
    + eapply registry_inv_frame; [apply fireTimer_same_registry | exact Hr].
  - rewrite monitorAllDiscovered_fold. split.
    + eapply tracker_inv_frame; [apply fold_same_tracker | exact Ht].
    + apply registry_inv_fold, Hr.
Qed.

Lemma current_project_inv w :
  tracker_inv (monitorCurrentProject w initial) /\
  registry_inv (monitorCurrentProject w initial).
Proof.
  unfold Monitor.monitorCurrentProject.
  destruct (existsSync w "package.json");
    [|split; [apply tracker_inv_initial | apply registry_inv_initial]].
  split.
  - eapply tracker_inv_frame; [|apply tracker_inv_initial].
    rewrite watchProject_rest. repeat split.
  - eapply (registry_inv_register initial _ cwd);
      [apply registry_inv_initial | intros [] | |].
    + rewrite watchProject_rest. reflexivity.
    + rewrite watchProject_watchers. reflexivity.
Qed.

(** Every state of a run satisfies both invariants. *)
Lemma reachable_invariant s :
  reachable s -> tracker_inv s /\ registry_inv s.
Proof.
  induction 1 as [|w|w e s _ IH].
  - split; [apply tracker_inv_initial | apply registry_inv_initial].
  - apply current_project_inv.
  - apply step_preserves, IH.
Qed.

End Reachable.

(* --------------------------------------------------------------------- *)
(** ** How one event changes the tables *)
(* --------------------------------------------------------------------- *)

Section StepEffects.
Import JS ChainResolver Monitor Invariant.

Variable path_join : list string -> string.
Variable path_basename : string -> string.
Variable path_dirname : string -> string.
Variable platform : string.
Variable APPDATA : option string.
Variable cwd : string.
Variable stackDepth : nat.

Local Abbreviation manifestObserved :=
  (Monitor.manifestObserved path_join path_basename platform APPDATA).
Local Abbreviation checkComplete :=
  (Monitor.checkComplete path_join path_basename platform APPDATA).
Local Abbreviation fireTimer :=
  (Monitor.fireTimer path_join path_basename platform APPDATA).
Local Abbreviation step :=
  (Monitor.step path_join path_basename path_dirname platform APPDATA cwd
                stackDepth).
Local Abbreviation reachable :=
  (Monitor.reachable path_join path_basename path_dirname platform APPDATA cwd
                     stackDepth).

Local Abbreviation completes :=
  (Invariant.completes path_join path_basename platform APPDATA).

Lemma fireTimer_check w id t key packageName projectName s :
  timers s !! id = Some t ->
  callback t = CheckComplete key packageName projectName ->
  fireTimer w id s =
  checkComplete w key packageName projectName (set_timers (delete id) s).
Proof. intros Ht Hcb. unfold Monitor.fireTimer. rewrite Ht, Hcb. reflexivity. Qed.

Lemma fireTimer_tick w id t key packageName snapshot s :
  timers s !! id = Some t ->
  callback t = ProgressTick key packageName snapshot ->
  fireTimer w id s = progressTick w id key packageName snapshot s.
Proof. intros Ht Hcb. unfold Monitor.fireTimer. rewrite Ht, Hcb. reflexivity. Qed.

(** A detection leaves the records of other keys alone and never removes
    one. *)
Lemma track_keeps w packageName projectName chain s key install :
  activeInstalls s !! key = Some install ->
  activeInstalls (trackInstallationWithProgress w packageName projectName
                    chain s) !! key = Some install.
Proof.
  intros H.
  destruct (activeInstalls s !! compositeKey projectName packageName) eqn:E.
  - rewrite track_active by eauto. exact H.
  - rewrite (track_new _ _ _ _ _ E). cbn [activeInstalls].
    rewrite lookup_insert_ne; [exact H|]. congruence.
Qed.

Lemma track_checks_keyed w packageName projectName chain s :
  checks_keyed s ->
  checks_keyed (trackInstallationWithProgress w packageName projectName
                  chain s).
Proof.
  intros IH.
  destruct (activeInstalls s !! compositeKey projectName packageName) eqn:E.
  - rewrite track_active by eauto. exact IH.
  - rewrite (track_new _ _ _ _ _ E). intros tid t key pn pj H Hcb.
    cbn [timers] in H.
    apply lookup_insert_Some in H as [[<- <-]|[_ H]].
    + cbn in Hcb. congruence.
    + apply lookup_insert_Some in H as [[<- <-]|[_ H]]; [discriminate|].
      eapply IH; eassumption.
Qed.

Lemma fireTimer_checks_keyed w id s :
  checks_keyed s -> checks_keyed (fireTimer w id s).
Proof.
  intros IH. unfold Monitor.fireTimer.
  destruct (timers s !! id) as [t|] eqn:Ht; [|exact IH].
  destruct (callback t) as [k pn i|k pn pj|i pj pn el] eqn:Hcb.
  - unfold progressTick. destruct s as [ai pb mb tm n mp ws cs].
    unfold checks_keyed in *. monitor_cbv.
    destruct (ai !! k); [exact IH|].
    intros tid t' key pn' pj' H. apply lookup_delete_Some in H as [_ H].
    eapply IH; exact H.
  - pose proof (IH _ _ _ _ _ Ht Hcb) as Hkey.
    destruct (activeInstalls s !! k) as [i|] eqn:Hk.
    + destruct (manifestObserved w pj pn s) eqn:Hobs.
      * rewrite (checkComplete_done _ _ _ _ _ _ _ _ i) by assumption.
        destruct s as [ai pb mb tm n mp ws cs].
        unfold checks_keyed in *. monitor_cbv.
        intros tid t' key pn' pj' H.
        apply lookup_insert_Some in H as [[<- <-]|[_ H]]; [discriminate|].
        destruct (progressInterval i);
          repeat (apply lookup_delete_Some in H as [_ H]);
          eapply IH; exact H.
      * rewrite (checkComplete_waiting _ _ _ _ _ _ _ _ i) by assumption.
        destruct s as [ai pb mb tm n mp ws cs].
        unfold checks_keyed in *. monitor_cbv.
        intros tid t' key pn' pj' H.
        apply lookup_insert_Some in H as [[<- <-]|[_ H]].
        -- cbn. congruence.
        -- apply lookup_delete_Some in H as [_ H]. eapply IH; exact H.
    + rewrite checkComplete_inactive by assumption.
      destruct s as [ai pb mb tm n mp ws cs].
      unfold checks_keyed in *. monitor_cbv.
      intros tid t' key pn' pj' H. apply lookup_delete_Some in H as [_ H].
      eapply IH; exact H.
  - unfold retireBar. destruct s as [ai pb mb tm n mp ws cs].
    unfold checks_keyed in *. monitor_cbv.
    intros tid t' key pn' pj' H. apply lookup_delete_Some in H as [_ H].
    eapply IH; exact H.
Qed.

(** A record disappears only through a successful completion check of
    its key. *)
Lemma step_keeps_or_completes w e s key install :
  activeInstalls s !! key = Some install ->
  activeInstalls (step w e s) !! key = Some install \/
  (completes w e s key /\ activeInstalls (step w e s) !! key = None).
Proof.
  intros H.
  destruct e as [dirPath|fs projectPath dirPath|fs dirPath|id|files];
    cbn [Monitor.step].
  - left. unfold onGlobalAddDir. destruct (negb _); [|exact H].
    apply track_keeps, H.
  - left. unfold onProjectAddDir. destruct (negb _); [|exact H].
    destruct (analyzeDependencyChain _ _ _ _ _); [|exact H].
    apply track_keeps, H.
  - left. unfold onLocalAddDir. destruct (negb _); [|exact H].
    destruct (analyzeDependencyChain _ _ _ _ _); [|exact H].
    apply track_keeps, H.
  - destruct (timers s !! id) as [t|] eqn:Ht;
      [|left; unfold Monitor.fireTimer; rewrite Ht; exact H].
    destruct (callback t) as [k pn i|k pn pj|i pj pn el] eqn:Hcb.
    + left. rewrite (fireTimer_tick _ _ _ _ _ _ _ Ht Hcb).
      unfold progressTick. destruct (activeInstalls s !! k); exact H.
    + rewrite (fireTimer_check _ _ _ _ _ _ _ Ht Hcb).
      destruct (activeInstalls s !! k) as [i|] eqn:Hk.
      * destruct (manifestObserved w pj pn s) eqn:Hobs.
        -- rewrite (checkComplete_done _ _ _ _ _ _ _ _ i) by assumption.
           cbn [activeInstalls set_timers].
           destruct (decide (k = key)) as [->|Hne].
           ++ right. split; [|apply lookup_delete_eq].
              exists id, t, pn, pj, i. repeat split; assumption.
           ++ left. rewrite lookup_delete_ne; [exact H | exact Hne].
        -- left. rewrite (checkComplete_waiting _ _ _ _ _ _ _ _ i)
             by assumption.
           exact H.
      * left. rewrite checkComplete_inactive by assumption. exact H.
    + left. unfold Monitor.fireTimer. rewrite Ht, Hcb. exact H.
  - left. rewrite monitorAllDiscovered_fold.
    destruct (fold_same_tracker path_join path_basename path_dirname w files s)
      as [-> _].
    exact H.
Qed.

(** Completion checks keep the key they were scheduled with. *)
Lemma reachable_checks_keyed s : reachable s -> checks_keyed s.
Proof.
  induction 1 as [|w|w e s _ IH]; unfold checks_keyed in *.
  - intros tid t key pn pj H. cbn in H. rewrite lookup_empty in H.
    discriminate.
  - intros tid t key pn pj H.
    unfold Monitor.monitorCurrentProject in H.
    destruct (existsSync w "package.json");
      [rewrite watchProject_rest in H|]; cbn in H;
      rewrite lookup_empty in H; discriminate.
  - intros tid t key pn pj H Hcb.
    destruct e as [dirPath|fs projectPath dirPath|fs dirPath|id|files];
      cbn [Monitor.step] in H.
    + unfold onGlobalAddDir in H. destruct (negb _); [|eauto].
      eapply track_checks_keyed; eauto.
    + unfold onProjectAddDir in H. destruct (negb _); [|eauto].
      destruct (analyzeDependencyChain _ _ _ _ _); [|eauto].
      eapply track_checks_keyed; eauto.
    + unfold onLocalAddDir in H. destruct (negb _); [|eauto].
      destruct (analyzeDependencyChain _ _ _ _ _); [|eauto].
      eapply track_checks_keyed; eauto.
    + eapply fireTimer_checks_keyed; eauto.
    + rewrite monitorAllDiscovered_fold in H.
      destruct (fold_same_tracker path_join path_basename path_dirname
                  w files s) as (_ & _ & _ & Htm & _).
      rewrite Htm in H. eauto.
Qed.

End StepEffects.

(* --------------------------------------------------------------------- *)
(** ** InstallationTracker: what holds along every run *)
(* --------------------------------------------------------------------- *)

Section TrackerProperties.
Import JS ChainResolver Monitor Invariant.

Variable path_join : list string -> string.
Variable path_basename : string -> string.
Variable path_dirname : string -> string.
Variable platform : string.
Variable APPDATA : option string.
Variable cwd : string.
Variable stackDepth : nat.

Local Abbreviation manifestObserved :=
  (Monitor.manifestObserved path_join path_basename platform APPDATA).
Local Abbreviation checkComplete :=
  (Monitor.checkComplete path_join path_basename platform APPDATA).
Local Abbreviation fireTimer :=
  (Monitor.fireTimer path_join path_basename platform APPDATA).
Local Abbreviation step :=
  (Monitor.step path_join path_basename path_dirname platform APPDATA cwd
                stackDepth).
Local Abbreviation reachable :=
  (Monitor.reachable path_join path_basename path_dirname platform APPDATA cwd
                     stackDepth).


(** *** Progress *)

Lemma num_0_not_100 : num 0 <> num 100.
Proof. discriminate. Qed.

Lemma track_full_bar w packageName projectName chain s b bar :
  multibar (trackInstallationWithProgress w packageName projectName chain s)
    !! b = Some bar ->
  bar_value bar = num 100 ->
  multibar s !! b = Some bar.
Proof.
  intros H Hv.
  destruct (activeInstalls s !! compositeKey projectName packageName) eqn:E.
  - rewrite track_active in H by eauto. exact H.
  - rewrite (track_new _ _ _ _ _ E) in H. cbn [multibar] in H.
    apply lookup_insert_Some in H as [[_ <-]|[_ H]]; [|exact H].
    cbn [bar_value] in Hv. destruct (num_0_not_100 Hv).
Qed.

(** A bar comes to show 100 only through a completion check that finds
    the manifest of the installation the bar belongs to. *)
Lemma full_bar_origin w e s b bar' :
  multibar (step w e s) !! b = Some bar' ->
  bar_value bar' = num 100 ->
  (exists bar, multibar s !! b = Some bar /\ bar_value bar = num 100) \/
  (exists id t key packageName projectName install,
      e = EvTimer id /\ timers s !! id = Some t /\
      callback t = CheckComplete key packageName projectName /\
      activeInstalls s !! key = Some install /\
      progressBar install = b /\
      manifestObserved w projectName packageName s = true).
Proof.
  intros H Hv.
  destruct e as [dirPath|fs projectPath dirPath|fs dirPath|id|files];
    cbn [Monitor.step] in H.
  - left. exists bar'. split; [|exact Hv].
    unfold onGlobalAddDir in H. destruct (negb _); [|exact H].
    eapply track_full_bar; eassumption.
  - left. exists bar'. split; [|exact Hv].
    unfold onProjectAddDir in H. destruct (negb _); [|exact H].
    destruct (analyzeDependencyChain _ _ _ _ _); [|exact H].
    eapply track_full_bar; eassumption.
  - left. exists bar'. split; [|exact Hv].
    unfold onLocalAddDir in H. destruct (negb _); [|exact H].
    destruct (analyzeDependencyChain _ _ _ _ _); [|exact H].
    eapply track_full_bar; eassumption.
  - destruct (timers s !! id) as [t|] eqn:Ht;
      [|left; unfold Monitor.fireTimer in H; rewrite Ht in H; eauto].
    destruct (callback t) as [k pn i|k pn pj|i pj pn el] eqn:Hcb.
    + left. rewrite (fireTimer_tick _ _ _ _ _ _ _ _ _ _ _ Ht Hcb) in H.
      unfold progressTick in H.
      destruct (activeInstalls s !! k); cbn [multibar set_multibar set_timers] in H;
        [|eauto].
      apply lookup_alter_Some in H as [(_ & bar & _ & ->)|[_ H]]; [|eauto].
      cbn [bar_value] in Hv.
      destruct (progressAt_capped (now w - startTime i)
                  (estimateInstallDuration pn)) as [_ Hne].
      contradiction.
    + rewrite (fireTimer_check _ _ _ _ _ _ _ _ _ _ _ Ht Hcb) in H.
      destruct (activeInstalls s !! k) as [i|] eqn:Hk.
      * destruct (manifestObserved w pj pn s) eqn:Hobs.
        -- rewrite (checkComplete_done _ _ _ _ _ _ _ _ i) in H by assumption.
           cbn [multibar set_timers] in H.
           apply lookup_alter_Some in H as [(Hb & _)|[_ H]]; [|eauto].
           right. exists id, t, k, pn, pj, i. repeat split; assumption.
        -- rewrite (checkComplete_waiting _ _ _ _ _ _ _ _ i) in H
             by assumption.
           left. eauto.
      * rewrite checkComplete_inactive in H by assumption. left. eauto.
    + left. unfold Monitor.fireTimer in H. rewrite Ht, Hcb in H.
      unfold retireBar in H. cbn [multibar log set_multibar set_timers] in H.
      apply lookup_delete_Some in H as [_ H]. eauto.
  - left. rewrite monitorAllDiscovered_fold in H.
    destruct (fold_same_tracker path_join path_basename path_dirname
                w files s) as (_ & _ & Hmb & _).
    rewrite Hmb in H. eauto.
Qed.

(** C3.  In every state of a run, the bar of an installation still being
    tracked shows a value that does not exceed 95 and is not 100.  A tick
    sets the bar to [Math.min(95, (elapsed / estimatedDuration) * 100)],
    with [elapsed] the time since detection and [estimatedDuration] the
    estimate for the package name.  The completion check that observes
    the manifest sets the bar to 100, no other event makes a bar show
    100, and a bar whose installation is done shows 100 until it is
    removed.  With an estimate of 2000 ms and 1000 ms elapsed the value
    is 50. *)
Theorem C3_progress_capped_until_done (s : Monitor) :
  reachable s ->
  (forall key install bar,
      activeInstalls s !! key = Some install ->
      multibar s !! progressBar install = Some bar ->
      SFltb (num 95) (bar_value bar) = false /\ bar_value bar <> num 100) /\
  (forall b bar,
      multibar s !! b = Some bar -> ~ in_flight s b ->
      bar_value bar = num 100) /\
  (forall w id t key packageName snapshot,
      timers s !! id = Some t ->
      callback t = ProgressTick key packageName snapshot ->
      exists install,
        activeInstalls s !! key = Some install /\
        bar_value <$> multibar (fireTimer w id s) !! progressBar install
        = Some (Math_min (num 95)
                  (num_mul
                     (num_div (num (now w - startTime install))
                              (num (estimateInstallDuration packageName)))
                     (num 100)))) /\
  (forall w id t key packageName projectName install,
      timers s !! id = Some t ->
      callback t = CheckComplete key packageName projectName ->
      activeInstalls s !! key = Some install ->
      manifestObserved w projectName packageName s = true ->
      bar_value <$> multibar (fireTimer w id s) !! progressBar install
      = Some (num 100)) /\
  (forall w e b bar',
      multibar (step w e s) !! b = Some bar' ->
      bar_value bar' = num 100 ->
      (exists bar, multibar s !! b = Some bar /\ bar_value bar = num 100) \/
      (exists id t key packageName projectName install,
          e = EvTimer id /\ timers s !! id = Some t /\
          callback t = CheckComplete key packageName projectName /\
          activeInstalls s !! key = Some install /\
          progressBar install = b /\
          manifestObserved w projectName packageName s = true)) /\
  Math_min (num 95) (num_mul (num_div (num 1000) (num 2000)) (num 100))
  = num 50.
Proof.
  intros Hreach.
  destruct (reachable_invariant _ _ _ _ _ _ _ _ Hreach) as [Hinv _].
  split; [|split; [|split; [|split; [|split]]]].
  - intros key install bar Hact Hbar. exact (inv_cap _ Hinv _ _ _ Hact Hbar).
  - exact (inv_done _ Hinv).
  - intros w id t key pn snap Ht Hcb.
    destruct (inv_ticks_owned _ Hinv _ _ _ _ _ Ht Hcb)
      as (i & Hi & _ & Hb & Hst).
    destruct (inv_bar_present _ Hinv _ _ Hi) as [bar Hbar].
    exists i. split; [exact Hi|].
    rewrite (fireTimer_tick _ _ _ _ _ _ _ _ _ _ _ Ht Hcb).
    unfold progressTick. rewrite Hi. cbn [multibar set_multibar].
    rewrite Hb, Hst, lookup_alter_eq, Hbar. reflexivity.
  - intros w id t key pn pj install Ht Hcb Hact Hobs.
    destruct (inv_bar_present _ Hinv _ _ Hact) as [bar Hbar].
    rewrite (fireTimer_check _ _ _ _ _ _ _ _ _ _ _ Ht Hcb).
    rewrite (checkComplete_done _ _ _ _ _ _ _ _ install) by assumption.
    cbn [multibar set_timers]. rewrite lookup_alter_eq, Hbar. reflexivity.
  - intros w e b bar'. apply full_bar_origin.
  - reflexivity.
Qed.

End TrackerProperties.

(* --------------------------------------------------------------------- *)
(** ** Global installations *)
(* --------------------------------------------------------------------- *)

Section GlobalStore.
Import JS ChainResolver Monitor Invariant.

Variable path_basename : string -> string.

Local Abbreviation onGlobalAddDir := (Monitor.onGlobalAddDir path_basename).

(** C10.  For an entry of the global store whose name does not start with
    a dot, the watch callback tracks the entry under the project name
    [GLOBAL] with the fixed chain (user-requested, no parent, "Global
    installation"): when the key has no record, the record created
    carries that project name and chain, and every record present
    afterwards was either there before or is that one.  The chain is a
    constant of the callback; the callback takes no file system to read
    a manifest or a lock file from, and its result does not depend on
    which paths exist.  A dot-prefixed entry changes nothing. *)
Theorem C10_global_is_user_requested
    (w : World) (dirPath : string) (s : Monitor) :
  let packageName := path_basename dirPath in
  let key := compositeKey "GLOBAL" packageName in
  let s' := onGlobalAddDir w dirPath s in
  type globalChain = UserRequested /\
  parent globalChain = None /\
  reason globalChain = "Global installation" /\
  (JSString.startsWith packageName "." = true -> s' = s) /\
  (JSString.startsWith packageName "." = false ->
   s' = trackInstallationWithProgress w packageName "GLOBAL" globalChain s /\
   (activeInstalls s !! key = None ->
    exists bar interval,
      activeInstalls s' !! key
      = Some (mkInstall (now w) "GLOBAL" globalChain bar interval)) /\
   (forall k install,
       activeInstalls s' !! k = Some install ->
       activeInstalls s !! k = Some install \/
       (k = key /\ projectName install = "GLOBAL" /\
        chainInfo install = globalChain /\
        type (chainInfo install) <> Dependency /\
        type (chainInfo install) <> Unknown))) /\
  (forall exists', onGlobalAddDir (mkWorld (now w) exists') dirPath s = s').
Proof.
  cbv zeta. unfold Monitor.onGlobalAddDir.
  split; [reflexivity|]. split; [reflexivity|]. split; [reflexivity|].
  split; [intros ->; reflexivity|]. split.
  - intros ->. cbn [negb]. split; [reflexivity|].
    destruct (activeInstalls s !! compositeKey "GLOBAL" (path_basename dirPath))
      as [i|] eqn:E.
    + rewrite track_active by eauto. split; [discriminate|]. intros; left.
      assumption.
    + rewrite (track_new _ _ _ _ _ E). cbn [activeInstalls]. split.
      * intros _. eexists _, _. apply lookup_insert_eq.
      * intros k install H.
        apply lookup_insert_Some in H as [[<- <-]|[_ H]]; [right|left; exact H].
        cbn. repeat split; discriminate.
  - intros exists'. destruct (negb _); [|reflexivity].
    destruct (activeInstalls s !! compositeKey "GLOBAL" (path_basename dirPath))
      as [i|] eqn:E.
    + rewrite !track_active by eauto. reflexivity.
    + rewrite !(track_new _ _ _ _ _ E). reflexivity.
Qed.

End GlobalStore.

(* --------------------------------------------------------------------- *)
(** ** Registration of projects *)
(* --------------------------------------------------------------------- *)

Section RegistryProperties.
Import JS ChainResolver Monitor Invariant.

Variable path_join : list string -> string.
Variable path_basename : string -> string.
Variable path_dirname : string -> string.
Variable platform : string.
Variable APPDATA : option string.
Variable cwd : string.
Variable stackDepth : nat.

Local Abbreviation monitorDiscovered :=
  (Monitor.monitorDiscovered path_join path_basename path_dirname).
Local Abbreviation monitorAllDiscovered :=
  (Monitor.monitorAllDiscovered path_join path_basename path_dirname).
Local Abbreviation reachable :=
  (Monitor.reachable path_join path_basename path_dirname platform APPDATA cwd
                     stackDepth).

Lemma count_occ_registered (l : list string) p :
  List.NoDup l -> In p l -> count_occ string_dec l p = 1.
Proof.
  intros Hnd Hin. apply (proj1 (NoDup_count_occ string_dec l)) with (x := p) in Hnd.
  apply (count_occ_In string_dec) in Hin. lia.
Qed.

(** A discovery pass leaves a registered path registered, with the
    watches it had. *)
Lemma pass_keeps_registered w files p :
  forall s,
    In p (monitoredProjects s) ->
    let s' := fold_left (monitorDiscovered w) files s in
    In p (monitoredProjects s') /\
    (forall x, (x = WatchDependencyDir p \/ x = WatchManifest p) ->
               count_occ Watcher_eq_dec (watchers s') x
               = count_occ Watcher_eq_dec (watchers s) x).
Proof.
  induction files as [|f files IH]; intros s Hin; [split; [exact Hin|reflexivity]|].
  cbn [fold_left].
  destruct (in_dec string_dec (path_dirname f) (monitoredProjects s))
    as [Hk|Hnew].
  - rewrite monitorDiscovered_known by exact Hk. apply IH, Hin.
  - set (s1 := monitorDiscovered w s f).
    assert (Hin1 : In p (monitoredProjects s1)).
    { subst s1. rewrite (monitorDiscovered_new _ _ _ _ _ _ Hnew).
      cbn [monitoredProjects]. apply in_or_app. left. exact Hin. }
    destruct (IH s1 Hin1) as [Hin' Hcount]. split; [exact Hin'|].
    intros x Hx. rewrite (Hcount x Hx). subst s1.
    rewrite (monitorDiscovered_new _ _ _ _ _ _ Hnew). cbn [watchers].
    rewrite !count_occ_app, !count_occ_optional.
    assert (Hne : path_dirname f <> p) by congruence.
    destruct (existsSync w _), (existsSync w _);
      repeat destruct (Watcher_eq_dec _ _); try lia;
      destruct Hx; congruence.
Qed.

(** C8, as the code has it.  In every state of a run no two entries of
    the monitored-project set share a path, and a path has at most one
    dependency-directory watch and at most one manifest watch.  A file
    whose project path is in the set is skipped; registering a new path
    twice leaves exactly one entry for it and the watches of the first
    registration: one on the dependency directory if it existed then,
    one on the manifest if it existed then.  A whole discovery pass
    leaves the entry and the watches of a registered path as they
    were. *)
Theorem C8_registration_idempotent (s : Monitor) :
  reachable s ->
  List.NoDup (monitoredProjects s) /\
  (forall p,
      count_occ Watcher_eq_dec (watchers s) (WatchDependencyDir p) <= 1 /\
      count_occ Watcher_eq_dec (watchers s) (WatchManifest p) <= 1) /\
  (forall w file,
      In (path_dirname file) (monitoredProjects s) ->
      monitorDiscovered w s file = s) /\
  (forall w1 w2 file,
      monitorDiscovered w2 (monitorDiscovered w1 s file) file
      = monitorDiscovered w1 s file) /\
  (forall w1 w2 file,
      let p := path_dirname file in
      ~ In p (monitoredProjects s) ->
      let s2 := monitorDiscovered w2 (monitorDiscovered w1 s file) file in
      count_occ string_dec (monitoredProjects s2) p = 1 /\
      count_occ Watcher_eq_dec (watchers s2) (WatchDependencyDir p)
      = (if existsSync w1 (path_join [p; "node_modules"]) then 1 else 0) /\
      count_occ Watcher_eq_dec (watchers s2) (WatchManifest p)
      = (if existsSync w1 (path_join [p; "package.json"]) then 1 else 0)) /\
  (forall w files p,
      In p (monitoredProjects s) ->
      let s' := monitorAllDiscovered w files s in
      count_occ string_dec (monitoredProjects s') p = 1 /\
      count_occ Watcher_eq_dec (watchers s') (WatchDependencyDir p)
      = count_occ Watcher_eq_dec (watchers s) (WatchDependencyDir p) /\
      count_occ Watcher_eq_dec (watchers s') (WatchManifest p)
      = count_occ Watcher_eq_dec (watchers s) (WatchManifest p)).
Proof.
  intros Hreach.
  destruct (reachable_invariant _ _ _ _ _ _ _ _ Hreach) as [_ Hinv].
  assert (Htwice : forall w1 w2 file,
             monitorDiscovered w2 (monitorDiscovered w1 s file) file
             = monitorDiscovered w1 s file).
  { intros w1 w2 file. apply monitorDiscovered_known.
    destruct (in_dec string_dec (path_dirname file) (monitoredProjects s))
      as [Hk|Hnew].
    - rewrite monitorDiscovered_known by exact Hk. exact Hk.
    - rewrite (monitorDiscovered_new _ _ _ _ _ _ Hnew).
      cbn [monitoredProjects]. apply in_or_app. right. left. reflexivity. }
  split; [apply Hinv|]. split; [split; apply Hinv|].
  split; [intros; apply monitorDiscovered_known; assumption|].
  split; [exact Htwice|]. split.
  - intros w1 w2 file p Hnew. cbv zeta. rewrite Htwice.
    pose proof (registry_inv_discovered path_join path_basename path_dirname
                  w1 s file Hinv) as Hinv1.
    rewrite (monitorDiscovered_new _ _ _ _ _ _ Hnew) in Hinv1 |- *.
    fold p in Hinv1 |- *. cbn [monitoredProjects watchers].
    split; [|split].
    + apply count_occ_registered; [apply Hinv1|].
      apply in_or_app. right. left. reflexivity.
    + rewrite !count_occ_app, !count_occ_optional.
      rewrite (proj1 (count_occ_not_In Watcher_eq_dec _ _)).
      * destruct (existsSync w1 _), (existsSync w1 _);
          repeat destruct (Watcher_eq_dec _ _); try reflexivity;
          congruence.
      * intros Hin. apply Hnew, (inv_watched_registered _ Hinv). left.
        exact Hin.
    + rewrite !count_occ_app, !count_occ_optional.
      rewrite (proj1 (count_occ_not_In Watcher_eq_dec _ _)).
      * destruct (existsSync w1 _), (existsSync w1 _);
          repeat destruct (Watcher_eq_dec _ _); try reflexivity;
          congruence.
      * intros Hin. apply Hnew, (inv_watched_registered _ Hinv). right.
        exact Hin.
  - intros w files p Hin. cbv zeta. rewrite monitorAllDiscovered_fold.
    destruct (pass_keeps_registered w files p s Hin) as [Hin' Hcount].
    split; [|split].
    + apply count_occ_registered; [|exact Hin'].
      apply (registry_inv_fold path_join path_basename path_dirname
               w files s Hinv).
    + apply Hcount. left. reflexivity.
    + apply Hcount. right. reflexivity.
Qed.

End RegistryProperties.

(* --------------------------------------------------------------------- *)
(** ** Worked runs *)
(* --------------------------------------------------------------------- *)

Section WorkedRuns.
Import JS ChainResolver Monitor Invariant Spec.

Local Abbreviation run_step :=
  (Monitor.step fixture_join fixture_basename fixture_dirname
                "linux" None "/home/u/app" fixture_stack).
Local Abbreviation run_fire :=
  (Monitor.fireTimer fixture_join fixture_basename "linux" None).
Local Abbreviation run_register :=
  (Monitor.monitorDiscovered fixture_join fixture_basename fixture_dirname).


(** One second after [chalk] (estimate 2000 ms) was detected, a tick sets
    its bar to 50, which is within the cap. *)
Lemma C3_half_way_witness :
  let s1 := run_step (fixture_world 0 [])
              (EvGlobalAddDir "/usr/local/lib/node_modules/chalk") initial in
  exists install,
    activeInstalls s1 !! "GLOBAL:chalk" = Some install /\
    bar_value <$> multibar (run_fire (fixture_world 1000 []) 1 s1)
                    !! progressBar install
    = Some (Math_min (num 95)
              (num_mul (num_div (num (1000 - startTime install))
                                (num (estimateInstallDuration "chalk")))
                       (num 100))) /\
    Math_min (num 95) (num_mul (num_div (num 1000) (num 2000)) (num 100))
    = num 50.
Proof.
  cbv zeta.
  destruct (C3_progress_capped_until_done fixture_join fixture_basename
              fixture_dirname "linux" None "/home/u/app" fixture_stack _
              (reachable_step _ _ _ _ _ _ _ (fixture_world 0 [])
                 (EvGlobalAddDir "/usr/local/lib/node_modules/chalk") initial
                 (reachable_initial _ _ _ _ _ _ _)))
    as (_ & _ & H & _ & _ & H50).
  destruct (H (fixture_world 1000 []) 1
              (mkTimer 200 true
                 (ProgressTick "GLOBAL:chalk" "chalk"
                    (mkInstall 0 "GLOBAL" globalChain 0 None)))
              "GLOBAL:chalk" "chalk"
              (mkInstall 0 "GLOBAL" globalChain 0 None) eq_refl eq_refl)
    as (install & Hact & Hbar).
  exists install. split; [exact Hact|]. split; [exact Hbar | exact H50].
Defined.

Lemma C10_global_witness :
  exists bar interval,
    activeInstalls
      (Monitor.onGlobalAddDir fixture_basename (fixture_world 7 [])
         "/usr/local/lib/node_modules/typescript" initial)
      !! "GLOBAL:typescript"
    = Some (mkInstall 7 "GLOBAL" globalChain bar interval).
Proof.
  destruct (C10_global_is_user_requested fixture_basename
              (fixture_world 7 [])
              "/usr/local/lib/node_modules/typescript" initial)
    as (_ & _ & _ & _ & H & _).
  destruct (H eq_refl) as (_ & Hnew & _).
  exact (Hnew eq_refl).
Defined.

(** Registering [/home/u/app] twice, from its manifest path. *)
Lemma C8_register_twice_witness :
  let w := fixture_world 0 ["/home/u/app/package.json";
                            "/home/u/app/node_modules"] in
  let s2 := run_register w (run_register w initial "/home/u/app/package.json")
              "/home/u/app/package.json" in
  count_occ string_dec (monitoredProjects s2) "/home/u/app" = 1 /\
  count_occ Watcher_eq_dec (watchers s2) (WatchDependencyDir "/home/u/app") = 1 /\
  count_occ Watcher_eq_dec (watchers s2) (WatchManifest "/home/u/app") = 1.
Proof.
  cbv zeta.
  destruct (C8_registration_idempotent fixture_join fixture_basename
              fixture_dirname "linux" None "/home/u/app" fixture_stack initial
              (reachable_initial _ _ _ _ _ _ _))
    as (_ & _ & _ & _ & H & _).
  apply (H (fixture_world 0 ["/home/u/app/package.json";
                             "/home/u/app/node_modules"])
           (fixture_world 0 ["/home/u/app/package.json";
                             "/home/u/app/node_modules"])
           "/home/u/app/package.json").
  intros [].
Defined.

(** C8 as stated fails: "exactly one watch subscription" is not what two
    registrations leave.  A project that has no dependency directory when
    it is first registered gets no watch on it, and keeps none when the
    directory appears later, since the path is then skipped; a project
    that has one gets two watches, one on the dependency directory and
    one on the manifest. *)
Lemma C8_not_exactly_one_subscription :
  let file := "/home/u/app/package.json" in
  let bare := fixture_world 0 ["/home/u/app/package.json"] in
  let full := fixture_world 0 ["/home/u/app/package.json";
                               "/home/u/app/node_modules"] in
  let dependency_watches s :=
    count_occ Watcher_eq_dec (watchers s)
              (WatchDependencyDir "/home/u/app") in
  watchers (run_register bare (run_register bare initial file) file)
  = [WatchManifest "/home/u/app"] /\
  dependency_watches (run_register bare (run_register bare initial file) file)
  <> 1 /\
  dependency_watches (run_register full (run_register bare initial file) file)
  <> 1 /\
  watchers (run_register full (run_register full initial file) file)
  = [WatchDependencyDir "/home/u/app"; WatchManifest "/home/u/app"] /\
  length (watchers (run_register full (run_register full initial file) file))
  <> 1.
Proof.
  cbv zeta. split; [reflexivity|]. split; [discriminate|].
  split; [discriminate|]. split; [reflexivity | discriminate].
Qed.

End WorkedRuns.

(* ===================================================================== *)
(** * Further properties of the resolver *)
(* ===================================================================== *)

Section ManifestTest.
Import JS ChainResolver Spec.

Variable path_join : list string -> string.
Variable stackDepth : nat.

Local Abbreviation resolve := (analyzeDependencyChain path_join stackDepth).
Local Abbreviation manifestPath p := (path_join [p; "package.json"]).
Local Abbreviation lockPath p := (path_join [p; "package-lock.json"]).

(** Whatever the resolver answers has one of four shapes. *)
Lemma resolve_cases fs name proj :
  resolve fs name proj = Ret userRequested \/
  (exists info, resolve fs name proj = Ret (dependencyOf info)) \/
  resolve fs name proj = Ret unknownSource \/
  resolve fs name proj = Ret couldNotAnalyze.
Proof.
  rewrite resolve_of_try. unfold analyzeDependencyChain_try.
  destruct (readJson fs (manifestPath proj)) as [manifest|e];
    rewrite ?bind_Ret, ?bind_Throw; [|auto].
  destruct (manifestMatch manifest name) as [[|]|e];
    rewrite ?bind_Ret, ?bind_Throw; [auto| |auto].
  destruct (pathExists fs (lockPath proj)); [|auto].
  destruct (readJson fs (lockPath proj)) as [lock|e];
    rewrite ?bind_Ret, ?bind_Throw; [|auto].
  destruct (findPackageInLock stackDepth name lock None) as [[info|]|e];
    rewrite ?bind_Ret, ?bind_Throw; eauto.
Qed.

(** When the manifest test fails, the answer is not UserRequested. *)
Lemma resolve_not_direct fs name proj manifest info :
  readJson fs (manifestPath proj) = Ret manifest ->
  manifestMatch manifest name = Ret false ->
  resolve fs name proj = Ret info ->
  type info <> UserRequested.
Proof.
  intros Hm Hd. rewrite resolve_of_try. unfold analyzeDependencyChain_try.
  rewrite Hm, bind_Ret, Hd, bind_Ret.
  destruct (pathExists fs (lockPath proj)); [|intros [= <-]; discriminate].
  destruct (readJson fs (lockPath proj)) as [lock|e];
    rewrite ?bind_Ret, ?bind_Throw; [|intros [= <-]; discriminate].
  destruct (findPackageInLock stackDepth name lock None) as [[i|]|e];
    rewrite ?bind_Ret, ?bind_Throw; intros [= <-]; discriminate.
Qed.

(** X1.  For a package the manifest declares (in [dependencies] or in
    [devDependencies], the development declaration overriding the other
    when both are present) the answer depends on the declared value
    alone: a truthy value gives UserRequested with no parent, whatever
    the lock file holds and even when the lock file cannot be read; a
    falsy value (the empty string, [0], [false], [null]) never gives
    UserRequested. *)
Theorem X1_declared_value_decides
    (fs : FileSystem) (name proj : string) (manifest : json)
    (deps devs : option json) (v : json) :
  readJson fs (manifestPath proj) = Ret manifest ->
  get_field manifest F_dependencies = Ret deps ->
  get_field manifest F_devDependencies = Ret devs ->
  distinct_keys deps -> distinct_keys devs ->
  declared_version deps devs name = Some v ->
  (truthy v = true ->
   resolve fs name proj
   = Ret (mkChainInfo UserRequested None "Direct dependency in package.json")) /\
  (truthy v = false ->
   forall info, resolve fs name proj = Ret info -> type info <> UserRequested).
Proof.
  intros Hm Hdeps Hdevs Hn1 Hn2 Hv. split.
  - intros Ht.
    exact (declared_truthy_is_user_requested path_join stackDepth _ _ _ _ _ _ _
             Hm Hdeps Hdevs Hn1 Hn2 Hv Ht).
  - intros Ht info. apply (resolve_not_direct _ _ _ _ _ Hm).
    rewrite (manifestMatch_spec _ _ _ _ Hdeps Hdevs Hn1 Hn2), Hv, Ht.
    reflexivity.
Qed.

(** X2.  A name the manifest does not declare passes the manifest test
    exactly when it names a property every object inherits
    ([constructor], [toString], [valueOf], ...): the resolver then
    answers UserRequested without looking at the lock file.  Any other
    undeclared name fails the test, and its answer is not
    UserRequested. *)
Theorem X2_inherited_name_is_user_requested
    (fs : FileSystem) (name proj : string) (manifest : json)
    (deps devs : option json) :
  readJson fs (manifestPath proj) = Ret manifest ->
  get_field manifest F_dependencies = Ret deps ->
  get_field manifest F_devDependencies = Ret devs ->
  distinct_keys deps -> distinct_keys devs ->
  declared_version deps devs name = None ->
  (In name object_prototype_names ->
   resolve fs name proj = Ret userRequested) /\
  (~ In name object_prototype_names ->
   manifestMatch manifest name = Ret false /\
   forall info, resolve fs name proj = Ret info -> type info <> UserRequested).
Proof.
  intros Hm Hdeps Hdevs Hn1 Hn2 Hv.
  pose proof (manifestMatch_spec _ _ _ name Hdeps Hdevs Hn1 Hn2) as Hspec.
  rewrite Hv in Hspec. split.
  - intros Hin. apply (resolve_direct _ _ _ _ _ _ Hm). rewrite Hspec.
    f_equal. apply existsb_exists. exists name.
    split; [exact Hin | apply String.eqb_refl].
  - intros Hnot.
    assert (Hf : manifestMatch manifest name = Ret false).
    { rewrite Hspec. f_equal.
      destruct (existsb (String.eqb name) object_prototype_names) eqn:E;
        [|reflexivity].
      apply existsb_exists in E as (x & Hx & Heq).
      apply String.eqb_eq in Heq. subst x. contradiction. }
    split; [exact Hf|].
    intros info. apply (resolve_not_direct _ _ _ _ _ Hm Hf).
Qed.

(** X6.  The resolver returns one of four answers: UserRequested with no
    parent and the reason "Direct dependency in package.json"; Dependency
    with the parent found in the lock file and the reason "Dependency of"
    followed by that parent, or by "unknown package" when there is none;
    or Unknown with no parent and one of the two reasons.  A parent is
    given only with Dependency. *)
Theorem X6_answer_shapes (fs : FileSystem) (name proj : string) :
  exists info,
    resolve fs name proj = Ret info /\
    match type info with
    | UserRequested =>
        info = mkChainInfo UserRequested None "Direct dependency in package.json"
    | Dependency =>
        exists found,
          info = mkChainInfo Dependency found
                   ("Dependency of " ++
                    match found with
                    | Some p => if JSString.nonempty p then p
                                else "unknown package"
                    | None => "unknown package"
                    end)
    | Unknown =>
        info = mkChainInfo Unknown None "Installation source unknown" \/
        info = mkChainInfo Unknown None "Could not analyze dependency chain"
    end /\
    (parent info <> None -> type info = Dependency).
Proof.
  destruct (resolve_cases fs name proj) as [H|[[[found] H]|[H|H]]];
    rewrite H; eexists; (split; [reflexivity|]); cbn.
  - split; [reflexivity | congruence].
  - split; [exists found; reflexivity | reflexivity].
  - split; [left; reflexivity | congruence].
  - split; [right; reflexivity | congruence].
Qed.

End ManifestTest.

Section LockSearch.
Import JS JSString ChainResolver Spec Shape.

Variable path_join : list string -> string.
Variable stackDepth : nat.

Local Abbreviation resolve := (analyzeDependencyChain path_join stackDepth).
Local Abbreviation manifestPath p := (path_join [p; "package.json"]).
Local Abbreviation lockPath p := (path_join [p; "package-lock.json"]).

(** *** Where the search can throw *)

Lemma get_field_not_null v f :
  v <> JNull -> exists o, get_field v f = Ret o.
Proof. destruct v; intros H; try contradiction; eexists; reflexivity. Qed.

Lemma null_free_not_null v : null_free v = true -> v <> JNull.
Proof. intros H ->. discriminate. Qed.

Lemma null_free_assoc k ps v :
  forallb (fun kv => null_free (snd kv)) ps = true ->
  assoc k ps = Some v -> null_free v = true.
Proof.
  intros Hall Hk. apply assoc_In in Hk.
  rewrite forallb_forall in Hall. exact (Hall _ Hk).
Qed.

Lemma null_free_field v f sub :
  null_free v = true -> get_field v f = Ret (Some sub) ->
  null_free sub = true.
Proof.
  destruct v; try discriminate. cbn [null_free get_field].
  intros Hall [= Hk]. eapply null_free_assoc; eassumption.
Qed.

Lemma null_free_entries d k v :
  null_free d = true -> In (k, v) (entries d) -> null_free v = true.
Proof.
  destruct d as [| | |str|xs|ps]; cbn [entries]; intros Hd Hin;
    try destruct Hin.
  - apply (In_imap_value _ (fun c => JStr (String c EmptyString))) in Hin
      as (c & _ & ->); reflexivity.
  - apply (In_imap_value _ (fun x => x)) in Hin as (x & Hx & ->);
      [|reflexivity].
    cbn [null_free] in Hd. rewrite forallb_forall in Hd. exact (Hd _ Hx).
  - cbn [null_free] in Hd. rewrite forallb_forall in Hd. exact (Hd _ Hin).
Qed.

Lemma scanDependencies_null_free recur name parent es :
  (forall k v, In (k, v) es -> null_free v = true) ->
  (forall depName d, null_free d = true -> recur depName d <> Throw TypeError) ->
  scanDependencies recur name parent es <> Throw TypeError.
Proof.
  intros Hes Hrec.
  induction es as [|[depName depInfo] rest IH]; [discriminate|].
  cbn [scanDependencies].
  destruct (String.eqb depName name); [discriminate|].
  assert (Hinfo : null_free depInfo = true) by (apply (Hes depName); left; reflexivity).
  assert (IH' := IH (fun k v Hin => Hes k v (or_intror Hin))).
  destruct (get_field depInfo F_dependencies) as [[d|]|e] eqn:Hg;
    rewrite ?bind_Ret, ?bind_Throw; cbn [truthy_opt default from_option id];
    [|exact IH'|].
  - destruct (truthy d); [|exact IH'].
    pose proof (Hrec depName d (null_free_field _ _ _ Hinfo Hg)) as Hr.
    destruct (recur depName d) as [[r|]|e'];
      rewrite ?bind_Ret, ?bind_Throw; [discriminate | exact IH' |].
    intros [= ->]. contradiction.
  - destruct (get_field_not_null depInfo F_dependencies
                (null_free_not_null _ Hinfo)) as [o Ho].
    congruence.
Qed.

Lemma findPackageInLock_rec_null_free name :
  forall fuel lock parent,
    null_free lock = true ->
    findPackageInLock_rec fuel name lock parent <> Throw TypeError.
Proof.
  induction fuel as [|fuel IH]; intros lock parent Hnf; [discriminate|].
  rewrite findPackageInLock_rec_unfold.
  destruct (get_field_not_null lock F_packages (null_free_not_null _ Hnf))
    as [packages ->].
  rewrite bind_Ret.
  destruct (if truthy_opt packages then _ else None); [discriminate|].
  destruct (get_field lock F_dependencies) as [[deps|]|e] eqn:Hdeps;
    rewrite ?bind_Ret, ?bind_Throw; cbn [truthy_opt from_option];
    [|discriminate|].
  - destruct (truthy deps); [|discriminate].
    pose proof (null_free_field _ _ _ Hnf Hdeps) as Hd.
    apply scanDependencies_null_free.
    + intros k v. apply null_free_entries, Hd.
    + intros depName d Hnd. apply IH. cbn. rewrite Hnd. reflexivity.
  - destruct (get_field_not_null lock F_dependencies
                (null_free_not_null _ Hnf)) as [o Ho].
    congruence.
Qed.

(** On a document without [null] that the stack has room for, the search
    returns. *)
Lemma findPackageInLock_null_free name lock parent :
  null_free lock = true ->
  json_depth lock <= 2 * stackDepth + 2 ->
  exists r, findPackageInLock stackDepth name lock parent = Ret r.
Proof.
  intros Hnf Hdepth.
  pose proof (findPackageInLock_rec_null_free name (S stackDepth) lock parent
                Hnf) as Htype.
  pose proof (findPackageInLock_no_overflow stackDepth name lock parent Hdepth)
    as Hrange.
  pose proof (findPackageInLock_rec_no_read name (S stackDepth) lock parent)
    as Hread.
  unfold findPackageInLock in *.
  destruct (findPackageInLock_rec (S stackDepth) name lock parent)
    as [r|[| |]]; [eauto | contradiction | contradiction | contradiction].
Qed.

Lemma manifestMatch_throws manifest name e :
  manifestMatch manifest name = Throw e -> manifest = JNull.
Proof.
  destruct manifest; try discriminate. reflexivity.
Qed.

(** X3.  The answer "Could not analyze dependency chain" has only these
    causes: the manifest cannot be read or parses to [null]; or the lock
    file exists and cannot be read, or contains a [null] somewhere, or
    nests deeper than the call stack has room for (a nested call is made
    two levels of the document further down, so a document of at most
    [2 * stackDepth + 2] levels is within reach).  On a lock document
    without [null] and within that depth the search returns.  A deeper
    document without [null] can exhaust the stack: the search then throws
    a RangeError and the resolver gives this answer. *)
Theorem X3_could_not_analyze_causes (fs : FileSystem) (name proj : string) :
  (resolve fs name proj = Ret couldNotAnalyze ->
   (exists e, readJson fs (manifestPath proj) = Throw e) \/
   readJson fs (manifestPath proj) = Ret JNull \/
   (pathExists fs (lockPath proj) = true /\
    ((exists e, readJson fs (lockPath proj) = Throw e) \/
     (exists lock, readJson fs (lockPath proj) = Ret lock /\
                   (null_free lock = false \/
                    2 * stackDepth + 2 < json_depth lock))))) /\
  (forall lock parent,
      null_free lock = true ->
      json_depth lock <= 2 * stackDepth + 2 ->
      exists found,
        findPackageInLock stackDepth name lock parent = Ret found) /\
  (exists lock,
      null_free lock = true /\
      findPackageInLock stackDepth "b" lock None = Throw RangeError /\
      forall fs' proj',
        readJson fs' (manifestPath proj') = Ret (JObj []) ->
        pathExists fs' (lockPath proj') = true ->
        readJson fs' (lockPath proj') = Ret lock ->
        resolve fs' "b" proj' = Ret couldNotAnalyze).
Proof.
  split; [|split; [intros lock parent; apply findPackageInLock_null_free|]].
  - rewrite resolve_of_try. unfold analyzeDependencyChain_try.
    destruct (readJson fs (manifestPath proj)) as [manifest|e];
      rewrite ?bind_Ret, ?bind_Throw; [|eauto].
    destruct (manifestMatch manifest name) as [[|]|e] eqn:Hd;
      rewrite ?bind_Ret, ?bind_Throw.
    + discriminate.
    + destruct (pathExists fs (lockPath proj)); [|discriminate].
      destruct (readJson fs (lockPath proj)) as [lock|e];
        rewrite ?bind_Ret, ?bind_Throw; [|eauto 7].
      destruct (null_free lock) eqn:Hnf; [|eauto 9].
      destruct (Nat.le_gt_cases (json_depth lock) (2 * stackDepth + 2))
        as [Hdepth|Hdepth]; [|eauto 9].
      destruct (findPackageInLock_null_free name lock None Hnf Hdepth)
        as [[info|] ->];
        rewrite bind_Ret; discriminate.
    + apply manifestMatch_throws in Hd. subst manifest. auto.
  - exists (JObj [("dependencies",
                   JObj (encode_forest [("a", deep_tree stackDepth)]))]).
    split; [cbn; rewrite null_free_deep_tree; reflexivity|].
    split; [apply deep_tree_overflow|].
    intros fs' proj' Hm He Hl.
    rewrite (resolve_via_lock path_join stackDepth fs' "b" proj' _ _
               Hm eq_refl He Hl).
    rewrite deep_tree_overflow. reflexivity.
Qed.

(** *** The flat table *)

Lemma take_drop n (s : string) : (take n s ++ drop n s)%string = s.
Proof.
  revert s. induction n as [|n IH]; intros [|c s]; try reflexivity.
  simpl. rewrite append_cons, IH. reflexivity.
Qed.

Lemma endsWith_elim s suf :
  endsWith s suf = true -> exists pre, s = (pre ++ suf)%string.
Proof.
  unfold endsWith. destruct (_ <=? _)%nat; [|discriminate].
  intros H. apply String.eqb_eq in H.
  exists (take (String.length s - String.length suf) s).
  pose proof (take_drop (String.length s - String.length suf) s) as E.
  rewrite H in E. symmetry. exact E.
Qed.

Lemma endsWith_includes s a b :
  endsWith s (a ++ b) = true -> includes s a = true.
Proof.
  intros H. apply endsWith_elim in H as [pre ->].
  apply includes_spec. exists pre, b. reflexivity.
Qed.

Lemma scanPackages_skip name parent before rest :
  Forall (fun kv => endsWith (fst kv) ("/node_modules/" ++ name) = false)
         before ->
  scanPackages name parent (before ++ rest) = scanPackages name parent rest.
Proof.
  induction 1 as [|[k v] before Hk _ IH]; [reflexivity|].
  cbn [app scanPackages]. cbn [fst] in Hk. rewrite Hk. exact IH.
Qed.

(** X4.  Keys of the flat table that do not contain [/node_modules/]
    (such as [node_modules/react] or [node_modules/@babel/core], the keys
    of packages installed at the top of the dependency directory) match
    no package name: on a lock file that has a [packages] table of such
    keys and no [dependencies] tree the search finds nothing, and a
    package that the manifest does not list is answered Unknown,
    "Installation source unknown". *)
Theorem X4_top_level_keys_match_nothing
    (name : string) (parent : option string) (table : list (string * json)) :
  (forall key v, In (key, v) table ->
                 includes key "/node_modules/" = false) ->
  scanPackages name parent table = None /\
  findPackageInLock stackDepth name (JObj [("packages", JObj table)]) parent
  = Ret None /\
  (forall fs proj manifest,
      readJson fs (manifestPath proj) = Ret manifest ->
      manifestMatch manifest name = Ret false ->
      pathExists fs (lockPath proj) = true ->
      readJson fs (lockPath proj) = Ret (JObj [("packages", JObj table)]) ->
      resolve fs name proj = Ret unknownSource).
Proof.
  intros Hkeys.
  assert (Hscan : forall p, scanPackages name p table = None).
  { intros p. rewrite <- (app_nil_r table).
    rewrite scanPackages_skip; [reflexivity|].
    apply Forall_forall. intros [k v] Hin. rewrite list_elem_of_In in Hin.
    cbn [fst].
    destruct (endsWith k ("/node_modules/" ++ name)) eqn:E; [|reflexivity].
    apply endsWith_includes in E. rewrite (Hkeys _ _ Hin) in E.
    discriminate. }
  assert (Hfind : forall p,
             findPackageInLock stackDepth name
               (JObj [("packages", JObj table)]) p
             = Ret None).
  { intros p. unfold findPackageInLock.
    rewrite findPackageInLock_rec_unfold.
    cbn [get_field field_name assoc String.eqb Ascii.eqb Bool.eqb].
    rewrite bind_Ret. cbn [truthy_opt truthy from_option entries].
    rewrite Hscan. reflexivity. }
  split; [apply Hscan|]. split; [apply Hfind|].
  intros fs proj manifest Hm Hd He Hl.
  rewrite (resolve_via_lock _ _ _ _ _ _ _ Hm Hd He Hl), Hfind. reflexivity.
Qed.

(** X5.  In the flat table the first key, in file order, that ends with
    [/node_modules/<name>] decides, and whatever follows it in the table
    or stands beside the table in the lock file (a [dependencies] tree,
    say) is not looked at.  When that suffix text does not occur earlier
    in the key, the parent is the last path segment of what precedes the
    suffix: for a parent directory [node_modules/@babel/core] it is
    [core], the scope being dropped. *)
Theorem X5_flat_parent_of_first_match
    (name : string) (parent0 : option string)
    (before rest others : list (string * json))
    (q seg : string) (v : json) :
  let suffix := ("/node_modules/" ++ name)%string in
  let key := ((q ++ "/" ++ seg) ++ suffix)%string in
  Forall (fun kv => endsWith (fst kv) suffix = false) before ->
  includes seg "/" = false ->
  nonempty seg = true ->
  indexOf key suffix = Some (String.length (q ++ "/" ++ seg)) ->
  scanPackages name parent0 (before ++ (key, v) :: rest)
  = Some (mkPackageInfo (Some seg)) /\
  findPackageInLock stackDepth name
    (JObj (("packages", JObj (before ++ (key, v) :: rest)) :: others)) parent0
  = Ret (Some (mkPackageInfo (Some seg))).
Proof.
  cbv zeta. intros Hbefore Hseg Hne Hidx.
  assert (Hscan : scanPackages name parent0
                    (before
                     ++ (((q ++ "/" ++ seg) ++ "/node_modules/" ++ name)%string, v)
                     :: rest)
                  = Some (mkPackageInfo (Some seg))).
  { rewrite (scanPackages_skip _ _ _ _ Hbefore).
    apply scanPackages_preceding_segment; assumption. }
  split; [exact Hscan|].
  unfold findPackageInLock. rewrite findPackageInLock_rec_unfold.
  cbn [get_field field_name assoc String.eqb Ascii.eqb Bool.eqb].
  rewrite bind_Ret. cbn [truthy_opt truthy from_option entries].
  rewrite Hscan. reflexivity.
Qed.

End LockSearch.

Section ResolverRuns.
Import JS JSString ChainResolver Spec Shape.

Local Ltac distinct :=
  unfold distinct_keys; cbn; repeat constructor; cbn; intuition discriminate.

(** [foo] is declared with a range, [bar] with the empty string. *)
Lemma X1_declared_value_witness :
  let manifest :=
    JObj [("dependencies", JObj [("foo", JStr "^1.0.0")]);
          ("devDependencies", JObj [("bar", JStr "")])] in
  let fs := fixture_fs [("proj/package.json", Ret manifest)] in
  analyzeDependencyChain fixture_join fixture_stack fs "foo" "proj"
  = Ret (mkChainInfo UserRequested None "Direct dependency in package.json") /\
  (forall info,
      analyzeDependencyChain fixture_join fixture_stack fs "bar" "proj"
      = Ret info ->
      type info <> UserRequested).
Proof.
  cbv zeta. split.
  - apply (proj1 (X1_declared_value_decides fixture_join fixture_stack
                    (fixture_fs
                       [("proj/package.json",
                         Ret (JObj [("dependencies", JObj [("foo", JStr "^1.0.0")]);
                                    ("devDependencies", JObj [("bar", JStr "")])]))])
                    "foo" "proj" _ _ _ (JStr "^1.0.0")
                    eq_refl eq_refl eq_refl
                    ltac:(distinct) ltac:(distinct) eq_refl)).
    reflexivity.
  - apply (proj2 (X1_declared_value_decides fixture_join fixture_stack
                    (fixture_fs
                       [("proj/package.json",
                         Ret (JObj [("dependencies", JObj [("foo", JStr "^1.0.0")]);
                                    ("devDependencies", JObj [("bar", JStr "")])]))])
                    "bar" "proj" _ _ _ (JStr "")
                    eq_refl eq_refl eq_refl
                    ltac:(distinct) ltac:(distinct) eq_refl)).
    reflexivity.
Defined.

(** An empty manifest: [constructor] passes the test, [left-pad] does
    not. *)
Lemma X2_inherited_name_witness :
  let fs := fixture_fs [("proj/package.json", Ret (JObj []))] in
  analyzeDependencyChain fixture_join fixture_stack fs "constructor" "proj"
  = Ret userRequested /\
  manifestMatch (JObj []) "left-pad" = Ret false.
Proof.
  cbv zeta. split.
  - apply (proj1 (X2_inherited_name_is_user_requested fixture_join fixture_stack
                    (fixture_fs [("proj/package.json", Ret (JObj []))])
                    "constructor" "proj" (JObj []) None None
                    eq_refl eq_refl eq_refl
                    ltac:(distinct) ltac:(distinct) eq_refl)).
    left. reflexivity.
  - apply (proj2 (X2_inherited_name_is_user_requested fixture_join fixture_stack
                    (fixture_fs [("proj/package.json", Ret (JObj []))])
                    "left-pad" "proj" (JObj []) None None
                    eq_refl eq_refl eq_refl
                    ltac:(distinct) ltac:(distinct) eq_refl)).
    cbn. intuition discriminate.
Defined.

(** A lock file whose tree has a [null] entry ahead of the package. *)
Lemma X3_could_not_analyze_witness :
  let lock := JObj [("dependencies", JObj [("a", JNull); ("b", JObj [])])] in
  let fs := fixture_fs [("proj/package.json", Ret (JObj []));
                        ("proj/package-lock.json", Ret lock)] in
  analyzeDependencyChain fixture_join fixture_stack fs "b" "proj"
  = Ret couldNotAnalyze /\
  ((exists e, readJson fs "proj/package.json" = Throw e) \/
   readJson fs "proj/package.json" = Ret JNull \/
   (pathExists fs "proj/package-lock.json" = true /\
    ((exists e, readJson fs "proj/package-lock.json" = Throw e) \/
     (exists l, readJson fs "proj/package-lock.json" = Ret l /\
                (null_free l = false \/
                 2 * fixture_stack + 2 < json_depth l))))).
Proof.
  cbv zeta. split; [reflexivity|].
  apply (proj1 (X3_could_not_analyze_causes fixture_join fixture_stack
                  (fixture_fs
                     [("proj/package.json", Ret (JObj []));
                      ("proj/package-lock.json",
                       Ret (JObj [("dependencies",
                                   JObj [("a", JNull); ("b", JObj [])])]))])
                  "b" "proj")).
  reflexivity.
Defined.

(** The table of a project with [react] and [@babel/core] installed at
    the top level. *)
Lemma X4_top_level_keys_witness :
  let table := [("", JObj []); ("node_modules/react", JObj []);
                ("node_modules/@babel/core", JObj [])] in
  findPackageInLock fixture_stack "react" (JObj [("packages", JObj table)])
    None
  = Ret None.
Proof.
  cbv zeta.
  refine (proj1 (proj2 (X4_top_level_keys_match_nothing fixture_join
                          fixture_stack "react" None
                          [("", JObj []); ("node_modules/react", JObj []);
                           ("node_modules/@babel/core", JObj [])] _))).
  intros key v [H|[H|[H|[]]]]; injection H as <- <-; reflexivity.
Defined.

(** [semver] installed under [@babel/core]: the parent is [core]. *)
Lemma X5_flat_parent_witness :
  findPackageInLock fixture_stack "semver"
    (JObj [("packages",
            JObj [("node_modules/@babel/core", JObj []);
                  ("node_modules/@babel/core/node_modules/semver", JObj [])]);
           ("dependencies", JNull)])
    None
  = Ret (Some (mkPackageInfo (Some "core"))).
Proof.
  apply (proj2 (X5_flat_parent_of_first_match fixture_stack "semver" None
                  [("node_modules/@babel/core", JObj [])] []
                  [("dependencies", JNull)]
                  "node_modules/@babel" "core" (JObj [])
                  ltac:(repeat constructor) eq_refl eq_refl eq_refl)).
Defined.

End ResolverRuns.

(* ===================================================================== *)
(** * The table of dependency chains *)
(* ===================================================================== *)

Section ChainsTable.
Import JS ChainResolver Spec DependencyChains.

(** *** The merged declarations *)

Lemma set_prop_keys k v ps x :
  In x (map fst (set_prop k v ps)) <-> x = k \/ In x (map fst ps).
Proof.
  induction ps as [|[k0 v0] ps IH]; cbn [set_prop map fst In].
  - intuition congruence.
  - destruct (String.eqb_spec k0 k) as [->|Hne]; cbn [map fst In].
    + intuition congruence.
    + rewrite IH. intuition congruence.
Qed.

Lemma set_prop_nodup k v ps :
  List.NoDup (map fst ps) -> List.NoDup (map fst (set_prop k v ps)).
Proof.
  induction ps as [|[k0 v0] ps IH]; cbn [set_prop map fst]; intros H.
  - repeat constructor. intros [].
  - inversion H as [|? ? Hnotin Hnd]; subst.
    destruct (String.eqb_spec k0 k) as [->|Hne]; cbn [map fst].
    + constructor; assumption.
    + constructor; [|apply IH, Hnd].
      rewrite set_prop_keys. intros [->|Hin]; contradiction.
Qed.

Lemma spread_nodup acc o :
  List.NoDup (map fst acc) -> List.NoDup (map fst (spread acc o)).
Proof.
  destruct o as [v|]; [|trivial]. cbn [spread].
  generalize (entries v). intros es. revert acc.
  induction es as [|[k x] es IH]; intros acc H; [exact H|].
  cbn [fold_left]. apply IH, set_prop_nodup, H.
Qed.

(** The merged object has no key twice. *)
Lemma allDeps_nodup packageJson all :
  allDeps packageJson = Ret all -> List.NoDup (map fst all).
Proof.
  unfold allDeps.
  destruct (get_field packageJson F_dependencies) as [deps|e];
    rewrite ?bind_Ret, ?bind_Throw; [|discriminate].
  destruct (get_field packageJson F_devDependencies) as [devs|e];
    rewrite ?bind_Ret, ?bind_Throw; [|discriminate].
  intros [= <-]. apply spread_nodup, spread_nodup. constructor.
Qed.

Lemma allDeps_assoc packageJson deps devs name :
  get_field packageJson F_dependencies = Ret deps ->
  get_field packageJson F_devDependencies = Ret devs ->
  distinct_keys deps -> distinct_keys devs ->
  exists all, allDeps packageJson = Ret all /\
              assoc name all = declared_version deps devs name.
Proof.
  intros Hdeps Hdevs Hn1 Hn2. unfold allDeps.
  rewrite Hdeps, bind_Ret, Hdevs, bind_Ret. eexists. split; [reflexivity|].
  rewrite (assoc_spread _ _ _ Hn2), (assoc_spread _ _ _ Hn1).
  unfold declared_version.
  destruct (own_entry devs name); [reflexivity|].
  destruct (own_entry deps name); reflexivity.
Qed.

(** *** The loop *)

Lemma recordAll_lookup all :
  forall chains name,
    List.NoDup (map fst all) ->
    recordAll all chains !! name
    = match assoc name all with
      | Some v => Some (directEntry v)
      | None => chains !! name
      end.
Proof.
  unfold recordAll.
  induction all as [|[k v] all IH]; intros chains name Hnd; [reflexivity|].
  inversion Hnd as [|? ? Hnotin Hnd']; subst.
  cbn [fold_left fst snd assoc map] in *. rewrite (IH _ _ Hnd').
  destruct (String.eqb_spec k name) as [->|Hne].
  - rewrite (assoc_absent _ _ Hnotin). apply lookup_insert_eq.
  - destruct (assoc name all); [reflexivity|].
    apply lookup_insert_ne, Hne.
Qed.

Lemma recordAll_twice all chains :
  List.NoDup (map fst all) ->
  recordAll all (recordAll all chains) = recordAll all chains.
Proof.
  intros Hnd. apply map_eq. intros name.
  rewrite !(recordAll_lookup _ _ _ Hnd).
  destruct (assoc name all); reflexivity.
Qed.

Lemma analyze_try_cases fs chains :
  analyzeDependencyChains fs chains = chains \/
  exists packageJson all,
    pathExists fs "package.json" = true /\
    readJson fs "package.json" = Ret packageJson /\
    allDeps packageJson = Ret all /\
    analyzeDependencyChains fs chains = recordAll all chains.
Proof.
  unfold analyzeDependencyChains, analyzeDependencyChains_try.
  destruct (pathExists fs "package.json"); cbn [negb]; [|left; reflexivity].
  destruct (readJson fs "package.json") as [packageJson|e];
    rewrite ?bind_Ret, ?bind_Throw; [|left; reflexivity].
  destruct (allDeps packageJson) as [all|e] eqn:Hall;
    rewrite ?bind_Ret, ?bind_Throw; [|left; reflexivity].
  right. exists packageJson, all. repeat split; first [exact Hall | reflexivity].
Qed.

Lemma analyze_lookup fs chains packageJson deps devs name :
  pathExists fs "package.json" = true ->
  readJson fs "package.json" = Ret packageJson ->
  get_field packageJson F_dependencies = Ret deps ->
  get_field packageJson F_devDependencies = Ret devs ->
  distinct_keys deps -> distinct_keys devs ->
  analyzeDependencyChains fs chains !! name
  = match declared_version deps devs name with
    | Some version => Some (directEntry version)
    | None => chains !! name
    end.
Proof.
  intros He Hr Hdeps Hdevs Hn1 Hn2.
  destruct (allDeps_assoc _ _ _ name Hdeps Hdevs Hn1 Hn2) as (all & Hall & Ha).
  unfold analyzeDependencyChains, analyzeDependencyChains_try.
  rewrite He. cbn [negb]. rewrite Hr, bind_Ret, Hall, bind_Ret.
  unfold mret, outcome_ret.
  rewrite (recordAll_lookup _ _ _ (allDeps_nodup _ _ Hall)), Ha.
  reflexivity.
Qed.

(** X7.  After [analyzeDependencyChains] has read the manifest of the
    current directory, the table holds, for every declared package, an
    entry of type UserRequested with no parent, the declared version (the
    development declaration overriding the other one) and the reason
    "Direct dependency in package.json", whatever the version is; every
    other name keeps the entry it had, so that packages no longer
    declared stay in the table. *)
Theorem X7_chains_after_analysis
    (fs : FileSystem) (chains : gmap string ChainEntry)
    (packageJson : json) (deps devs : option json) (name : string) :
  pathExists fs "package.json" = true ->
  readJson fs "package.json" = Ret packageJson ->
  get_field packageJson F_dependencies = Ret deps ->
  get_field packageJson F_devDependencies = Ret devs ->
  distinct_keys deps -> distinct_keys devs ->
  analyzeDependencyChains fs chains !! name
  = match declared_version deps devs name with
    | Some version =>
        Some (mkChainEntry UserRequested None version
                "Direct dependency in package.json")
    | None => chains !! name
    end.
Proof.
  intros He Hr Hdeps Hdevs Hn1 Hn2.
  exact (analyze_lookup fs chains packageJson deps devs name
           He Hr Hdeps Hdevs Hn1 Hn2).
Qed.

(** X8.  [analyzeDependencyChains] never removes an entry, and it leaves
    the table exactly as it was when there is no manifest in the current
    directory, when the manifest cannot be read, and when it parses to
    [null].  Running it again on the same files changes nothing. *)
Theorem X8_chains_errors_ignored
    (fs : FileSystem) (chains : gmap string ChainEntry) :
  (forall name entry,
      chains !! name = Some entry ->
      is_Some (analyzeDependencyChains fs chains !! name)) /\
  (pathExists fs "package.json" = false ->
   analyzeDependencyChains fs chains = chains) /\
  (forall e, readJson fs "package.json" = Throw e ->
             analyzeDependencyChains fs chains = chains) /\
  (readJson fs "package.json" = Ret JNull ->
   analyzeDependencyChains fs chains = chains) /\
  analyzeDependencyChains fs (analyzeDependencyChains fs chains)
  = analyzeDependencyChains fs chains.
Proof.
  split; [|split; [|split; [|split]]].
  - intros name entry H.
    destruct (analyze_try_cases fs chains)
      as [->|(pj & all & _ & _ & Hall & ->)]; [eauto|].
    rewrite (recordAll_lookup _ _ _ (allDeps_nodup _ _ Hall)).
    destruct (assoc name all); eauto.
  - intros H. unfold analyzeDependencyChains, analyzeDependencyChains_try.
    rewrite H. reflexivity.
  - intros e H. unfold analyzeDependencyChains, analyzeDependencyChains_try.
    rewrite H. destruct (pathExists fs "package.json"); reflexivity.
  - intros H. unfold analyzeDependencyChains, analyzeDependencyChains_try.
    rewrite H. destruct (pathExists fs "package.json"); reflexivity.
  - destruct (analyze_try_cases fs chains)
      as [H|(pj & all & He & Hr & Hall & ->)]; [rewrite H, H; reflexivity|].
    unfold analyzeDependencyChains at 1, analyzeDependencyChains_try.
    rewrite He. cbn [negb]. rewrite Hr, bind_Ret, Hall, bind_Ret.
    unfold mret, outcome_ret.
    apply recordAll_twice, (allDeps_nodup _ _ Hall).
Qed.

End ChainsTable.

Section ChainsAndResolver.
Import JS ChainResolver Spec DependencyChains.

Variable path_join : list string -> string.
Variable stackDepth : nat.

(** X9.  The table and the resolver read the same declarations but do not
    test them alike.  When both read the same manifest, every declared
    package has a UserRequested entry in the table; the resolver answers
    UserRequested for it exactly when its declared version is truthy,
    and then with the same parent and reason as the entry. *)
Theorem X9_table_and_resolver
    (fs : FileSystem) (chains : gmap string ChainEntry)
    (proj name : string) (packageJson : json)
    (deps devs : option json) (version : json) :
  pathExists fs "package.json" = true ->
  readJson fs "package.json" = Ret packageJson ->
  readJson fs (path_join [proj; "package.json"]) = Ret packageJson ->
  get_field packageJson F_dependencies = Ret deps ->
  get_field packageJson F_devDependencies = Ret devs ->
  distinct_keys deps -> distinct_keys devs ->
  declared_version deps devs name = Some version ->
  exists entry,
    analyzeDependencyChains fs chains !! name = Some entry /\
    entry_type entry = UserRequested /\
    entry_version entry = version /\
    (analyzeDependencyChain path_join stackDepth fs name proj
     = Ret (mkChainInfo (entry_type entry) (entry_parent entry)
                        (entry_reason entry))
     <-> truthy version = true).
Proof.
  intros He Hr Hr' Hdeps Hdevs Hn1 Hn2 Hv.
  exists (directEntry version).
  split; [|split; [reflexivity|split; [reflexivity|]]].
  - rewrite (analyze_lookup fs chains packageJson deps devs name
               He Hr Hdeps Hdevs Hn1 Hn2), Hv.
    reflexivity.
  - cbn [directEntry entry_type entry_parent entry_reason]. split.
    + intros H. destruct (truthy version) eqn:Ht; [reflexivity|].
      exfalso.
      assert (Hf : manifestMatch packageJson name = Ret false).
      { rewrite (manifestMatch_spec _ _ _ _ Hdeps Hdevs Hn1 Hn2), Hv, Ht.
        reflexivity. }
      exact (resolve_not_direct path_join stackDepth _ _ _ _ _ Hr' Hf H
               eq_refl).
    + intros Ht.
      exact (declared_truthy_is_user_requested path_join stackDepth
               _ _ _ _ _ _ _ Hr' Hdeps Hdevs Hn1 Hn2 Hv Ht).
Qed.

End ChainsAndResolver.

Section ChainsRuns.
Import JS ChainResolver Spec DependencyChains.

Local Ltac distinct :=
  unfold distinct_keys; cbn; repeat constructor; cbn; intuition discriminate.

(** [foo] is declared twice, the development declaration being the empty
    string; [gone] was declared when the table was last filled. *)
Lemma X7_chains_witness :
  let manifest :=
    JObj [("dependencies", JObj [("foo", JStr "^1.0.0")]);
          ("devDependencies", JObj [("foo", JStr "")])] in
  let fs := fixture_fs [("package.json", Ret manifest)] in
  let before : gmap string ChainEntry :=
    {["gone" := directEntry (JStr "2.0.0")]} in
  analyzeDependencyChains fs before !! "foo"
  = Some (mkChainEntry UserRequested None (JStr "")
            "Direct dependency in package.json") /\
  analyzeDependencyChains fs before !! "gone" = before !! "gone".
Proof.
  cbv zeta. split.
  - apply (X7_chains_after_analysis
             (fixture_fs
                [("package.json",
                  Ret (JObj [("dependencies", JObj [("foo", JStr "^1.0.0")]);
                             ("devDependencies", JObj [("foo", JStr "")])]))])
             {["gone" := directEntry (JStr "2.0.0")]}
             _ _ _ "foo" eq_refl eq_refl eq_refl eq_refl
             ltac:(distinct) ltac:(distinct)).
  - apply (X7_chains_after_analysis
             (fixture_fs
                [("package.json",
                  Ret (JObj [("dependencies", JObj [("foo", JStr "^1.0.0")]);
                             ("devDependencies", JObj [("foo", JStr "")])]))])
             {["gone" := directEntry (JStr "2.0.0")]}
             _ _ _ "gone" eq_refl eq_refl eq_refl eq_refl
             ltac:(distinct) ltac:(distinct)).
Defined.

(** No manifest in the current directory: the table is left alone. *)
Lemma X8_chains_witness :
  let before : gmap string ChainEntry :=
    {["gone" := directEntry (JStr "2.0.0")]} in
  analyzeDependencyChains (fixture_fs []) before = before.
Proof.
  cbv zeta.
  apply (proj1 (proj2 (X8_chains_errors_ignored (fixture_fs [])
                         {["gone" := directEntry (JStr "2.0.0")]}))).
  reflexivity.
Defined.

(** [foo] is declared with the empty string: it is in the table, and the
    resolver does not answer UserRequested for it. *)
Lemma X9_table_and_resolver_witness :
  let manifest := JObj [("dependencies", JObj [("foo", JStr "")])] in
  let fs := fixture_fs [("package.json", Ret manifest);
                        ("./package.json", Ret manifest)] in
  exists entry,
    analyzeDependencyChains fs ∅ !! "foo" = Some entry /\
    entry_type entry = UserRequested /\
    entry_version entry = JStr "" /\
    (analyzeDependencyChain fixture_join fixture_stack fs "foo" "."
     = Ret (mkChainInfo (entry_type entry) (entry_parent entry)
                        (entry_reason entry))
     <-> truthy (JStr "") = true).
Proof.
  cbv zeta.
  apply (X9_table_and_resolver fixture_join fixture_stack
           (fixture_fs
              [("package.json", Ret (JObj [("dependencies", JObj [("foo", JStr "")])]));
               ("./package.json", Ret (JObj [("dependencies", JObj [("foo", JStr "")])]))])
           ∅ "." "foo" _ _ _ (JStr "")
           eq_refl eq_refl eq_refl eq_refl eq_refl
           ltac:(distinct) ltac:(distinct) eq_refl).
Defined.

End ChainsRuns.

(* ===================================================================== *)
(** * Timers and bars over the life of an installation *)
(* ===================================================================== *)

Section LifecycleSteps.
Import JS ChainResolver Monitor Invariant Lifecycle.

Variable path_join : list string -> string.
Variable path_basename : string -> string.
Variable path_dirname : string -> string.
Variable platform : string.
Variable APPDATA : option string.
Variable cwd : string.
Variable stackDepth : nat.

Local Abbreviation manifestObserved :=
  (Monitor.manifestObserved path_join path_basename platform APPDATA).
Local Abbreviation checkComplete :=
  (Monitor.checkComplete path_join path_basename platform APPDATA).
Local Abbreviation fireTimer :=
  (Monitor.fireTimer path_join path_basename platform APPDATA).
Local Abbreviation monitorDiscovered :=
  (Monitor.monitorDiscovered path_join path_basename path_dirname).
Local Abbreviation monitorAllDiscovered :=
  (Monitor.monitorAllDiscovered path_join path_basename path_dirname).
Local Abbreviation monitorCurrentProject :=
  (Monitor.monitorCurrentProject path_join path_basename cwd).
Local Abbreviation step :=
  (Monitor.step path_join path_basename path_dirname platform APPDATA cwd
                stackDepth).
Local Abbreviation reachable :=
  (Monitor.reachable path_join path_basename path_dirname platform APPDATA cwd
                     stackDepth).

Lemma lifecycle_inv_frame s s' :
  same_tracker s s' -> lifecycle_inv s -> lifecycle_inv s'.
Proof.
  destruct s, s'. intros (Ha & Hb & Hc & Hd & He). monitor_cbv. subst.
  intros [? ?]. constructor; assumption.
Qed.

Lemma lifecycle_inv_initial : lifecycle_inv initial.
Proof.
  constructor; cbn; intros;
    repeat match goal with
           | H : _ !! _ = Some _ |- _ =>
               rewrite lookup_empty in H; discriminate H
           end.
Qed.

Lemma track_lifecycle w packageName projectName chain s :
  tracker_inv s -> lifecycle_inv s ->
  lifecycle_inv (trackInstallationWithProgress w packageName projectName chain s).
Proof.
  intros Hinv Hlife.
  destruct (activeInstalls s !! compositeKey projectName packageName) eqn:E.
  { rewrite track_active; [exact Hlife | eauto]. }
  rewrite (track_new _ _ _ _ _ E). cbv zeta.
  set (key := compositeKey projectName packageName) in *.
  destruct s as [ai pb mb tm n mp ws cs].
  destruct Hlife as [Hint Hret].
  pose proof (inv_fresh_timers _ Hinv) as Hft.
  pose proof (inv_fresh_multibar _ Hinv) as Hfm.
  monitor_cbv. constructor; monitor_cbv.
  - intros k i H.
    apply lookup_insert_Some in H as [[<- <-]|[Hne H]].
    + eexists (S n), _, _. split; [reflexivity|].
      rewrite lookup_insert_ne by lia. apply lookup_insert_eq.
    + destruct (Hint _ _ H) as (tid & pn & snap & Hi & Ht).
      exists tid, pn, snap. split; [exact Hi|].
      pose proof (Hft _ _ Ht) as Hlt.
      rewrite !lookup_insert_ne by lia. exact Ht.
  - intros b bar H Hnot.
    apply lookup_insert_Some in H as [[<- <-]|[Hne H]].
    + exfalso. apply Hnot. eexists key, _.
      split; [apply lookup_insert_eq | reflexivity].
    + destruct (Hret b bar H) as (tid & i & pj & pn & el & Ht & Hb).
      * intros (k & i & Hk & Hb). apply Hnot. exists k, i.
        split; [|exact Hb].
        rewrite lookup_insert_ne; [exact Hk|]. intros <-. congruence.
      * exists tid, i, pj, pn, el. split; [|exact Hb].
        pose proof (Hft _ _ Ht) as Hlt.
        rewrite !lookup_insert_ne by lia. exact Ht.
Qed.

Lemma tick_lifecycle w id t key packageName snapshot s :
  tracker_inv s -> lifecycle_inv s ->
  timers s !! id = Some t ->
  callback t = ProgressTick key packageName snapshot ->
  lifecycle_inv (progressTick w id key packageName snapshot s).
Proof.
  intros Hinv Hlife Ht Hcb.
  destruct (inv_ticks_owned _ Hinv _ _ _ _ _ Ht Hcb) as (i & Hi & _ & Hb & _).
  unfold progressTick. rewrite Hi.
  destruct s as [ai pb mb tm n mp ws cs]. destruct Hlife as [Hint Hret].
  constructor; monitor_cbv; [exact Hint|].
  intros b bar H Hnot.
  apply lookup_alter_Some in H as [(<- & _)|[_ H]].
  - exfalso. apply Hnot. exists key, i. split; [exact Hi | congruence].
  - exact (Hret _ _ H Hnot).
Qed.

(** Deleting a timer that is neither a tick nor a removal. *)
Lemma delete_check_lifecycle id t key packageName projectName s :
  lifecycle_inv s ->
  timers s !! id = Some t ->
  callback t = CheckComplete key packageName projectName ->
  lifecycle_inv (set_timers (delete id) s).
Proof.
  intros Hlife Ht Hcb.
  destruct s as [ai pb mb tm n mp ws cs]. destruct Hlife as [Hint Hret].
  constructor; monitor_cbv.
  - intros k i H. destruct (Hint _ _ H) as (tid & pn & snap & Hi & Ht').
    exists tid, pn, snap. split; [exact Hi|].
    rewrite lookup_delete_ne; [exact Ht'|].
    intros <-. rewrite Ht in Ht'. injection Ht' as ->. discriminate Hcb.
  - intros b bar H Hnot.
    destruct (Hret _ _ H Hnot) as (tid & i & pj & pn & el & Ht' & Hb).
    exists tid, i, pj, pn, el. split; [|exact Hb].
    rewrite lookup_delete_ne; [exact Ht'|].
    intros <-. rewrite Ht in Ht'. injection Ht' as ->. discriminate Hcb.
Qed.

Lemma schedule_lifecycle t s :
  (forall id t', timers s !! id = Some t' -> id < next_id s) ->
  lifecycle_inv s -> lifecycle_inv (schedule t s).
Proof.
  intros Hft Hlife.
  destruct s as [ai pb mb tm n mp ws cs]. destruct Hlife as [Hint Hret].
  monitor_cbv. constructor; monitor_cbv.
  - intros k i H. destruct (Hint _ _ H) as (tid & pn & snap & Hi & Ht').
    exists tid, pn, snap. split; [exact Hi|].
    pose proof (Hft _ _ Ht') as Hlt.
    rewrite lookup_insert_ne by lia. exact Ht'.
  - intros b bar H Hnot.
    destruct (Hret _ _ H Hnot) as (tid & i & pj & pn & el & Ht' & Hb).
    exists tid, i, pj, pn, el. split; [|exact Hb].
    pose proof (Hft _ _ Ht') as Hlt.
    rewrite lookup_insert_ne by lia. exact Ht'.
Qed.

Lemma poll_done_lifecycle w id t key packageName projectName install s :
  tracker_inv s -> lifecycle_inv s ->
  timers s !! id = Some t ->
  callback t = CheckComplete key packageName projectName ->
  activeInstalls s !! key = Some install ->
  manifestObserved w projectName packageName s = true ->
  lifecycle_inv (checkComplete w key packageName projectName
                   (set_timers (delete id) s)).
Proof.
  intros Hinv Hlife Ht Hcb Hact Hobs.
  rewrite (checkComplete_done _ _ _ _ _ _ _ _ install) by assumption.
  pose proof (inv_fresh_timers _ Hinv) as Hft.
  pose proof (fun tid t' => inv_interval_is_tick _ Hinv key install tid t' Hact)
    as Htick.
  destruct s as [ai pb mb tm0 n mp ws cs]. destruct Hlife as [Hint Hret].
  monitor_cbv.
  set (tm := match progressInterval install with
             | Some tid => delete tid (delete id tm0)
             | None => delete id tm0
             end).
  assert (Hkeep : forall tid t', tm0 !! tid = Some t' -> tid <> id ->
             progressInterval install <> Some tid -> tm !! tid = Some t').
  { intros tid t' H Hne Hni. subst tm.
    destruct (progressInterval install) as [ti|].
    - rewrite lookup_delete_ne by congruence.
      rewrite lookup_delete_ne by congruence. exact H.
    - rewrite lookup_delete_ne by congruence. exact H. }
  clearbody tm.
  constructor; monitor_cbv.
  - intros k i H. apply lookup_delete_Some in H as [Hne H].
    destruct (Hint _ _ H) as (tid & pn & snap & Hi & Ht').
    exists tid, pn, snap. split; [exact Hi|].
    pose proof (Hft _ _ Ht') as Hlt.
    rewrite lookup_insert_ne by lia. apply Hkeep; [exact Ht'| |].
    + intros ->. rewrite Ht in Ht'. injection Ht' as ->. discriminate Hcb.
    + intros Hi'. destruct (Htick _ _ Hi' Ht') as (pn' & sn' & Htk).
      cbn [callback] in Htk. congruence.
  - intros b bar H Hnot.
    destruct (decide (b = progressBar install)) as [->|Hneb].
    + eexists n, install, _, _, _. split; [apply lookup_insert_eq|reflexivity].
    + rewrite lookup_alter_ne in H by congruence.
      destruct (Hret b bar H) as (tid & i & pj & pn & el & Ht' & Hb).
      * intros (k & i & Hk & Hb). apply Hnot. exists k, i.
        split; [|exact Hb].
        rewrite lookup_delete_ne; [exact Hk|].
        intros <-. rewrite Hact in Hk. injection Hk as <-. congruence.
      * exists tid, i, pj, pn, el. split; [|exact Hb].
        pose proof (Hft _ _ Ht') as Hlt.
        rewrite lookup_insert_ne by lia. apply Hkeep; [exact Ht'| |].
        -- intros ->. rewrite Ht in Ht'. injection Ht' as ->.
           discriminate Hcb.
        -- intros Hi'. destruct (Htick _ _ Hi' Ht') as (pn' & sn' & Htk).
           cbn [callback] in Htk. discriminate Htk.
Qed.

Lemma poll_lifecycle w id t key packageName projectName s :
  tracker_inv s -> lifecycle_inv s ->
  timers s !! id = Some t ->
  callback t = CheckComplete key packageName projectName ->
  lifecycle_inv (checkComplete w key packageName projectName
                   (set_timers (delete id) s)).
Proof.
  intros Hinv Hlife Ht Hcb.
  pose proof (delete_check_lifecycle _ _ _ _ _ _ Hlife Ht Hcb) as Hlife'.
  destruct (activeInstalls s !! key) as [install|] eqn:Hact.
  - destruct (manifestObserved w projectName packageName s) eqn:Hobs.
    + eapply poll_done_lifecycle; eassumption.
    + rewrite (checkComplete_waiting _ _ _ _ _ _ _ _ install) by assumption.
      apply schedule_lifecycle; [|exact Hlife'].
      pose proof (inv_fresh_timers _ Hinv) as Hft.
      destruct s as [ai pb mb tm n mp ws cs]. monitor_cbv.
      intros x t' H. apply lookup_delete_Some in H as [_ H]. eauto.
  - rewrite checkComplete_inactive by assumption. exact Hlife'.
Qed.

Lemma retire_lifecycle id t install projectName packageName elapsed s :
  lifecycle_inv s ->
  timers s !! id = Some t ->
  callback t = RetireBar install projectName packageName elapsed ->
  lifecycle_inv (retireBar install projectName packageName elapsed
                   (set_timers (delete id) s)).
Proof.
  intros Hlife Ht Hcb.
  destruct s as [ai pb mb tm n mp ws cs]. destruct Hlife as [Hint Hret].
  unfold retireBar. constructor; monitor_cbv.
  - intros k i H. destruct (Hint _ _ H) as (tid & pn & snap & Hi & Ht').
    exists tid, pn, snap. split; [exact Hi|].
    rewrite lookup_delete_ne; [exact Ht'|].
    intros <-. rewrite Ht in Ht'. injection Ht' as ->. discriminate Hcb.
  - intros b bar H Hnot. apply lookup_delete_Some in H as [Hneb H].
    destruct (Hret _ _ H Hnot) as (tid & i & pj & pn & el & Ht' & Hb).
    exists tid, i, pj, pn, el. split; [|exact Hb].
    rewrite lookup_delete_ne; [exact Ht'|].
    intros <-. rewrite Ht in Ht'. injection Ht' as ->.
    cbn [callback] in Hcb. congruence.
Qed.

Lemma fireTimer_lifecycle w id s :
  tracker_inv s -> lifecycle_inv s -> lifecycle_inv (fireTimer w id s).
Proof.
  intros Hinv Hlife. unfold Monitor.fireTimer.
  destruct (timers s !! id) as [t|] eqn:Ht; [|exact Hlife].
  destruct (callback t) as [key pn i|key pn pj|i pj pn el] eqn:Hcb.
  - eapply tick_lifecycle; eassumption.
  - eapply poll_lifecycle; eassumption.
  - eapply retire_lifecycle; eassumption.
Qed.

Lemma step_lifecycle w e s :
  tracker_inv s -> lifecycle_inv s -> lifecycle_inv (step w e s).
Proof.
  intros Hinv Hlife.
  destruct e as [dirPath|fs projectPath dirPath|fs dirPath|id|files];
    cbn [Monitor.step].
  - unfold onGlobalAddDir. destruct (negb _); [|exact Hlife].
    apply track_lifecycle; assumption.
  - unfold onProjectAddDir. destruct (negb _); [|exact Hlife].
    destruct (analyzeDependencyChain _ _ _ _ _); [|exact Hlife].
    apply track_lifecycle; assumption.
  - unfold onLocalAddDir. destruct (negb _); [|exact Hlife].
    destruct (analyzeDependencyChain _ _ _ _ _); [|exact Hlife].
    apply track_lifecycle; assumption.
  - apply fireTimer_lifecycle; assumption.
  - rewrite monitorAllDiscovered_fold.
    eapply lifecycle_inv_frame; [apply fold_same_tracker | exact Hlife].
Qed.

(** Every state of a run satisfies the lifecycle invariant. *)
Lemma reachable_lifecycle s : reachable s -> lifecycle_inv s.
Proof.
  induction 1 as [|w|w e s Hreach IH].
  - apply lifecycle_inv_initial.
  - unfold Monitor.monitorCurrentProject.
    destruct (existsSync w "package.json"); [|apply lifecycle_inv_initial].
    eapply lifecycle_inv_frame; [|apply lifecycle_inv_initial].
    rewrite watchProject_rest. repeat split.
  - apply step_lifecycle; [|exact IH].
    apply (reachable_invariant _ _ _ _ _ _ _ _ Hreach).
Qed.

End LifecycleSteps.

Section LifecycleProperties.
Import JS ChainResolver Monitor Invariant Lifecycle.

Variable path_join : list string -> string.
Variable path_basename : string -> string.
Variable path_dirname : string -> string.
Variable platform : string.
Variable APPDATA : option string.
Variable cwd : string.
Variable stackDepth : nat.

Local Abbreviation fireTimer :=
  (Monitor.fireTimer path_join path_basename platform APPDATA).
Local Abbreviation reachable :=
  (Monitor.reachable path_join path_basename path_dirname platform APPDATA cwd
                     stackDepth).

(** X10.  In every state of a run an installation being tracked has
    exactly one percentage timer pending: the repeating 200 ms timer
    recorded in its [progressInterval].  Conversely every pending
    percentage timer belongs to an installation being tracked, so that
    when it fires it updates a bar: the branch of the callback that
    clears a timer whose installation is gone is never taken, and the
    timer stays scheduled. *)
Theorem X10_one_interval_per_installation (s : Monitor) :
  reachable s ->
  (forall key install,
      activeInstalls s !! key = Some install ->
      exists tid packageName snapshot,
        progressInterval install = Some tid /\
        timers s !! tid
        = Some (mkTimer 200 true (ProgressTick key packageName snapshot)) /\
        (forall tid' t',
            timers s !! tid' = Some t' -> is_tick_for key t' -> tid' = tid)) /\
  (forall tid t key packageName snapshot,
      timers s !! tid = Some t ->
      callback t = ProgressTick key packageName snapshot ->
      is_Some (activeInstalls s !! key) /\
      (forall w,
          timers (fireTimer w tid s) = timers s /\
          activeInstalls (fireTimer w tid s) = activeInstalls s)).
Proof.
  intros Hreach.
  destruct (reachable_invariant _ _ _ _ _ _ _ _ Hreach) as [Hinv _].
  pose proof (reachable_lifecycle _ _ _ _ _ _ _ _ Hreach) as Hlife.
  split.
  - intros key install Hact.
    destruct (inv_interval_pending _ Hlife _ _ Hact)
      as (tid & pn & snap & Hi & Ht).
    exists tid, pn, snap. split; [exact Hi|]. split; [exact Ht|].
    intros tid' t' Ht' (pn' & snap' & Hcb).
    destruct (inv_ticks_owned _ Hinv _ _ _ _ _ Ht' Hcb)
      as (i & Hi' & Hint & _).
    congruence.
  - intros tid t key pn snap Ht Hcb.
    destruct (inv_ticks_owned _ Hinv _ _ _ _ _ Ht Hcb) as (i & Hi & _).
    split; [eauto|]. intros w.
    rewrite (fireTimer_tick _ _ _ _ _ _ _ _ _ _ _ Ht Hcb).
    unfold progressTick. rewrite Hi. split; reflexivity.
Qed.

(** X11.  In every state of a run a bar on display that belongs to no
    installation being tracked shows 100 and has a 1000 ms timer pending
    whose firing removes the bar and writes the "installed" line, with
    the duration measured at the successful completion check.  So every
    bar whose installation is done is scheduled for removal. *)
Theorem X11_finished_bar_is_removed (s : Monitor) :
  reachable s ->
  forall b bar,
    multibar s !! b = Some bar ->
    ~ in_flight s b ->
    bar_value bar = num 100 /\
    exists tid install projectName packageName elapsed,
      timers s !! tid
      = Some (mkTimer 1000 false
                (RetireBar install projectName packageName elapsed)) /\
      progressBar install = b /\
      (forall w,
          multibar (fireTimer w tid s) !! b = None /\
          timers (fireTimer w tid s) !! tid = None /\
          console (fireTimer w tid s)
          = console s ++ [LineInstalled projectName packageName elapsed
                            (chainInfo install)]).
Proof.
  intros Hreach b bar Hbar Hnot.
  destruct (reachable_invariant _ _ _ _ _ _ _ _ Hreach) as [Hinv _].
  pose proof (reachable_lifecycle _ _ _ _ _ _ _ _ Hreach) as Hlife.
  split; [exact (inv_done _ Hinv _ _ Hbar Hnot)|].
  destruct (inv_retire_pending _ Hlife _ _ Hbar Hnot)
    as (tid & i & pj & pn & el & Ht & Hb).
  exists tid, i, pj, pn, el. split; [exact Ht|]. split; [exact Hb|].
  intros w. unfold Monitor.fireTimer. rewrite Ht. cbn [callback].
  unfold retireBar. destruct s as [ai pb mb tm n mp ws cs]. monitor_cbv.
  rewrite Hb. split; [apply lookup_delete_eq|].
  split; [apply lookup_delete_eq | reflexivity].
Qed.

(** X25.  One record per key does not mean one bar per key on display.
    When a completion check has succeeded and the same package is
    detected again before the finished bar is removed, a second bar is
    created: the finished one, at 100, and the new one, at 0, are both
    on display, and only the new one belongs to the record of the
    key. *)
Theorem X25_redetection_shows_two_bars
    (s : Monitor) (w w' : World) (id : nat) (t : Timer)
    (key packageName projectName : string) (install : Install)
    (chain : ChainInfo) :
  reachable s ->
  timers s !! id = Some t ->
  callback t = CheckComplete key packageName projectName ->
  activeInstalls s !! key = Some install ->
  Monitor.manifestObserved path_join path_basename platform APPDATA
    w projectName packageName s = true ->
  let s1 := fireTimer w id s in
  let s2 := trackInstallationWithProgress w' packageName projectName chain s1 in
  activeInstalls s1 !! key = None /\
  (exists again,
      activeInstalls s2 !! key = Some again /\
      progressBar again <> progressBar install /\
      bar_value <$> multibar s2 !! progressBar again = Some (num 0)) /\
  bar_value <$> multibar s2 !! progressBar install = Some (num 100).
Proof.
  intros Hreach Ht Hcb Hact Hobs. cbv zeta.
  destruct (reachable_invariant _ _ _ _ _ _ _ _ Hreach) as [Hinv _].
  pose proof (reachable_checks_keyed _ _ _ _ _ _ _ _ Hreach _ _ _ _ _ Ht Hcb)
    as Hkey.
  pose proof (inv_fresh_bar _ Hinv _ _ Hact) as Hfresh.
  destruct (inv_bar_present _ Hinv _ _ Hact) as [bar Hbar].
  rewrite (fireTimer_check _ _ _ _ _ _ _ _ _ _ _ Ht Hcb).
  rewrite (checkComplete_done _ _ _ _ _ _ _ _ install) by assumption.
  set (s1 := mkMonitor _ _ _ _ _ _ _ _).
  assert (Hgone : activeInstalls s1 !! compositeKey projectName packageName
                  = None).
  { subst s1. cbn [activeInstalls set_timers]. rewrite <- Hkey.
    apply lookup_delete_eq. }
  split; [rewrite Hkey; exact Hgone|].
  rewrite (track_new _ _ _ _ _ Hgone). cbv zeta.
  cbn [activeInstalls multibar]. subst s1.
  cbn [next_id multibar set_timers]. rewrite <- Hkey. split.
  - eexists. split; [apply lookup_insert_eq|]. cbn [progressBar].
    split; [lia|]. rewrite lookup_insert_eq. reflexivity.
  - rewrite lookup_insert_ne by lia.
    rewrite lookup_alter_eq, Hbar. reflexivity.
Qed.

End LifecycleProperties.

Section LifecycleRuns.
Import JS ChainResolver Monitor Invariant Lifecycle Spec.

Local Abbreviation run_step :=
  (Monitor.step fixture_join fixture_basename fixture_dirname
                "linux" None "/home/u/app" fixture_stack).
Local Abbreviation run_fire :=
  (Monitor.fireTimer fixture_join fixture_basename "linux" None).

(** [chalk] has just been detected in the global store: timer 1 is its
    percentage timer, and firing it leaves it scheduled. *)
Lemma X10_one_interval_witness :
  let s1 := run_step (fixture_world 0 [])
              (EvGlobalAddDir "/usr/local/lib/node_modules/chalk") initial in
  is_Some (activeInstalls s1 !! "GLOBAL:chalk") /\
  (forall w,
      timers (run_fire w 1 s1) = timers s1 /\
      activeInstalls (run_fire w 1 s1) = activeInstalls s1).
Proof.
  cbv zeta.
  destruct (X10_one_interval_per_installation fixture_join fixture_basename
              fixture_dirname "linux" None "/home/u/app" fixture_stack _
              (reachable_step _ _ _ _ _ _ _ (fixture_world 0 [])
                 (EvGlobalAddDir "/usr/local/lib/node_modules/chalk") initial
                 (reachable_initial _ _ _ _ _ _ _)))
    as (_ & H).
  exact (H 1 (mkTimer 200 true
                (ProgressTick "GLOBAL:chalk" "chalk"
                   (mkInstall 0 "GLOBAL" globalChain 0 None)))
           "GLOBAL:chalk" "chalk"
           (mkInstall 0 "GLOBAL" globalChain 0 None) eq_refl eq_refl).
Defined.

(** [chalk] is detected and its completion check finds the manifest: the
    bar shows 100 and timer 3 will remove it. *)
Lemma X11_finished_bar_witness :
  let s1 := run_step (fixture_world 0 [])
              (EvGlobalAddDir "/usr/local/lib/node_modules/chalk") initial in
  let s2 := run_step
              (fixture_world 500
                 ["/usr/local/lib/node_modules/chalk/package.json"])
              (EvTimer 2) s1 in
  bar_value (mkBar (num 100) "chalk" "Complete!" "0s") = num 100 /\
  exists tid install projectName packageName elapsed,
    timers s2 !! tid
    = Some (mkTimer 1000 false
              (RetireBar install projectName packageName elapsed)) /\
    progressBar install = 0 /\
    (forall w,
        multibar (run_fire w tid s2) !! 0 = None /\
        timers (run_fire w tid s2) !! tid = None /\
        console (run_fire w tid s2)
        = console s2 ++ [LineInstalled projectName packageName elapsed
                           (chainInfo install)]).
Proof.
  cbv zeta.
  refine (X11_finished_bar_is_removed fixture_join fixture_basename
            fixture_dirname "linux" None "/home/u/app" fixture_stack _
            (reachable_step _ _ _ _ _ _ _
               (fixture_world 500
                  ["/usr/local/lib/node_modules/chalk/package.json"])
               (EvTimer 2) _
               (reachable_step _ _ _ _ _ _ _ (fixture_world 0 [])
                  (EvGlobalAddDir "/usr/local/lib/node_modules/chalk") initial
                  (reachable_initial _ _ _ _ _ _ _)))
            0 (mkBar (num 100) "chalk" "Complete!" "0s") eq_refl _).
  intros (key & install & Hact & _). vm_compute in Hact. discriminate Hact.
Defined.

(** [chalk] completes at 500 ms and is detected again at 600 ms: bar 0
    shows 100 and bar 4 shows 0. *)
Lemma X25_two_bars_witness :
  let s1 := run_step (fixture_world 0 [])
              (EvGlobalAddDir "/usr/local/lib/node_modules/chalk") initial in
  let w := fixture_world 500
             ["/usr/local/lib/node_modules/chalk/package.json"] in
  let s3 := trackInstallationWithProgress (fixture_world 600 [])
              "chalk" "GLOBAL" globalChain (run_fire w 2 s1) in
  bar_value <$> multibar s3 !! 4 = Some (num 0) /\
  bar_value <$> multibar s3 !! 0 = Some (num 100).
Proof.
  cbv zeta.
  destruct (X25_redetection_shows_two_bars fixture_join fixture_basename
              fixture_dirname "linux" None "/home/u/app" fixture_stack _
              (fixture_world 500
                 ["/usr/local/lib/node_modules/chalk/package.json"])
              (fixture_world 600 []) 2
              (mkTimer 500 false (CheckComplete "GLOBAL:chalk" "chalk" "GLOBAL"))
              "GLOBAL:chalk" "chalk" "GLOBAL"
              (mkInstall 0 "GLOBAL" globalChain 0 (Some 1)) globalChain
              (reachable_step _ _ _ _ _ _ _ (fixture_world 0 [])
                 (EvGlobalAddDir "/usr/local/lib/node_modules/chalk") initial
                 (reachable_initial _ _ _ _ _ _ _))
              eq_refl eq_refl eq_refl eq_refl)
    as (_ & _ & Hold).
  split; [reflexivity | exact Hold].
Defined.

End LifecycleRuns.

Section PollingSteps.
Import JS ChainResolver Monitor Invariant Lifecycle.

Variable path_join : list string -> string.
Variable path_basename : string -> string.
Variable path_dirname : string -> string.
Variable platform : string.
Variable APPDATA : option string.
Variable cwd : string.
Variable stackDepth : nat.

Local Abbreviation manifestObserved :=
  (Monitor.manifestObserved path_join path_basename platform APPDATA).
Local Abbreviation checkComplete :=
  (Monitor.checkComplete path_join path_basename platform APPDATA).
Local Abbreviation fireTimer :=
  (Monitor.fireTimer path_join path_basename platform APPDATA).
Local Abbreviation monitorDiscovered :=
  (Monitor.monitorDiscovered path_join path_basename path_dirname).
Local Abbreviation monitorAllDiscovered :=
  (Monitor.monitorAllDiscovered path_join path_basename path_dirname).
Local Abbreviation step :=
  (Monitor.step path_join path_basename path_dirname platform APPDATA cwd
                stackDepth).
Local Abbreviation reachable :=
  (Monitor.reachable path_join path_basename path_dirname platform APPDATA cwd
                     stackDepth).

(** The invariant survives when timers only go away and the records
    stay. *)
Lemma poll_inv_fewer_timers s s' :
  activeInstalls s' = activeInstalls s ->
  (forall tid t, timers s' !! tid = Some t -> timers s !! tid = Some t) ->
  poll_inv s -> poll_inv s'.
Proof.
  intros Hai Hsub [Hact Huniq]. constructor.
  - intros tid t key pn pj H Hcb. rewrite Hai. eauto.
  - intros tid1 tid2 t1 t2 key pn1 pj1 pn2 pj2 H1 H2. eauto.
Qed.

Lemma poll_inv_initial : poll_inv initial.
Proof.
  constructor; cbn; intros;
    repeat match goal with
           | H : _ !! _ = Some _ |- _ =>
               rewrite lookup_empty in H; discriminate H
           end.
Qed.

Lemma track_poll w packageName projectName chain s :
  tracker_inv s -> poll_inv s ->
  poll_inv (trackInstallationWithProgress w packageName projectName chain s).
Proof.
  intros Hinv Hpoll.
  destruct (activeInstalls s !! compositeKey projectName packageName) eqn:E.
  { rewrite track_active; [exact Hpoll | eauto]. }
  rewrite (track_new _ _ _ _ _ E). cbv zeta.
  set (key := compositeKey projectName packageName) in *.
  pose proof (inv_fresh_timers _ Hinv) as Hft.
  destruct s as [ai pb mb tm n mp ws cs]. destruct Hpoll as [Hact Huniq].
  monitor_cbv.
  assert (Hold : forall tid t k pn pj,
             tm !! tid = Some t -> callback t = CheckComplete k pn pj ->
             k <> key).
  { intros tid t k pn pj H Hcb ->.
    destruct (Hact _ _ _ _ _ H Hcb) as [i Hi]. congruence. }
  constructor; monitor_cbv.
  - intros tid t k pn pj H Hcb.
    apply lookup_insert_Some in H as [[<- <-]|[_ H]].
    + cbn [callback] in Hcb. injection Hcb as <- _ _.
      rewrite lookup_insert_eq. eauto.
    + apply lookup_insert_Some in H as [[<- <-]|[_ H]]; [discriminate Hcb|].
      rewrite lookup_insert_ne by (symmetry; eapply Hold; eassumption).
      eapply Hact; eassumption.
  - intros tid1 tid2 t1 t2 k pn1 pj1 pn2 pj2 H1 H2 Hc1 Hc2.
    apply lookup_insert_Some in H1 as [[<- <-]|[Hn1 H1]];
      apply lookup_insert_Some in H2 as [[<- <-]|[Hn2 H2]];
      try reflexivity.
    + apply lookup_insert_Some in H2 as [[<- <-]|[_ H2]]; [discriminate Hc2|].
      cbn [callback] in Hc1. injection Hc1 as <- _ _.
      destruct (Hold _ _ _ _ _ H2 Hc2 eq_refl).
    + apply lookup_insert_Some in H1 as [[<- <-]|[_ H1]]; [discriminate Hc1|].
      cbn [callback] in Hc2. injection Hc2 as <- _ _.
      destruct (Hold _ _ _ _ _ H1 Hc1 eq_refl).
    + apply lookup_insert_Some in H1 as [[<- <-]|[_ H1]]; [discriminate Hc1|].
      apply lookup_insert_Some in H2 as [[<- <-]|[_ H2]]; [discriminate Hc2|].
      eapply Huniq; eassumption.
Qed.

Lemma poll_poll w id t key packageName projectName s :
  tracker_inv s -> poll_inv s ->
  timers s !! id = Some t ->
  callback t = CheckComplete key packageName projectName ->
  poll_inv (checkComplete w key packageName projectName
              (set_timers (delete id) s)).
Proof.
  intros Hinv Hpoll Ht Hcb.
  destruct (activeInstalls s !! key) as [install|] eqn:Hact.
  - destruct (manifestObserved w projectName packageName s) eqn:Hobs.
    + rewrite (checkComplete_done _ _ _ _ _ _ _ _ install) by assumption.
      destruct s as [ai pb mb tm0 n mp ws cs].
      destruct Hpoll as [Hactive Huniq]. monitor_cbv.
      set (tm := match progressInterval install with
                 | Some tid => delete tid (delete id tm0)
                 | None => delete id tm0
                 end).
      assert (Hsub : forall tid t', tm !! tid = Some t' ->
                 tm0 !! tid = Some t' /\ tid <> id).
      { intros tid t' H. subst tm.
        destruct (progressInterval install) as [ti|].
        - apply lookup_delete_Some in H as [_ H].
          apply lookup_delete_Some in H as [Hne H]. split; congruence.
        - apply lookup_delete_Some in H as [Hne H]. split; congruence. }
      clearbody tm. constructor; monitor_cbv.
      * intros tid t' k pn pj H Hc.
        apply lookup_insert_Some in H as [[<- <-]|[_ H]]; [discriminate Hc|].
        apply Hsub in H as [H Hne].
        rewrite lookup_delete_ne; [eapply Hactive; eassumption|].
        intros <-. apply Hne. eapply Huniq; eassumption.
      * intros tid1 tid2 t1 t2 k pn1 pj1 pn2 pj2 H1 H2 Hc1 Hc2.
        apply lookup_insert_Some in H1 as [[<- <-]|[_ H1]]; [discriminate Hc1|].
        apply lookup_insert_Some in H2 as [[<- <-]|[_ H2]]; [discriminate Hc2|].
        apply Hsub in H1 as [H1 _]. apply Hsub in H2 as [H2 _].
        eapply Huniq; eassumption.
    + rewrite (checkComplete_waiting _ _ _ _ _ _ _ _ install) by assumption.
      destruct s as [ai pb mb tm n mp ws cs].
      destruct Hpoll as [Hactive Huniq]. monitor_cbv.
      constructor; monitor_cbv.
      * intros tid t' k pn pj H Hc.
        apply lookup_insert_Some in H as [[<- <-]|[_ H]].
        -- cbn [callback] in Hc. injection Hc as <- _ _. eauto.
        -- apply lookup_delete_Some in H as [_ H].
           eapply Hactive; eassumption.
      * intros tid1 tid2 t1 t2 k pn1 pj1 pn2 pj2 H1 H2 Hc1 Hc2.
        apply lookup_insert_Some in H1 as [[<- <-]|[_ H1]];
          apply lookup_insert_Some in H2 as [[<- <-]|[_ H2]];
          try reflexivity.
        -- apply lookup_delete_Some in H2 as [Hne H2].
           cbn [callback] in Hc1. injection Hc1 as <- _ _.
           destruct Hne. eapply Huniq; eassumption.
        -- apply lookup_delete_Some in H1 as [Hne H1].
           cbn [callback] in Hc2. injection Hc2 as <- _ _.
           destruct Hne. eapply Huniq; eassumption.
        -- apply lookup_delete_Some in H1 as [_ H1].
           apply lookup_delete_Some in H2 as [_ H2].
           eapply Huniq; eassumption.
  - rewrite checkComplete_inactive by assumption.
    apply (poll_inv_fewer_timers s); [reflexivity| |exact Hpoll].
    destruct s as [ai pb mb tm n mp ws cs]. monitor_cbv.
    intros tid t' H. apply lookup_delete_Some in H as [_ H]. exact H.
Qed.

Lemma fireTimer_poll w id s :
  tracker_inv s -> poll_inv s -> poll_inv (fireTimer w id s).
Proof.
  intros Hinv Hpoll. unfold Monitor.fireTimer.
  destruct (timers s !! id) as [t|] eqn:Ht; [|exact Hpoll].
  destruct (callback t) as [key pn i|key pn pj|i pj pn el] eqn:Hcb.
  - apply (poll_inv_fewer_timers s); [| |exact Hpoll];
      unfold progressTick; destruct s as [ai pb mb tm n mp ws cs];
      monitor_cbv; destruct (ai !! key); monitor_cbv; try reflexivity;
      intros tid t' H; try exact H.
    apply lookup_delete_Some in H as [_ H]. exact H.
  - eapply poll_poll; eassumption.
  - apply (poll_inv_fewer_timers s); [| |exact Hpoll];
      unfold retireBar; destruct s as [ai pb mb tm n mp ws cs];
      monitor_cbv; [reflexivity|].
    intros tid t' H. apply lookup_delete_Some in H as [_ H]. exact H.
Qed.

Lemma poll_inv_frame s s' :
  same_tracker s s' -> poll_inv s -> poll_inv s'.
Proof.
  intros (Ha & _ & _ & Hd & _). apply poll_inv_fewer_timers; [exact Ha|].
  rewrite Hd. auto.
Qed.

Lemma step_poll w e s :
  tracker_inv s -> poll_inv s -> poll_inv (step w e s).
Proof.
  intros Hinv Hpoll.
  destruct e as [dirPath|fs projectPath dirPath|fs dirPath|id|files];
    cbn [Monitor.step].
  - unfold onGlobalAddDir. destruct (negb _); [|exact Hpoll].
    apply track_poll; assumption.
  - unfold onProjectAddDir. destruct (negb _); [|exact Hpoll].
    destruct (analyzeDependencyChain _ _ _ _ _); [|exact Hpoll].
    apply track_poll; assumption.
  - unfold onLocalAddDir. destruct (negb _); [|exact Hpoll].
    destruct (analyzeDependencyChain _ _ _ _ _); [|exact Hpoll].
    apply track_poll; assumption.
  - apply fireTimer_poll; assumption.
  - rewrite monitorAllDiscovered_fold.
    eapply poll_inv_frame; [apply fold_same_tracker | exact Hpoll].
Qed.

Lemma reachable_poll s : reachable s -> poll_inv s.
Proof.
  induction 1 as [|w|w e s Hreach IH].
  - apply poll_inv_initial.
  - unfold Monitor.monitorCurrentProject.
    destruct (existsSync w "package.json"); [|apply poll_inv_initial].
    eapply poll_inv_frame; [|apply poll_inv_initial].
    rewrite watchProject_rest. repeat split.
  - apply step_poll; [|exact IH].
    apply (reachable_invariant _ _ _ _ _ _ _ _ Hreach).
Qed.

(** X22.  In every state of a run an installation being tracked has
    exactly one completion check pending, and every pending completion
    check belongs to an installation being tracked, under the key of the
    project and package it was scheduled for.  So a check never finds its
    installation gone, checks do not pile up, and each installation is
    polled by a single chain of timers. *)
Theorem X22_one_completion_check_per_installation (s : Monitor) :
  reachable s ->
  (forall key install,
      activeInstalls s !! key = Some install ->
      exists tid t,
        timers s !! tid = Some t /\ is_check_for key t /\
        (forall tid' t',
            timers s !! tid' = Some t' -> is_check_for key t' -> tid' = tid)) /\
  (forall tid t key packageName projectName,
      timers s !! tid = Some t ->
      callback t = CheckComplete key packageName projectName ->
      is_Some (activeInstalls s !! key) /\
      key = compositeKey projectName packageName).
Proof.
  intros Hreach.
  destruct (reachable_invariant _ _ _ _ _ _ _ _ Hreach) as [Hinv _].
  pose proof (reachable_poll _ Hreach) as [Hactive Huniq].
  split.
  - intros key install Hact.
    destruct (inv_check_pending _ Hinv _ _ Hact) as (tid & t & Ht & Hc).
    exists tid, t. split; [exact Ht|]. split; [exact Hc|].
    intros tid' t' Ht' (pn' & pj' & Hc' & _).
    destruct Hc as (pn & pj & Hc & _).
    eapply Huniq; eassumption.
  - intros tid t key pn pj Ht Hcb. split; [eapply Hactive; eassumption|].
    eapply (reachable_checks_keyed _ _ _ _ _ _ _ _ Hreach); eassumption.
Qed.

End PollingSteps.

Section PollingRuns.
Import JS ChainResolver Monitor Invariant Lifecycle Spec.

Local Abbreviation run_step :=
  (Monitor.step fixture_join fixture_basename fixture_dirname
                "linux" None "/home/u/app" fixture_stack).

(** [chalk] was detected and its first check found nothing: timer 3 is
    the one check pending, and it is for [GLOBAL:chalk]. *)
Lemma X22_one_check_witness :
  let s1 := run_step (fixture_world 0 [])
              (EvGlobalAddDir "/usr/local/lib/node_modules/chalk") initial in
  let s2 := run_step (fixture_world 500 []) (EvTimer 2) s1 in
  timers s2 !! 2 = None /\
  is_Some (activeInstalls s2 !! "GLOBAL:chalk") /\
  "GLOBAL:chalk" = compositeKey "GLOBAL" "chalk".
Proof.
  cbv zeta. split; [reflexivity|].
  destruct (X22_one_completion_check_per_installation fixture_join
              fixture_basename fixture_dirname "linux" None "/home/u/app"
              fixture_stack _
              (reachable_step _ _ _ _ _ _ _ (fixture_world 500 []) (EvTimer 2) _
                 (reachable_step _ _ _ _ _ _ _ (fixture_world 0 [])
                    (EvGlobalAddDir "/usr/local/lib/node_modules/chalk")
                    initial (reachable_initial _ _ _ _ _ _ _))))
    as (_ & H).
  exact (H 3 (mkTimer 300 false (CheckComplete "GLOBAL:chalk" "chalk" "GLOBAL"))
           "GLOBAL:chalk" "chalk" "GLOBAL" eq_refl eq_refl).
Defined.

End PollingRuns.

Section ConsoleSteps.
Import JS ChainResolver Monitor Invariant Lifecycle.

Variable path_join : list string -> string.
Variable path_basename : string -> string.
Variable path_dirname : string -> string.
Variable platform : string.
Variable APPDATA : option string.
Variable cwd : string.
Variable stackDepth : nat.

Local Abbreviation manifestObserved :=
  (Monitor.manifestObserved path_join path_basename platform APPDATA).
Local Abbreviation checkComplete :=
  (Monitor.checkComplete path_join path_basename platform APPDATA).
Local Abbreviation fireTimer :=
  (Monitor.fireTimer path_join path_basename platform APPDATA).
Local Abbreviation monitorDiscovered :=
  (Monitor.monitorDiscovered path_join path_basename path_dirname).
Local Abbreviation monitorAllDiscovered :=
  (Monitor.monitorAllDiscovered path_join path_basename path_dirname).
Local Abbreviation step :=
  (Monitor.step path_join path_basename path_dirname platform APPDATA cwd
                stackDepth).
Local Abbreviation reachable :=
  (Monitor.reachable path_join path_basename path_dirname platform APPDATA cwd
                     stackDepth).

(** *** Lines added at the end *)

Lemma snoc_split {A} (l before after : list A) (x y : A) :
  l ++ [x] = before ++ y :: after ->
  (before = l /\ x = y /\ after = []) \/
  (exists after', after = after' ++ [x] /\ l = before ++ y :: after').
Proof.
  revert before. induction l as [|a l IH]; intros [|b before] H;
    cbn [app] in H.
  - injection H as -> <-. left. repeat split.
  - injection H as _ H. destruct before; discriminate H.
  - injection H as -> H. right. exists l. split; [symmetry; exact H|].
    reflexivity.
  - injection H as -> H. destruct (IH _ H) as [(-> & -> & ->)|(a' & -> & ->)].
    + left. repeat split.
    + right. exists a'. split; reflexivity.
Qed.

Lemma announced_nil : announced [].
Proof. intros [|b before] after pj pn el chain H; discriminate H. Qed.

Lemma announced_snoc_other lines x :
  (forall pj pn el chain, x <> LineInstalled pj pn el chain) ->
  announced lines -> announced (lines ++ [x]).
Proof.
  intros Hx Hl before after pj pn el chain H.
  apply snoc_split in H as [(_ & -> & _)|(after' & _ & ->)].
  - destruct (Hx pj pn el chain eq_refl).
  - eapply Hl. reflexivity.
Qed.

Lemma announced_snoc_installed lines pj pn el chain :
  In (LineInstalling pj pn chain) lines ->
  announced lines ->
  announced (lines ++ [LineInstalled pj pn el chain]).
Proof.
  intros Hin Hl before after pj' pn' el' chain' H.
  apply snoc_split in H as [(-> & Heq & _)|(after' & _ & ->)].
  - injection Heq as <- <- _ <-. exact Hin.
  - eapply Hl. reflexivity.
Qed.

(** *** The steps *)

Lemma log_inv_initial : log_inv initial.
Proof.
  constructor; cbn; intros;
    repeat match goal with
           | H : _ !! _ = Some _ |- _ =>
               rewrite lookup_empty in H; discriminate H
           end.
  apply announced_nil.
Qed.

(** The invariant survives when timers only go away, the records stay
    and a line that is not an "installed" line is printed, or none. *)
Lemma log_inv_quiet s s' (extra : list ConsoleLine) :
  activeInstalls s' = activeInstalls s ->
  (forall tid t, timers s' !! tid = Some t -> timers s !! tid = Some t) ->
  console s' = console s ++ extra ->
  announced (console s ++ extra) ->
  log_inv s -> log_inv s'.
Proof.
  intros Hai Hsub Hcs Hann [Hchk Hret _]. constructor; rewrite ?Hcs.
  - intros tid t key pn pj install H Hcb Hact. rewrite Hai in Hact.
    apply in_or_app. left. eauto.
  - intros tid t install pj pn el H Hcb. apply in_or_app. left. eauto.
  - exact Hann.
Qed.

Lemma track_log w packageName projectName chain s :
  tracker_inv s -> poll_inv s -> log_inv s ->
  log_inv (trackInstallationWithProgress w packageName projectName chain s).
Proof.
  intros Hinv Hpoll Hlog.
  destruct (activeInstalls s !! compositeKey projectName packageName) eqn:E.
  { rewrite track_active; [exact Hlog | eauto]. }
  rewrite (track_new _ _ _ _ _ E). cbv zeta.
  set (key := compositeKey projectName packageName) in *.
  destruct s as [ai pb mb tm n mp ws cs].
  destruct Hlog as [Hchk Hret Hann]. destruct Hpoll as [Hactive _].
  monitor_cbv. constructor; monitor_cbv.
  - intros tid t k pn pj install H Hcb Hact. apply in_or_app.
    apply lookup_insert_Some in H as [[<- <-]|[_ H]].
    + cbn [callback] in Hcb. injection Hcb as <- <- <-.
      rewrite lookup_insert_eq in Hact. injection Hact as <-.
      right. left. reflexivity.
    + apply lookup_insert_Some in H as [[<- <-]|[_ H]]; [discriminate Hcb|].
      left. rewrite lookup_insert_ne in Hact; [eauto|].
      intros <-. destruct (Hactive _ _ _ _ _ H Hcb) as [i Hi]. congruence.
  - intros tid t install pj pn el H Hcb. apply in_or_app. left.
    apply lookup_insert_Some in H as [[<- <-]|[_ H]]; [discriminate Hcb|].
    apply lookup_insert_Some in H as [[<- <-]|[_ H]]; [discriminate Hcb|].
    eauto.
  - apply announced_snoc_other; [discriminate | exact Hann].
Qed.

Lemma poll_log w id t key packageName projectName s :
  tracker_inv s -> poll_inv s -> log_inv s ->
  timers s !! id = Some t ->
  callback t = CheckComplete key packageName projectName ->
  log_inv (checkComplete w key packageName projectName
             (set_timers (delete id) s)).
Proof.
  intros Hinv Hpoll Hlog Ht Hcb.
  destruct (activeInstalls s !! key) as [install|] eqn:Hact.
  - pose proof (inv_check_announced _ Hlog _ _ _ _ _ _ Ht Hcb Hact) as Hin.
    destruct (manifestObserved w projectName packageName s) eqn:Hobs.
    + rewrite (checkComplete_done _ _ _ _ _ _ _ _ install) by assumption.
      destruct s as [ai pb mb tm0 n mp ws cs].
      destruct Hlog as [Hchk Hret Hann]. monitor_cbv.
      set (tm := match progressInterval install with
                 | Some tid => delete tid (delete id tm0)
                 | None => delete id tm0
                 end).
      assert (Hsub : forall tid t', tm !! tid = Some t' ->
                 tm0 !! tid = Some t').
      { intros tid t' H. subst tm.
        destruct (progressInterval install) as [ti|].
        - apply lookup_delete_Some in H as [_ H].
          apply lookup_delete_Some in H as [_ H]. exact H.
        - apply lookup_delete_Some in H as [_ H]. exact H. }
      clearbody tm. constructor; monitor_cbv.
      * intros tid t' k pn pj i H Hc Hk.
        apply lookup_insert_Some in H as [[<- <-]|[_ H]]; [discriminate Hc|].
        apply lookup_delete_Some in Hk as [_ Hk]. apply Hsub in H. eauto.
      * intros tid t' i pj pn el H Hc.
        apply lookup_insert_Some in H as [[<- <-]|[_ H]].
        -- cbn [callback] in Hc. injection Hc as <- <- <- _. exact Hin.
        -- apply Hsub in H. eauto.
      * exact Hann.
    + rewrite (checkComplete_waiting _ _ _ _ _ _ _ _ install) by assumption.
      destruct s as [ai pb mb tm n mp ws cs].
      destruct Hlog as [Hchk Hret Hann]. monitor_cbv.
      constructor; monitor_cbv.
      * intros tid t' k pn pj i H Hc Hk.
        apply lookup_insert_Some in H as [[<- <-]|[_ H]].
        -- cbn [callback] in Hc. injection Hc as <- <- <-.
           rewrite Hact in Hk. injection Hk as <-. exact Hin.
        -- apply lookup_delete_Some in H as [_ H]. eauto.
      * intros tid t' i pj pn el H Hc.
        apply lookup_insert_Some in H as [[<- <-]|[_ H]]; [discriminate Hc|].
        apply lookup_delete_Some in H as [_ H]. eauto.
      * exact Hann.
  - rewrite checkComplete_inactive by assumption.
    apply (log_inv_quiet s _ []); [reflexivity| | |rewrite app_nil_r|exact Hlog].
    + destruct s as [ai pb mb tm n mp ws cs]. monitor_cbv.
      intros tid t' H. apply lookup_delete_Some in H as [_ H]. exact H.
    + destruct s. cbn. rewrite app_nil_r. reflexivity.
    + apply Hlog.
Qed.

Lemma retire_log id t install projectName packageName elapsed s :
  log_inv s ->
  timers s !! id = Some t ->
  callback t = RetireBar install projectName packageName elapsed ->
  log_inv (retireBar install projectName packageName elapsed
             (set_timers (delete id) s)).
Proof.
  intros Hlog Ht Hcb.
  pose proof (inv_retire_announced _ Hlog _ _ _ _ _ _ Ht Hcb) as Hin.
  apply (log_inv_quiet s _ [LineInstalled projectName packageName elapsed
                               (chainInfo install)]);
    [| | | |exact Hlog].
  - destruct s. reflexivity.
  - destruct s as [ai pb mb tm n mp ws cs]. unfold retireBar. monitor_cbv.
    intros tid t' H. apply lookup_delete_Some in H as [_ H]. exact H.
  - destruct s. reflexivity.
  - apply announced_snoc_installed; [exact Hin | apply Hlog].
Qed.

Lemma fireTimer_log w id s :
  tracker_inv s -> poll_inv s -> log_inv s -> log_inv (fireTimer w id s).
Proof.
  intros Hinv Hpoll Hlog. unfold Monitor.fireTimer.
  destruct (timers s !! id) as [t|] eqn:Ht; [|exact Hlog].
  destruct (callback t) as [key pn i|key pn pj|i pj pn el] eqn:Hcb.
  - apply (log_inv_quiet s _ []); [| | |rewrite app_nil_r; apply Hlog
                                   |exact Hlog];
      unfold progressTick; destruct s as [ai pb mb tm n mp ws cs];
      monitor_cbv; destruct (ai !! key); monitor_cbv;
      rewrite ?app_nil_r; try reflexivity;
      intros tid t' H; try exact H.
    apply lookup_delete_Some in H as [_ H]. exact H.
  - eapply poll_log; eassumption.
  - eapply retire_log; eassumption.
Qed.

Lemma monitorDiscovered_log w s file :
  log_inv s -> log_inv (monitorDiscovered w s file).
Proof.
  intros Hlog.
  destruct (in_dec string_dec (path_dirname file) (monitoredProjects s))
    as [Hin|Hnew].
  - rewrite monitorDiscovered_known by exact Hin. exact Hlog.
  - rewrite (monitorDiscovered_new _ _ _ _ _ _ Hnew). cbv zeta.
    eapply (log_inv_quiet s _ [_]); [reflexivity| |reflexivity| |exact Hlog].
    + intros tid t H. exact H.
    + apply announced_snoc_other; [discriminate | apply Hlog].
Qed.

Lemma fold_log w files :
  forall s, log_inv s -> log_inv (fold_left (monitorDiscovered w) files s).
Proof.
  induction files as [|f files IH]; intros s H; [exact H|].
  apply IH, monitorDiscovered_log, H.
Qed.

Lemma step_log w e s :
  tracker_inv s -> poll_inv s -> log_inv s -> log_inv (step w e s).
Proof.
  intros Hinv Hpoll Hlog.
  destruct e as [dirPath|fs projectPath dirPath|fs dirPath|id|files];
    cbn [Monitor.step].
  - unfold onGlobalAddDir. destruct (negb _); [|exact Hlog].
    apply track_log; assumption.
  - unfold onProjectAddDir. destruct (negb _); [|exact Hlog].
    destruct (analyzeDependencyChain _ _ _ _ _); [|exact Hlog].
    apply track_log; assumption.
  - unfold onLocalAddDir. destruct (negb _); [|exact Hlog].
    destruct (analyzeDependencyChain _ _ _ _ _); [|exact Hlog].
    apply track_log; assumption.
  - apply fireTimer_log; assumption.
  - rewrite monitorAllDiscovered_fold. apply fold_log, Hlog.
Qed.

Lemma reachable_log s : reachable s -> log_inv s.
Proof.
  induction 1 as [|w|w e s Hreach IH].
  - apply log_inv_initial.
  - unfold Monitor.monitorCurrentProject.
    destruct (existsSync w "package.json"); [|apply log_inv_initial].
    rewrite watchProject_rest. cbn.
    constructor; cbn; intros;
      repeat match goal with
             | H : _ !! _ = Some _ |- _ =>
                 rewrite lookup_empty in H; discriminate H
             end.
    apply (announced_snoc_other []); [discriminate | apply announced_nil].
  - apply step_log; [| |exact IH].
    + apply (reachable_invariant _ _ _ _ _ _ _ _ Hreach).
    + apply (reachable_poll _ _ _ _ _ _ _ _ Hreach).
Qed.

(** X26.  In the console of every run an "installed" line comes after
    an "Installing" line of the same project and the same package, and
    the two lines carry the same chain information: what is reported at
    the end of an installation about its origin is what was reported
    when it was detected. *)
Theorem X26_installed_follows_installing (s : Monitor) :
  reachable s ->
  forall before after projectName packageName elapsed chain,
    console s = before ++ LineInstalled projectName packageName elapsed chain
                          :: after ->
    In (LineInstalling projectName packageName chain) before.
Proof.
  intros Hreach. exact (inv_announced _ (reachable_log _ Hreach)).
Qed.

End ConsoleSteps.

Section ConsoleRuns.
Import JS ChainResolver Monitor Invariant Lifecycle Spec.

Local Abbreviation run_step :=
  (Monitor.step fixture_join fixture_basename fixture_dirname
                "linux" None "/home/u/app" fixture_stack).

(** [chalk] is detected, found complete after 500 ms and reported a
    second later. *)
Lemma X26_console_witness :
  let w := fixture_world 500
             ["/usr/local/lib/node_modules/chalk/package.json"] in
  let s1 := run_step (fixture_world 0 [])
              (EvGlobalAddDir "/usr/local/lib/node_modules/chalk") initial in
  let s3 := run_step (fixture_world 1500 []) (EvTimer 3)
              (run_step w (EvTimer 2) s1) in
  console s3 = [LineInstalling "GLOBAL" "chalk" globalChain;
                LineInstalled "GLOBAL" "chalk" 500 globalChain] /\
  In (LineInstalling "GLOBAL" "chalk" globalChain)
     [LineInstalling "GLOBAL" "chalk" globalChain].
Proof.
  cbv zeta. split; [reflexivity|].
  apply (X26_installed_follows_installing fixture_join fixture_basename
           fixture_dirname "linux" None "/home/u/app" fixture_stack _
           (reachable_step _ _ _ _ _ _ _ (fixture_world 1500 []) (EvTimer 3) _
              (reachable_step _ _ _ _ _ _ _
                 (fixture_world 500
                    ["/usr/local/lib/node_modules/chalk/package.json"])
                 (EvTimer 2) _
                 (reachable_step _ _ _ _ _ _ _ (fixture_world 0 [])
                    (EvGlobalAddDir "/usr/local/lib/node_modules/chalk")
                    initial (reachable_initial _ _ _ _ _ _ _))))
           [LineInstalling "GLOBAL" "chalk" globalChain] []
           "GLOBAL" "chalk" 500%Z globalChain eq_refl).
Defined.

End ConsoleRuns.

(* ===================================================================== *)
(** * Further properties of the registry and of detection *)
(* ===================================================================== *)

Section RegistryGrowth.
Import JS ChainResolver Monitor Invariant Growth.

Variable path_join : list string -> string.
Variable path_basename : string -> string.
Variable path_dirname : string -> string.
Variable platform : string.
Variable APPDATA : option string.
Variable cwd : string.
Variable stackDepth : nat.

Local Abbreviation fireTimer :=
  (Monitor.fireTimer path_join path_basename platform APPDATA).
Local Abbreviation monitorDiscovered :=
  (Monitor.monitorDiscovered path_join path_basename path_dirname).
Local Abbreviation monitorAllDiscovered :=
  (Monitor.monitorAllDiscovered path_join path_basename path_dirname).
Local Abbreviation step :=
  (Monitor.step path_join path_basename path_dirname platform APPDATA cwd
                stackDepth).

Local Ltac grown :=
  split; [|split]; eexists;
  first [exact (eq_sym (app_nil_r _)) | reflexivity].

Lemma grows_refl s : grows s s.
Proof. grown. Qed.

Lemma grows_trans s1 s2 s3 : grows s1 s2 -> grows s2 s3 -> grows s1 s3.
Proof.
  intros ([p1 A1] & [w1 A2] & [l1 A3]) ([p2 B1] & [w2 B2] & [l2 B3]).
  split; [|split]; eexists;
    rewrite ?B1, ?B2, ?B3, ?A1, ?A2, ?A3, <- app_assoc; reflexivity.
Qed.

Lemma track_grows w packageName projectName chain s :
  grows s (trackInstallationWithProgress w packageName projectName chain s).
Proof.
  destruct (activeInstalls s !! compositeKey projectName packageName) eqn:E.
  - rewrite track_active by eauto. apply grows_refl.
  - rewrite (track_new _ _ _ _ _ E). cbv zeta. unfold grows.
    cbn [monitoredProjects watchers console]. grown.
Qed.

Lemma fireTimer_grows w id s : grows s (fireTimer w id s).
Proof.
  destruct s as [ai pb mb tm n mp ws cs].
  unfold Monitor.fireTimer, Monitor.progressTick, Monitor.checkComplete,
    retireBar, grows.
  monitor_cbv.
  destruct (tm !! id) as [t|]; [|grown].
  destruct (callback t) as [key pn i|key pn pj|i pj pn el].
  - destruct (ai !! key); grown.
  - destruct (ai !! key) as [i|]; [|grown].
    destruct (Monitor.manifestObserved _ _ _ _ _ _ _ _); [|grown].
    destruct (progressInterval i); grown.
  - grown.
Qed.

Lemma monitorDiscovered_grows w s file : grows s (monitorDiscovered w s file).
Proof.
  destruct (in_dec string_dec (path_dirname file) (monitoredProjects s))
    as [Hin|Hnew].
  - rewrite monitorDiscovered_known by exact Hin. apply grows_refl.
  - rewrite (monitorDiscovered_new _ _ _ _ _ _ Hnew). cbv zeta. unfold grows.
    cbn [monitoredProjects watchers console]. grown.
Qed.

Lemma fold_grows w files :
  forall s, grows s (fold_left (monitorDiscovered w) files s).
Proof.
  induction files as [|f files IH]; intros s; [apply grows_refl|].
  eapply grows_trans; [apply monitorDiscovered_grows | apply IH].
Qed.

Lemma step_grows w e s : grows s (step w e s).
Proof.
  destruct e as [dirPath|fs projectPath dirPath|fs dirPath|id|files];
    cbn [Monitor.step].
  - unfold onGlobalAddDir. destruct (negb _); [|apply grows_refl].
    apply track_grows.
  - unfold onProjectAddDir. destruct (negb _); [|apply grows_refl].
    destruct (analyzeDependencyChain _ _ _ _ _); [|apply grows_refl].
    apply track_grows.
  - unfold onLocalAddDir. destruct (negb _); [|apply grows_refl].
    destruct (analyzeDependencyChain _ _ _ _ _); [|apply grows_refl].
    apply track_grows.
  - apply fireTimer_grows.
  - rewrite monitorAllDiscovered_fold. apply fold_grows.
Qed.

(** X12.  Nothing a run has registered, watched or printed is ever taken
    back: along any sequence of events the project set, the list of
    watches and the console keep what they held, in the same order, and
    only get longer.  In particular no project is unregistered and no
    watch is closed while the monitor runs. *)
Theorem X12_registry_only_grows
    (trace : list (World * Event)) (s : Monitor) :
  grows s (fold_left (fun st we => step (fst we) (snd we) st) trace s) /\
  (forall p, In p (monitoredProjects s) ->
             In p (monitoredProjects
                     (fold_left (fun st we => step (fst we) (snd we) st)
                                trace s))) /\
  (forall x, In x (watchers s) ->
             In x (watchers
                     (fold_left (fun st we => step (fst we) (snd we) st)
                                trace s))).
Proof.
  assert (H : grows s (fold_left (fun st we => step (fst we) (snd we) st)
                                 trace s)).
  { revert s. induction trace as [|[w e] trace IH]; intros s;
      [apply grows_refl|].
    cbn [fold_left fst snd].
    eapply grows_trans; [apply step_grows | apply IH]. }
  split; [exact H|].
  destruct H as ([ps Hp] & [ws Hw] & _). split.
  - intros p Hin. rewrite Hp. apply in_or_app. left. exact Hin.
  - intros x Hin. rewrite Hw. apply in_or_app. left. exact Hin.
Qed.

(** What one pass adds. *)
Lemma discovery_pass_new w files :
  forall s,
  exists new,
    monitoredProjects (fold_left (monitorDiscovered w) files s)
    = monitoredProjects s ++ new /\
    console (fold_left (monitorDiscovered w) files s)
    = console s ++ map (fun p => LineFoundProject (path_basename p)) new /\
    List.NoDup new /\
    (forall p, In p new <->
               In p (map path_dirname files) /\ ~ In p (monitoredProjects s)).
Proof.
  induction files as [|f files IH]; intros s.
  - exists []. cbn. rewrite !app_nil_r.
    split; [reflexivity|]. split; [reflexivity|]. split; [constructor|].
    intros p. split; [intros [] | intros [[] _]].
  - cbn [fold_left map].
    destruct (in_dec string_dec (path_dirname f) (monitoredProjects s))
      as [Hin|Hnew].
    + rewrite monitorDiscovered_known by exact Hin.
      destruct (IH s) as (new & Hp & Hc & Hnd & Hiff).
      exists new. split; [exact Hp|]. split; [exact Hc|].
      split; [exact Hnd|].
      intros p. rewrite Hiff. cbn [In]. split.
      * intros [H1 H2]. auto.
      * intros [[<-|H1] H2]; [contradiction | auto].
    + assert (Hmp : monitoredProjects (monitorDiscovered w s f)
                    = monitoredProjects s ++ [path_dirname f])
        by (rewrite (monitorDiscovered_new _ _ _ _ _ _ Hnew); reflexivity).
      assert (Hcs : console (monitorDiscovered w s f)
                    = console s
                      ++ [LineFoundProject (path_basename (path_dirname f))])
        by (rewrite (monitorDiscovered_new _ _ _ _ _ _ Hnew); reflexivity).
      destruct (IH (monitorDiscovered w s f)) as (new & Hp & Hc & Hnd & Hiff).
      rewrite Hmp in Hp, Hiff. rewrite Hcs in Hc.
      exists (path_dirname f :: new).
      split; [rewrite Hp, <- app_assoc; reflexivity|].
      split; [rewrite Hc, <- app_assoc; reflexivity|].
      split.
      * constructor; [|exact Hnd]. intros H. apply Hiff in H as [_ H].
        apply H, in_or_app. right. left. reflexivity.
      * intros p. cbn [In]. rewrite Hiff. split.
        -- intros [<-|[H1 H2]]; [auto|].
           split; [auto|]. intros H. apply H2, in_or_app. left. exact H.
        -- intros [[<-|H1] H2]; [auto|].
           destruct (string_dec (path_dirname f) p) as [->|Hne]; [auto|].
           right. split; [exact H1|]. intros H.
           apply in_app_or in H as [H|[H|[]]]; [contradiction|congruence].
Qed.


(** X13.  A discovery pass over the manifest files found registers the
    directories of those files that were not registered yet, each once,
    in the order of their first appearance, and prints one "Found
    project" line for each of them, in that order; it registers nothing
    else.  The files are taken five at a time, every one of them exactly
    once, whatever their number. *)
Theorem X13_discovery_pass (w : World) (files : list string) (s : Monitor) :
  monitorAllDiscovered w files s = fold_left (monitorDiscovered w) files s /\
  exists new,
    monitoredProjects (monitorAllDiscovered w files s)
    = monitoredProjects s ++ new /\
    console (monitorAllDiscovered w files s)
    = console s ++ map (fun p => LineFoundProject (path_basename p)) new /\
    List.NoDup new /\
    (forall p, In p new <->
               In p (map path_dirname files) /\ ~ In p (monitoredProjects s)).
Proof.
  split; [apply monitorAllDiscovered_fold|].
  rewrite monitorAllDiscovered_fold. apply discovery_pass_new.
Qed.

(** X16.  Registration and tracking do not touch each other's tables: a
    discovery pass leaves the installations, the bars and the timers as
    they are, and a detection or a timer leaves the project set and the
    watches as they are. *)
Theorem X16_registration_and_tracking_apart
    (w : World) (e : Event) (s : Monitor) :
  match e with
  | EvDiscovered _ => same_tracker s (step w e s)
  | _ => same_registry s (step w e s)
  end.
Proof.
  destruct e as [dirPath|fs projectPath dirPath|fs dirPath|id|files];
    cbn [Monitor.step].
  - unfold onGlobalAddDir. destruct (negb _); [|split; reflexivity].
    apply track_same_registry.
  - unfold onProjectAddDir. destruct (negb _); [|split; reflexivity].
    destruct (analyzeDependencyChain _ _ _ _ _); [|split; reflexivity].
    apply track_same_registry.
  - unfold onLocalAddDir. destruct (negb _); [|split; reflexivity].
    destruct (analyzeDependencyChain _ _ _ _ _); [|split; reflexivity].
    apply track_same_registry.
  - apply fireTimer_same_registry.
  - rewrite monitorAllDiscovered_fold. apply fold_same_tracker.
Qed.

Local Abbreviation monitorCurrentProject :=
  (Monitor.monitorCurrentProject path_join path_basename cwd).
Local Abbreviation startUniversalMonitoring :=
  (Startup.startUniversalMonitoring path_join path_basename path_dirname cwd).

Lemma current_project_registered w :
  monitoredProjects (monitorCurrentProject w initial)
  = if existsSync w "package.json" then [cwd] else [].
Proof.
  unfold Monitor.monitorCurrentProject.
  destruct (existsSync w "package.json"); [|reflexivity].
  rewrite watchProject_rest. reflexivity.
Qed.

(** X23.  The number of projects reported when universal monitoring has
    started is the number of different paths among the current
    directory, if it holds a manifest, and the directories of the
    manifest files the scan found: a path found twice, or the current
    directory found again by the scan under the same path, is counted
    once.  The project set then holds exactly those paths. *)
Theorem X23_reported_project_count
    (w1 w2 : World) (files : list string) :
  let current := if existsSync w1 "package.json" then [cwd] else [] in
  let found := current ++ map path_dirname files in
  snd (startUniversalMonitoring w1 w2 files initial)
  = length (nodup string_dec found) /\
  List.NoDup (monitoredProjects
                (fst (startUniversalMonitoring w1 w2 files initial))) /\
  (forall p,
      In p (monitoredProjects
              (fst (startUniversalMonitoring w1 w2 files initial)))
      <-> In p found).
Proof.
  cbv zeta. unfold Startup.startUniversalMonitoring. cbn [fst snd].
  rewrite monitorAllDiscovered_fold.
  destruct (discovery_pass_new w2 files (monitorCurrentProject w1 initial))
    as (new & Hp & _ & Hnd & Hiff).
  rewrite Hp, current_project_registered in *.
  set (current := if existsSync w1 "package.json" then [cwd] else []) in *.
  assert (Hcur : List.NoDup current).
  { subst current. destruct (existsSync w1 "package.json");
      repeat constructor. intros []. }
  assert (Hall : List.NoDup (current ++ new)).
  { apply List.NoDup_app; [exact Hcur | exact Hnd|].
    intros x Hx Hn. apply Hiff in Hn as [_ Hn]. contradiction. }
  assert (Hsame : forall p,
             In p (current ++ new) <->
             In p (current ++ map path_dirname files)).
  { intros p. rewrite !in_app_iff, Hiff.
    destruct (in_dec string_dec p current) as [Hc|Hc].
    - split; intros _; left; exact Hc.
    - split; intros [H|H]; try contradiction; right;
        first [exact (proj1 H) | split; assumption]. }
  split; [|split; [exact Hall | exact Hsame]].
  apply Permutation.Permutation_length, Permutation.NoDup_Permutation;
    [exact Hall | apply NoDup_nodup|].
  intros p. rewrite nodup_In. apply Hsame.
Qed.

End RegistryGrowth.

Section Detection.
Import JS ChainResolver Monitor Invariant.

Variable path_join : list string -> string.
Variable path_basename : string -> string.
Variable platform : string.
Variable APPDATA : option string.
Variable cwd : string.
Variable stackDepth : nat.

Local Abbreviation manifestObserved :=
  (Monitor.manifestObserved path_join path_basename platform APPDATA).
Local Abbreviation getGlobalNodeModulesPath :=
  (Monitor.getGlobalNodeModulesPath path_join platform APPDATA).
Local Abbreviation onGlobalAddDir := (Monitor.onGlobalAddDir path_basename).
Local Abbreviation onProjectAddDir :=
  (Monitor.onProjectAddDir path_join path_basename stackDepth).
Local Abbreviation onLocalAddDir :=
  (Monitor.onLocalAddDir path_join path_basename cwd stackDepth).

Lemma resolve_returns fs name proj :
  exists chain,
    analyzeDependencyChain path_join stackDepth fs name proj = Ret chain.
Proof.
  destruct (resolve_cases path_join stackDepth fs name proj)
    as [H|[[info H]|[H|H]]];
    rewrite H; eauto.
Qed.

(** After a detection the key has a record, unless the name starts with
    a dot. *)
Lemma track_tracked w packageName projectName chain s :
  is_Some (activeInstalls
             (trackInstallationWithProgress w packageName projectName chain s)
           !! compositeKey projectName packageName).
Proof.
  destruct (activeInstalls s !! compositeKey projectName packageName) eqn:E.
  - rewrite track_active by eauto. eauto.
  - rewrite (track_new _ _ _ _ _ E). cbn [activeInstalls].
    rewrite lookup_insert_eq. eauto.
Qed.

(** X14.  A detection is identified by the base name of the added
    directory and, for a project, by the base name of the project path;
    the directories above them play no part.  So right after a
    directory has been detected, the detection of a directory with the
    same base name (in the global store, in the local dependency
    directory, or in a project whose path has the same base name, be it
    another project) changes nothing, whatever is then on disk. *)
Theorem X14_detections_identified_by_base_names
    (w1 w2 : World) (d1 d2 : string) (s : Monitor) :
  path_basename d1 = path_basename d2 ->
  onGlobalAddDir w2 d2 (onGlobalAddDir w1 d1 s) = onGlobalAddDir w1 d1 s /\
  (forall fs1 fs2,
      onLocalAddDir fs2 w2 d2 (onLocalAddDir fs1 w1 d1 s)
      = onLocalAddDir fs1 w1 d1 s) /\
  (forall fs1 fs2 p1 p2,
      path_basename p1 = path_basename p2 ->
      onProjectAddDir fs2 w2 p2 d2 (onProjectAddDir fs1 w1 p1 d1 s)
      = onProjectAddDir fs1 w1 p1 d1 s).
Proof.
  intros Hd. split; [|split].
  - unfold Monitor.onGlobalAddDir. rewrite <- Hd.
    destruct (negb _); [|reflexivity].
    apply track_active, track_tracked.
  - intros fs1 fs2. unfold Monitor.onLocalAddDir. rewrite <- Hd.
    destruct (negb _); [|reflexivity].
    destruct (resolve_returns fs1 (path_basename d1) cwd) as [c1 ->].
    destruct (resolve_returns fs2 (path_basename d1) cwd) as [c2 ->].
    apply track_active, track_tracked.
  - intros fs1 fs2 p1 p2 Hp. unfold Monitor.onProjectAddDir.
    rewrite <- Hd, <- Hp.
    destruct (negb _); [|reflexivity].
    destruct (resolve_returns fs1 (path_basename d1) p1) as [c1 ->].
    destruct (resolve_returns fs2 (path_basename d1) p2) as [c2 ->].
    apply track_active, track_tracked.
Qed.

Lemma find_first {A} (f : A -> bool) before x after :
  Forall (fun y => f y = false) before -> f x = true ->
  List.find f (before ++ x :: after) = Some x.
Proof.
  induction 1 as [|y before Hy _ IH]; intros Hx; cbn [app List.find].
  - rewrite Hx. reflexivity.
  - rewrite Hy. apply IH, Hx.
Qed.

Lemma find_none {A} (f : A -> bool) l :
  Forall (fun y => f y = false) l -> List.find f l = None.
Proof.
  induction 1 as [|y l Hy _ IH]; cbn [List.find]; [reflexivity|].
  rewrite Hy. exact IH.
Qed.

(** X15.  Where the completion check looks for the installed package's
    manifest is decided by the project name alone.  For the names GLOBAL
    and LOCAL it is the global store and the dependency directory of the
    current directory.  For any other name it is the dependency
    directory of the first registered project path, in registration
    order, whose base name is that name: of two registered projects with
    the same base name only the first is ever looked at.  When no
    registered path has that base name the check finds nothing, whatever
    is on disk. *)
Theorem X15_completion_polled_by_project_name
    (w : World) (packageName : string) (s : Monitor) :
  manifestObserved w "GLOBAL" packageName s
  = existsSync w (path_join [getGlobalNodeModulesPath; packageName;
                             "package.json"]) /\
  manifestObserved w "LOCAL" packageName s
  = existsSync w (path_join ["node_modules"; packageName; "package.json"]) /\
  (forall projectName before first after,
      projectName <> "GLOBAL" -> projectName <> "LOCAL" ->
      monitoredProjects s = before ++ first :: after ->
      Forall (fun p => path_basename p <> projectName) before ->
      path_basename first = projectName ->
      manifestObserved w projectName packageName s
      = existsSync w (path_join [first; "node_modules"; packageName;
                                 "package.json"])) /\
  (forall projectName,
      projectName <> "GLOBAL" -> projectName <> "LOCAL" ->
      Forall (fun p => path_basename p <> projectName) (monitoredProjects s) ->
      manifestObserved w projectName packageName s = false).
Proof.
  unfold Monitor.manifestObserved, Monitor.packagePathOf.
  split; [reflexivity|]. split; [reflexivity|]. split.
  - intros pj before first after Hg Hl Hmp Hbefore Hfirst.
    rewrite (proj2 (String.eqb_neq pj "GLOBAL") Hg).
    rewrite (proj2 (String.eqb_neq pj "LOCAL") Hl).
    rewrite Hmp, (find_first _ before first after); [reflexivity| |].
    + eapply Forall_impl; [exact Hbefore|]. intros p Hp.
      apply String.eqb_neq, Hp.
    + apply String.eqb_eq, Hfirst.
  - intros pj Hg Hl Hall.
    rewrite (proj2 (String.eqb_neq pj "GLOBAL") Hg).
    rewrite (proj2 (String.eqb_neq pj "LOCAL") Hl).
    rewrite find_none; [reflexivity|].
    eapply Forall_impl; [exact Hall|]. intros p Hp.
    apply String.eqb_neq, Hp.
Qed.

(** X17.  A directory added to the dependency directory of a project is
    always tracked, unless its name starts with a dot or its key has a
    record already: the resolver never fails, so no state of the
    project's files makes the detection drop the installation.  The
    record carries the resolver's answer, and the new bar starts at 0
    with the status text of that answer; when the project's manifest
    cannot be read the status is "Installing...". *)
Theorem X17_project_detection_always_tracks
    (fs : FileSystem) (w : World) (projectPath dirPath : string)
    (s : Monitor) :
  let packageName := path_basename dirPath in
  let projectName := path_basename projectPath in
  let key := compositeKey projectName packageName in
  let s' := onProjectAddDir fs w projectPath dirPath s in
  JSString.startsWith packageName "." = false ->
  activeInstalls s !! key = None ->
  exists chain,
    analyzeDependencyChain path_join stackDepth fs packageName projectPath
    = Ret chain /\
    activeInstalls s' !! key
    = Some (mkInstall (now w) projectName chain (next_id s)
                      (Some (S (next_id s)))) /\
    multibar s' !! next_id s
    = Some (mkBar (num 0) packageName (getStatusText chain) "calculating...") /\
    console s' = console s ++ [LineInstalling projectName packageName chain] /\
    ((exists e, readJson fs (path_join [projectPath; "package.json"]) = Throw e) ->
     getStatusText chain = "Installing...").
Proof.
  cbv zeta. intros Hdot Hnew.
  destruct (resolve_returns fs (path_basename dirPath) projectPath)
    as [chain Hchain].
  exists chain. split; [exact Hchain|].
  unfold Monitor.onProjectAddDir. rewrite Hdot, Hchain. cbn [negb].
  rewrite (track_new _ _ _ _ _ Hnew). cbn [activeInstalls multibar console].
  rewrite !lookup_insert_eq.
  split; [reflexivity|]. split; [reflexivity|]. split; [reflexivity|].
  intros [e He]. revert Hchain. rewrite resolve_of_try.
  unfold analyzeDependencyChain_try. rewrite He, bind_Throw.
  intros [= <-]. reflexivity.
Qed.

End Detection.

Section DetectionRuns.
Import JS ChainResolver Monitor Invariant Growth Spec.

Local Abbreviation run_step :=
  (Monitor.step fixture_join fixture_basename fixture_dirname
                "linux" None "/home/u/app" fixture_stack).
Local Abbreviation run_register :=
  (Monitor.monitorDiscovered fixture_join fixture_basename fixture_dirname).
Local Abbreviation run_observed :=
  (Monitor.manifestObserved fixture_join fixture_basename "linux" None).

(** A registered project stays registered while a package is detected
    and its timers fire. *)
Lemma X12_registry_only_grows_witness :
  let w := fixture_world 0 ["/home/u/app/package.json"] in
  let s := run_register w initial "/home/u/app/package.json" in
  In "/home/u/app"
     (monitoredProjects
        (fold_left (fun st we => run_step (fst we) (snd we) st)
           [(w, EvGlobalAddDir "/usr/local/lib/node_modules/chalk");
            (w, EvTimer 1); (w, EvTimer 2)] s)).
Proof.
  cbv zeta.
  apply (proj1 (proj2 (X12_registry_only_grows fixture_join fixture_basename
                         fixture_dirname "linux" None "/home/u/app"
                         fixture_stack
                         [(fixture_world 0 ["/home/u/app/package.json"],
                           EvGlobalAddDir "/usr/local/lib/node_modules/chalk");
                          (fixture_world 0 ["/home/u/app/package.json"],
                           EvTimer 1);
                          (fixture_world 0 ["/home/u/app/package.json"],
                           EvTimer 2)]
                         (run_register
                            (fixture_world 0 ["/home/u/app/package.json"])
                            initial "/home/u/app/package.json")))).
  left. reflexivity.
Defined.

(** The directories [@a/core] and [@b/core] of the global store are one
    installation, [core]. *)
Lemma X14_same_base_name_witness :
  let w := fixture_world 0 [] in
  let s1 := Monitor.onGlobalAddDir fixture_basename w
              "/usr/local/lib/node_modules/@a/core" initial in
  Monitor.onGlobalAddDir fixture_basename w
    "/usr/local/lib/node_modules/@b/core" s1 = s1.
Proof.
  cbv zeta.
  apply (proj1 (X14_detections_identified_by_base_names fixture_join
                  fixture_basename "/home/u/app" fixture_stack
                  (fixture_world 0 []) (fixture_world 0 [])
                  "/usr/local/lib/node_modules/@a/core"
                  "/usr/local/lib/node_modules/@b/core" initial eq_refl)).
Defined.

(** Two registered projects called [app]: an installation detected in
    either is looked for under the first. *)
Lemma X15_first_project_of_the_name_witness :
  let w := fixture_world 0 ["/a/app/package.json"; "/b/app/package.json"] in
  let s := run_register w (run_register w initial "/a/app/package.json")
             "/b/app/package.json" in
  monitoredProjects s = ["/a/app"; "/b/app"] /\
  forall w',
    run_observed w' "app" "chalk" s
    = existsSync w' "/a/app/node_modules/chalk/package.json".
Proof.
  cbv zeta. split; [reflexivity|]. intros w'.
  apply (proj1 (proj2 (proj2
           (X15_completion_polled_by_project_name fixture_join
              fixture_basename "linux" None w' "chalk"
              (run_register
                 (fixture_world 0 ["/a/app/package.json"; "/b/app/package.json"])
                 (run_register
                    (fixture_world 0 ["/a/app/package.json";
                                      "/b/app/package.json"])
                    initial "/a/app/package.json")
                 "/b/app/package.json")))))
         with (before := []) (first := "/a/app") (after := ["/b/app"]);
    first [discriminate | reflexivity | constructor].
Defined.

(** A project whose manifest cannot be read: the package is tracked all
    the same. *)
Lemma X17_project_detection_witness :
  let s' := Monitor.onProjectAddDir fixture_join fixture_basename fixture_stack
              (fixture_fs []) (fixture_world 5 [])
              "/home/u/app" "/home/u/app/node_modules/chalk" initial in
  exists chain,
    analyzeDependencyChain fixture_join fixture_stack (fixture_fs []) "chalk"
      "/home/u/app"
    = Ret chain /\
    activeInstalls s' !! "app:chalk"
    = Some (mkInstall 5 "app" chain 0 (Some 1)) /\
    multibar s' !! 0
    = Some (mkBar (num 0) "chalk" (getStatusText chain) "calculating...") /\
    console s' = [LineInstalling "app" "chalk" chain] /\
    ((exists e, readJson (fixture_fs []) "/home/u/app/package.json" = Throw e) ->
     getStatusText chain = "Installing...").
Proof.
  cbv zeta.
  exact (X17_project_detection_always_tracks fixture_join fixture_basename
           fixture_stack (fixture_fs []) (fixture_world 5 [])
           "/home/u/app" "/home/u/app/node_modules/chalk" initial
           eq_refl eq_refl).
Defined.

End DetectionRuns.

Section Keys.
Import JSString Monitor.

Lemma includes_colon_cons c s :
  includes (String c s) ":" = false ->
  c <> ":"%char /\ includes s ":" = false.
Proof.
  unfold includes. rewrite indexOf_cons. cbn [startsWith].
  destruct (Ascii.eqb_spec ":" c) as [<-|Hne]; [discriminate|].
  destruct (indexOf s ":"); [discriminate|]. intros _.
  split; [congruence | reflexivity].
Qed.

Lemma compositeKey_inj p1 :
  forall p2 k1 k2,
    includes p1 ":" = false -> includes p2 ":" = false ->
    compositeKey p1 k1 = compositeKey p2 k2 -> p1 = p2 /\ k1 = k2.
Proof.
  unfold compositeKey.
  induction p1 as [|c p1 IH]; intros [|c' p2] k1 k2 H1 H2;
    repeat first [rewrite append_cons | rewrite append_nil_l].
  - intros [= ->]. split; reflexivity.
  - intros [= <- _].
    apply includes_colon_cons in H2 as [Hc _]. contradiction.
  - intros [= -> _].
    apply includes_colon_cons in H1 as [Hc _]. contradiction.
  - intros [= <- Heq].
    apply includes_colon_cons in H1 as [_ H1].
    apply includes_colon_cons in H2 as [_ H2].
    destruct (IH _ _ _ H1 H2 Heq) as [-> ->]. split; reflexivity.
Qed.

(** X24.  The key [`${projectName}:${packageName}`] tells project and
    package apart as long as project names hold no colon: two pairs with
    colon-free project names and the same key are the same pair.  With a
    colon in a project name two different pairs can have one key, and
    the detection of the second is then taken for a repetition of the
    first. *)
Theorem X24_keys_of_colon_free_projects
    (w1 w2 : World) (chain1 chain2 : ChainResolver.ChainInfo) (s : Monitor) :
  (forall p1 p2 k1 k2,
      includes p1 ":" = false -> includes p2 ":" = false ->
      compositeKey p1 k1 = compositeKey p2 k2 -> p1 = p2 /\ k1 = k2) /\
  compositeKey "a:b" "c" = compositeKey "a" "b:c" /\
  trackInstallationWithProgress w2 "b:c" "a" chain2
    (trackInstallationWithProgress w1 "c" "a:b" chain1 s)
  = trackInstallationWithProgress w1 "c" "a:b" chain1 s.
Proof.
  split; [intros p1 p2 k1 k2; apply compositeKey_inj|].
  split; [reflexivity|].
  apply track_active.
  change (compositeKey "a" "b:c") with (compositeKey "a:b" "c").
  apply track_tracked.
Qed.

End Keys.

Section KeysRuns.
Import JSString Monitor Spec.

(** The same key from the same colon-free project name: the same
    package. *)
Lemma X24_keys_witness :
  ("app" = "app" /\ "chalk" = "chalk") /\
  compositeKey "a:b" "c" = compositeKey "a" "b:c".
Proof.
  split.
  - apply (proj1 (X24_keys_of_colon_free_projects
                    (fixture_world 0 []) (fixture_world 0 [])
                    ChainResolver.userRequested ChainResolver.userRequested
                    initial)
             "app" "app" "chalk" "chalk"); reflexivity.
  - apply (proj1 (proj2 (X24_keys_of_colon_free_projects
                           (fixture_world 0 []) (fixture_world 0 [])
                           ChainResolver.userRequested
                           ChainResolver.userRequested initial))).
Defined.

End KeysRuns.

Section ChainTexts.
Import JS ChainResolver Monitor Texts.

Variable path_join : list string -> string.
Variable stackDepth : nat.

(** X27.  The texts written for what the resolver answers.  An answer
    with no parent that is not UserRequested is written with the word
    "null": an installation of unknown origin is announced with
    "(analyzing...)" and the status "Installing...", and reported at its
    end with "(dep of null)"; a dependency found at the top of the lock
    file's tree has the status "Dep of null", is announced with
    "(dependency of null)" and reported with "(dep of null)", while its
    reason reads "Dependency of unknown package". *)
Theorem X27_texts_of_a_chain_without_parent
    (fs : FileSystem) (name proj projectName : string) (chain : ChainInfo) :
  analyzeDependencyChain path_join stackDepth fs name proj = Ret chain ->
  (type chain = UserRequested ->
   chainText chain = " (user requested)" /\
   getStatusText chain = "User Package") /\
  (type chain = Unknown ->
   chainText chain = " (dep of null)" /\
   getStatusText chain = "Installing..." /\
   exists prefix,
     formatChainInfo name chain projectName
     = (prefix ++ " Installing: " ++ name ++ " (analyzing...)")%string) /\
  (type chain = Dependency -> parent chain = None ->
   chainText chain = " (dep of null)" /\
   getStatusText chain = "Dep of null" /\
   reason chain = "Dependency of unknown package" /\
   exists prefix,
     formatChainInfo name chain projectName
     = (prefix ++ " Installing: " ++ name ++ " (dependency of null)")%string).
Proof.
  intros H.
  destruct (resolve_cases path_join stackDepth fs name proj)
    as [E|[[[found] E]|[E|E]]];
    rewrite E in H; injection H as <-.
  - split; [intros _; split; reflexivity|].
    split; [discriminate|discriminate].
  - split; [discriminate|]. split; [discriminate|].
    intros _ Hp. cbn [parent dependencyOf info_parent] in Hp. subst found.
    split; [reflexivity|]. split; [reflexivity|]. split; [reflexivity|].
    eexists. reflexivity.
  - split; [discriminate|]. split; [|discriminate].
    intros _. split; [reflexivity|]. split; [reflexivity|].
    eexists. reflexivity.
  - split; [discriminate|]. split; [|discriminate].
    intros _. split; [reflexivity|]. split; [reflexivity|].
    eexists. reflexivity.
Qed.

End ChainTexts.

Section ChainTextsRuns.
Import JS ChainResolver Monitor Texts Spec.

(** [b] stands at the top of the lock file's tree and is not in the
    manifest. *)
Lemma X27_texts_witness :
  let fs := fixture_fs
              [("proj/package.json", Ret (JObj []));
               ("proj/package-lock.json",
                Ret (JObj [("dependencies", JObj [("b", JObj [])])]))] in
  analyzeDependencyChain fixture_join fixture_stack fs "b" "proj"
  = Ret (mkChainInfo Dependency None "Dependency of unknown package") /\
  chainText (mkChainInfo Dependency None "Dependency of unknown package")
  = " (dep of null)" /\
  getStatusText (mkChainInfo Dependency None "Dependency of unknown package")
  = "Dep of null".
Proof.
  cbv zeta. split; [reflexivity|].
  destruct (proj2 (proj2
              (X27_texts_of_a_chain_without_parent fixture_join fixture_stack
                 (fixture_fs
                    [("proj/package.json", Ret (JObj []));
                     ("proj/package-lock.json",
                      Ret (JObj [("dependencies", JObj [("b", JObj [])])]))])
                 "b" "proj" "proj"
                 (mkChainInfo Dependency None "Dependency of unknown package")
                 eq_refl))
              eq_refl eq_refl)
    as (H1 & H2 & _).
  split; [exact H1 | exact H2].
Defined.

End ChainTextsRuns.

(* ===================================================================== *)
(** * The completion poll *)
(* ===================================================================== *)

Section CompletionPoll.
Import JS ChainResolver Monitor Invariant Lifecycle Growth.

Variable path_join : list string -> string.
Variable path_basename : string -> string.
Variable path_dirname : string -> string.
Variable platform : string.
Variable APPDATA : option string.
Variable cwd : string.
Variable stackDepth : nat.

Local Abbreviation manifestObserved :=
  (Monitor.manifestObserved path_join path_basename platform APPDATA).
Local Abbreviation checkComplete :=
  (Monitor.checkComplete path_join path_basename platform APPDATA).
Local Abbreviation fireTimer :=
  (Monitor.fireTimer path_join path_basename platform APPDATA).
Local Abbreviation step :=
  (Monitor.step path_join path_basename path_dirname platform APPDATA cwd
                stackDepth).
Local Abbreviation reachable :=
  (Monitor.reachable path_join path_basename path_dirname platform APPDATA
                     cwd stackDepth).
Local Abbreviation polled :=
  (Invariant.polled path_join path_basename platform APPDATA).

(** *** The file a check looks for *)

Lemma find_split {A} (f : A -> bool) l x :
  List.find f l = Some x ->
  exists before after,
    l = before ++ x :: after /\
    Forall (fun y => f y = false) before /\ f x = true.
Proof.
  induction l as [|y l IH]; cbn [List.find]; [discriminate|].
  destruct (f y) eqn:Hy.
  - intros [= ->]. exists [], l. repeat split; [constructor | exact Hy].
  - intros H. destruct (IH H) as (before & after & -> & Hb & Hx).
    exists (y :: before), after. repeat split; [constructor|]; assumption.
Qed.

Lemma polled_path s projectName packageName p :
  polled s projectName packageName p ->
  packagePathOf path_join path_basename platform APPDATA
    projectName packageName s = Some p.
Proof.
  unfold packagePathOf.
  intros [->| ->|before first after Hg Hl Hmp Hbefore Hfirst];
    [reflexivity | reflexivity |].
  rewrite (proj2 (String.eqb_neq projectName "GLOBAL") Hg).
  rewrite (proj2 (String.eqb_neq projectName "LOCAL") Hl).
  rewrite Hmp, (find_first _ before first after); [reflexivity| |].
  - eapply Forall_impl; [exact Hbefore|]. intros q Hq.
    apply String.eqb_neq, Hq.
  - apply String.eqb_eq, Hfirst.
Qed.

Lemma path_polled s projectName packageName p :
  packagePathOf path_join path_basename platform APPDATA
    projectName packageName s = Some p ->
  polled s projectName packageName p.
Proof.
  unfold packagePathOf.
  destruct (String.eqb_spec projectName "GLOBAL") as [Hg|Hg];
    [intros [= <-]; apply polled_global, Hg|].
  destruct (String.eqb_spec projectName "LOCAL") as [Hl|Hl];
    [intros [= <-]; apply polled_local, Hl|].
  destruct (List.find _ (monitoredProjects s)) as [first|] eqn:Hfind;
    [|discriminate].
  intros [= <-].
  destruct (find_split _ _ _ Hfind) as (before & after & Hmp & Hb & Hx).
  eapply polled_project; try eassumption.
  - eapply Forall_impl; [exact Hb|]. intros q Hq.
    apply String.eqb_neq, Hq.
  - apply String.eqb_eq, Hx.
Qed.

(** A check observes the manifest exactly when the file it looks for
    exists. *)
Lemma polled_observed w s projectName packageName p :
  polled s projectName packageName p ->
  manifestObserved w projectName packageName s = existsSync w p.
Proof.
  intros H. unfold Monitor.manifestObserved.
  rewrite (polled_path _ _ _ _ H). reflexivity.
Qed.

Lemma observed_polled w s projectName packageName :
  manifestObserved w projectName packageName s = true ->
  exists p, polled s projectName packageName p /\ existsSync w p = true.
Proof.
  unfold Monitor.manifestObserved.
  destruct (packagePathOf _ _ _ _ _ _ s) as [p|] eqn:Hp; [|discriminate].
  intros H. exists p. split; [apply path_polled, Hp | exact H].
Qed.

Lemma unobserved w s projectName packageName :
  (forall p, polled s projectName packageName p -> existsSync w p = false) ->
  manifestObserved w projectName packageName s = false.
Proof.
  intros H. destruct (manifestObserved w projectName packageName s) eqn:E;
    [|reflexivity].
  destruct (observed_polled _ _ _ _ E) as (p & Hp & Hex).
  rewrite (H p Hp) in Hex. discriminate.
Qed.

(** The file looked for does not change while the run goes on: projects
    are only ever added after those registered. *)
Lemma polled_grows s s' projectName packageName p :
  grows s s' ->
  polled s projectName packageName p -> polled s' projectName packageName p.
Proof.
  intros [[projects Hmp] _]
         [Hg|Hl|before first after Hg Hl Hs Hbefore Hfirst].
  - apply polled_global, Hg.
  - apply polled_local, Hl.
  - apply (polled_project _ _ _ _ _ _ _ before first (after ++ projects));
      try assumption.
    rewrite Hmp, Hs, <- app_assoc. reflexivity.
Qed.

(** *** A pending check stays pending *)

Lemma track_timer_kept w packageName projectName chain s id t :
  tracker_inv s ->
  timers s !! id = Some t ->
  timers (trackInstallationWithProgress w packageName projectName chain s)
    !! id = Some t.
Proof.
  intros Hinv Ht.
  destruct (activeInstalls s !! compositeKey projectName packageName) eqn:E.
  - rewrite track_active by eauto. exact Ht.
  - rewrite (track_new _ _ _ _ _ E). cbn [timers].
    pose proof (inv_fresh_timers _ Hinv _ _ Ht) as Hlt.
    rewrite !lookup_insert_ne by lia. exact Ht.
Qed.

(** Firing another timer leaves a completion check where it is. *)
Lemma fireTimer_check_kept w id' s id t key packageName projectName :
  tracker_inv s ->
  timers s !! id = Some t ->
  callback t = CheckComplete key packageName projectName ->
  id' <> id ->
  timers (fireTimer w id' s) !! id = Some t.
Proof.
  intros Hinv Ht Hcb Hne.
  pose proof (inv_fresh_timers _ Hinv _ _ Ht) as Hlt.
  destruct (timers s !! id') as [t'|] eqn:Ht';
    [|unfold Monitor.fireTimer; rewrite Ht'; exact Ht].
  destruct (callback t') as [k pn i|k pn pj|i pj pn el] eqn:Hcb'.
  - rewrite (fireTimer_tick _ _ _ _ _ _ _ _ _ _ _ Ht' Hcb').
    unfold progressTick. destruct (activeInstalls s !! k);
      cbn [timers set_timers set_multibar]; [exact Ht|].
    rewrite lookup_delete_ne by exact Hne. exact Ht.
  - rewrite (fireTimer_check _ _ _ _ _ _ _ _ _ _ _ Ht' Hcb').
    destruct (activeInstalls s !! k) as [i|] eqn:Hk.
    + destruct (manifestObserved w pj pn (set_timers (delete id') s))
        eqn:Hobs.
      * rewrite (checkComplete_done _ _ _ _ _ _ _ _ i) by assumption.
        cbn [timers set_timers next_id].
        rewrite lookup_insert_ne by lia.
        destruct (progressInterval i) as [tid|] eqn:Hint.
        -- rewrite !lookup_delete_ne; [exact Ht | exact Hne |].
           intros ->.
           destruct (inv_interval_is_tick _ Hinv _ _ _ _ Hk Hint Ht)
             as (pn' & sn & Htick).
           congruence.
        -- rewrite lookup_delete_ne by exact Hne. exact Ht.
      * rewrite (checkComplete_waiting _ _ _ _ _ _ _ _ i) by assumption.
        destruct s as [ai pb mb tm n mp ws cs]. monitor_cbv.
        rewrite lookup_insert_ne by lia.
        rewrite lookup_delete_ne by exact Hne. exact Ht.
    + rewrite checkComplete_inactive by assumption.
      cbn [timers set_timers].
      rewrite lookup_delete_ne by exact Hne. exact Ht.
  - unfold Monitor.fireTimer. rewrite Ht', Hcb'. unfold retireBar.
    cbn [timers log set_multibar set_timers].
    rewrite lookup_delete_ne by exact Hne. exact Ht.
Qed.

Lemma observed_without_timer w id s projectName packageName :
  manifestObserved w projectName packageName (set_timers (delete id) s)
  = manifestObserved w projectName packageName s.
Proof. reflexivity. Qed.

(** A check that does not observe the manifest is scheduled again, and
    whatever else happens leaves it pending. *)
Lemma step_check_kept w e s key install id t packageName projectName :
  reachable s ->
  activeInstalls s !! key = Some install ->
  timers s !! id = Some t ->
  callback t = CheckComplete key packageName projectName ->
  manifestObserved w projectName packageName s = false ->
  exists id' t',
    timers (step w e s) !! id' = Some t' /\
    callback t' = CheckComplete key packageName projectName.
Proof.
  intros Hreach Hact Ht Hcb Hobs.
  destruct (reachable_invariant _ _ _ _ _ _ _ _ Hreach) as [Hinv _].
  destruct e as [dirPath|fs projectPath dirPath|fs dirPath|id'|files];
    cbn [Monitor.step].
  - exists id, t. split; [|exact Hcb].
    unfold onGlobalAddDir. destruct (negb _); [|exact Ht].
    apply track_timer_kept; assumption.
  - exists id, t. split; [|exact Hcb].
    unfold onProjectAddDir. destruct (negb _); [|exact Ht].
    destruct (analyzeDependencyChain _ _ _ _ _); [|exact Ht].
    apply track_timer_kept; assumption.
  - exists id, t. split; [|exact Hcb].
    unfold onLocalAddDir. destruct (negb _); [|exact Ht].
    destruct (analyzeDependencyChain _ _ _ _ _); [|exact Ht].
    apply track_timer_kept; assumption.
  - destruct (decide (id' = id)) as [->|Hne].
    + rewrite (fireTimer_check _ _ _ _ _ _ _ _ _ _ _ Ht Hcb).
      rewrite (checkComplete_waiting _ _ _ _ _ _ _ _ install);
        [|exact Hact|rewrite observed_without_timer; exact Hobs].
      exists (next_id s),
        (mkTimer 300 false (CheckComplete key packageName projectName)).
      split; [|reflexivity].
      destruct s as [ai pb mb tm n mp ws cs]. monitor_cbv.
      apply lookup_insert_eq.
    + exists id, t. split; [|exact Hcb].
      eapply fireTimer_check_kept; eassumption.
  - exists id, t. split; [|exact Hcb].
    rewrite monitorAllDiscovered_fold.
    destruct (fold_same_tracker path_join path_basename path_dirname
                w files s) as (_ & _ & _ & -> & _).
    exact Ht.
Qed.

(** While the file looked for does not exist, the record stays, the
    check stays pending and the file looked for stays the same. *)
Lemma absent_never_done key install packageName projectName p
    (trace : list (World * Event)) :
  forall s id t,
    reachable s ->
    activeInstalls s !! key = Some install ->
    timers s !! id = Some t ->
    callback t = CheckComplete key packageName projectName ->
    polled s projectName packageName p ->
    Forall (fun we => existsSync (fst we) p = false) trace ->
    let s' := fold_left (fun st we => step (fst we) (snd we) st) trace s in
    reachable s' /\
    activeInstalls s' !! key = Some install /\
    polled s' projectName packageName p /\
    exists id' t',
      timers s' !! id' = Some t' /\
      callback t' = CheckComplete key packageName projectName.
Proof.
  induction trace as [|[w e] trace IH];
    intros s id t Hreach Hact Ht Hcb Hp Hnever; cbv zeta.
  { repeat split; eauto. }
  inversion Hnever as [|? ? Hhead Htail]; subst. cbn [fst] in Hhead.
  cbn [fold_left fst snd].
  assert (Hobs : manifestObserved w projectName packageName s = false)
    by (rewrite (polled_observed w _ _ _ _ Hp); exact Hhead).
  assert (Hkeep : activeInstalls (step w e s) !! key = Some install).
  { destruct (step_keeps_or_completes path_join path_basename path_dirname
                platform APPDATA cwd stackDepth w e s key install Hact)
      as [Hkeep|[(id0 & t0 & pn0 & pj0 & i0 & -> & Ht0 & Hcb0 & _ & Hobs0) _]];
      [exact Hkeep|].
    pose proof (inv_check_unique _ (reachable_poll _ _ _ _ _ _ _ _ Hreach)
                  _ _ _ _ _ _ _ _ _ Ht0 Ht Hcb0 Hcb) as ->.
    rewrite Ht in Ht0. injection Ht0 as <-.
    rewrite Hcb in Hcb0. injection Hcb0 as <- <-.
    rewrite Hobs in Hobs0. discriminate. }
  destruct (step_check_kept w e s key install id t packageName projectName
              Hreach Hact Ht Hcb Hobs) as (id1 & t1 & Ht1 & Hcb1).
  apply (IH (step w e s) id1 t1);
    [apply reachable_step; exact Hreach | exact Hkeep | exact Ht1 | exact Hcb1
    | | exact Htail].
  eapply polled_grows; [|exact Hp].
  apply (step_grows path_join path_basename path_dirname platform APPDATA cwd
           stackDepth).
Qed.

(** C7.  A detection schedules the first completion check 500 ms later.
    In every state of a run an installation being tracked has exactly one
    completion check pending, under the key of the project and package
    it was scheduled for.  The check looks for one file: the package's
    manifest in the global store for the project name GLOBAL, in the
    dependency directory of the current directory for LOCAL, otherwise
    in the dependency directory of the first monitored project whose base
    name is the project name.  When the check fires and that file exists,
    the check itself sets the bar to 100, deletes the record and the
    indicator entry and leaves no percentage tick of the key; the bar
    stays on display, and a timer of 1000 ms is scheduled whose firing
    removes it.  When the file does not exist, or no file is looked for,
    nothing changes except that the check is scheduled again 300 ms
    later.  Nothing but a check that finds the file removes the record:
    while the file does not exist, the record stays, a check stays
    pending and the file looked for stays the same, without any bound. *)
Theorem C7_completion_poll (s : Monitor) :
  reachable s ->
  (forall w packageName projectName chain,
      activeInstalls s !! compositeKey projectName packageName = None ->
      timers (trackInstallationWithProgress w packageName projectName chain s)
        !! S (S (next_id s))
      = Some (mkTimer 500 false
                (CheckComplete (compositeKey projectName packageName)
                               packageName projectName))) /\
  (forall key install,
      activeInstalls s !! key = Some install ->
      (exists tid t, timers s !! tid = Some t /\ is_check_for key t) /\
      (forall id t packageName projectName,
          timers s !! id = Some t ->
          callback t = CheckComplete key packageName projectName ->
          key = compositeKey projectName packageName /\
          (forall id' t' packageName' projectName',
              timers s !! id' = Some t' ->
              callback t' = CheckComplete key packageName' projectName' ->
              id' = id) /\
          (forall w p,
              polled s projectName packageName p ->
              existsSync w p = true ->
              let s' := fireTimer w id s in
              activeInstalls s' !! key = None /\
              progressBars s' !! key = None /\
              bar_value <$> multibar s' !! progressBar install
                = Some (num 100) /\
              (forall tid t', timers s' !! tid = Some t' ->
                              ~ is_tick_for key t') /\
              timers s' !! next_id s
                = Some (mkTimer 1000 false
                          (RetireBar install projectName packageName
                             (now w - startTime install))) /\
              (forall w', multibar (fireTimer w' (next_id s) s')
                            !! progressBar install = None)) /\
          (forall w,
              (forall p, polled s projectName packageName p ->
                         existsSync w p = false) ->
              let s' := fireTimer w id s in
              activeInstalls s' = activeInstalls s /\
              progressBars s' = progressBars s /\
              multibar s' = multibar s /\
              timers s' !! id = None /\
              timers s' !! next_id s
                = Some (mkTimer 300 false
                          (CheckComplete key packageName projectName))) /\
          (forall w e,
              activeInstalls (step w e s) !! key = Some install \/
              (e = EvTimer id /\
               (exists p, polled s projectName packageName p /\
                          existsSync w p = true) /\
               activeInstalls (step w e s) !! key = None)) /\
          (forall p (trace : list (World * Event)),
              polled s projectName packageName p ->
              Forall (fun we => existsSync (fst we) p = false) trace ->
              let s' := fold_left (fun st we => step (fst we) (snd we) st)
                                  trace s in
              activeInstalls s' !! key = Some install /\
              polled s' projectName packageName p /\
              exists tid t',
                timers s' !! tid = Some t' /\
                callback t' = CheckComplete key packageName projectName /\
                repeating t' = false /\
                (delay t' = 500%Z \/ delay t' = 300%Z)))).
Proof.
  intros Hreach.
  destruct (reachable_invariant _ _ _ _ _ _ _ _ Hreach) as [Hinv _].
  pose proof (reachable_poll _ _ _ _ _ _ _ _ Hreach) as Hpoll.
  split.
  { intros w pn pj chain E. rewrite (track_new _ _ _ _ _ E).
    cbn [timers]. apply lookup_insert_eq. }
  intros key install Hact.
  split; [exact (inv_check_pending _ Hinv _ _ Hact)|].
  intros id t pn pj Ht Hcb.
  assert (Huniq : forall id' t' pn' pj',
             timers s !! id' = Some t' ->
             callback t' = CheckComplete key pn' pj' -> id' = id).
  { intros id' t' pn' pj' Ht' Hcb'.
    exact (inv_check_unique _ Hpoll _ _ _ _ _ _ _ _ _ Ht' Ht Hcb' Hcb). }
  split; [exact (reachable_checks_keyed _ _ _ _ _ _ _ _ Hreach _ _ _ _ _ Ht Hcb)|].
  split; [exact Huniq|].
  split; [|split; [|split]].
  - intros w p Hp Hex. cbv zeta.
    assert (Hobs : manifestObserved w pj pn s = true)
      by (rewrite (polled_observed w _ _ _ _ Hp); exact Hex).
    rewrite (fireTimer_check _ _ _ _ _ _ _ _ _ _ _ Ht Hcb).
    rewrite (checkComplete_done _ _ _ _ _ _ _ _ install) by assumption.
    destruct (inv_bar_present _ Hinv _ _ Hact) as [bar Hbar].
    cbn [activeInstalls progressBars multibar timers next_id set_timers].
    split; [apply lookup_delete_eq|]. split; [apply lookup_delete_eq|].
    split; [rewrite lookup_alter_eq, Hbar; reflexivity|].
    split; [|split; [apply lookup_insert_eq|]].
    + intros tid t' H (pn' & sn & Htk).
      apply lookup_insert_Some in H as [[<- <-]|[_ H]]; [discriminate|].
      assert (H0 : timers s !! tid = Some t' /\
                   progressInterval install <> Some tid).
      { destruct (progressInterval install) as [ti|].
        - apply lookup_delete_Some in H as [Hne H].
          apply lookup_delete_Some in H as [_ H]. split; congruence.
        - apply lookup_delete_Some in H as [_ H]. split; congruence. }
      destruct H0 as [H0 Hni].
      destruct (inv_ticks_owned _ Hinv _ _ _ _ _ H0 Htk)
        as (i & Hi & Hint & _).
      rewrite Hact in Hi. injection Hi as <-. contradiction.
    + intros w'. unfold Monitor.fireTimer at 1.
      cbn [timers]. rewrite lookup_insert_eq. cbn [callback].
      unfold retireBar. cbn [multibar log set_multibar set_timers].
      apply lookup_delete_eq.
  - intros w Habsent. cbv zeta.
    pose proof (unobserved w s pj pn Habsent) as Hobs.
    rewrite (fireTimer_check _ _ _ _ _ _ _ _ _ _ _ Ht Hcb).
    rewrite (checkComplete_waiting _ _ _ _ _ _ _ _ install) by assumption.
    pose proof (inv_fresh_timers _ Hinv _ _ Ht) as Hlt.
    destruct s as [ai pb mb tm n mp ws cs]. monitor_cbv.
    repeat split.
    + rewrite lookup_insert_ne by lia. apply lookup_delete_eq.
    + apply lookup_insert_eq.
  - intros w e.
    destruct (step_keeps_or_completes path_join path_basename path_dirname
                platform APPDATA cwd stackDepth w e s key install Hact)
      as [Hkeep|[(id0 & t0 & pn0 & pj0 & i0 & -> & Ht0 & Hcb0 & _ & Hobs0)
                 Hgone]];
      [left; exact Hkeep|].
    right. pose proof (Huniq _ _ _ _ Ht0 Hcb0) as ->.
    rewrite Ht in Ht0. injection Ht0 as <-.
    rewrite Hcb in Hcb0. injection Hcb0 as <- <-.
    split; [reflexivity|]. split; [|exact Hgone].
    apply observed_polled, Hobs0.
  - intros p trace Hp Hnever. cbv zeta.
    destruct (absent_never_done key install pn pj p trace s id t
                Hreach Hact Ht Hcb Hp Hnever)
      as (Hreach' & H1 & H2 & id' & t' & Ht' & Hcb').
    split; [exact H1|]. split; [exact H2|].
    exists id', t'. split; [exact Ht'|]. split; [exact Hcb'|].
    destruct (reachable_invariant _ _ _ _ _ _ _ _ Hreach') as [Hinv' _].
    destruct (inv_check_pending _ Hinv' _ _ H1)
      as (tid & t0 & Ht0 & pn0 & pj0 & Hcb0 & Hrep & Hdelay).
    pose proof (inv_check_unique _ (reachable_poll _ _ _ _ _ _ _ _ Hreach')
                  _ _ _ _ _ _ _ _ _ Ht0 Ht' Hcb0 Hcb') as ->.
    rewrite Ht' in Ht0. injection Ht0 as <-.
    split; [exact Hrep | exact Hdelay].
Qed.

End CompletionPoll.

Section CompletionRuns.
Import JS ChainResolver Monitor Invariant Spec.

Local Abbreviation run_step :=
  (Monitor.step fixture_join fixture_basename fixture_dirname
                "linux" None "/home/u/app" fixture_stack).
Local Abbreviation run_fire :=
  (Monitor.fireTimer fixture_join fixture_basename "linux" None).
Local Abbreviation run_register :=
  (Monitor.monitorDiscovered fixture_join fixture_basename fixture_dirname).

(** The completion check of [chalk], detected in the global store, fires
    when the manifest is there: the record is gone, the bar shows 100 and
    its removal is scheduled a second later. *)
Lemma C7_chalk_done_witness :
  let s1 := run_step (fixture_world 0 [])
              (EvGlobalAddDir "/usr/local/lib/node_modules/chalk") initial in
  let w := fixture_world 500
             ["/usr/local/lib/node_modules/chalk/package.json"] in
  activeInstalls (run_fire w 2 s1) !! "GLOBAL:chalk" = None /\
  bar_value <$> multibar (run_fire w 2 s1) !! 0 = Some (num 100) /\
  timers (run_fire w 2 s1) !! 3
  = Some (mkTimer 1000 false
            (RetireBar (mkInstall 0 "GLOBAL" globalChain 0 (Some 1))
                       "GLOBAL" "chalk" 500)).
Proof.
  cbv zeta.
  destruct (C7_completion_poll fixture_join fixture_basename
              fixture_dirname "linux" None "/home/u/app" fixture_stack _
              (reachable_step _ _ _ _ _ _ _ (fixture_world 0 [])
                 (EvGlobalAddDir "/usr/local/lib/node_modules/chalk") initial
                 (reachable_initial _ _ _ _ _ _ _)))
    as (_ & H).
  destruct (H "GLOBAL:chalk" (mkInstall 0 "GLOBAL" globalChain 0 (Some 1))
              eq_refl)
    as (_ & Hcheck).
  destruct (Hcheck 2 (mkTimer 500 false
                        (CheckComplete "GLOBAL:chalk" "chalk" "GLOBAL"))
                   "chalk" "GLOBAL" eq_refl eq_refl)
    as (_ & _ & Hdone & _).
  destruct (Hdone (fixture_world 500
                     ["/usr/local/lib/node_modules/chalk/package.json"])
                  _ (polled_global _ _ _ _ _ _ _ eq_refl) eq_refl)
    as (H1 & _ & H2 & _ & H3 & _).
  split; [exact H1|]. split; [exact H2 | exact H3].
Defined.

(** C7 as stated fails in two ways.  The record is not deleted after the
    linger but by the successful check itself: right after the check of
    [chalk] has found the manifest, the record and the indicator entry
    are gone while the bar is still on display, at 100, with its removal
    pending (so that a detection during that second is tracked anew).
    And the file the check looks for need not be where the package was
    installed: with two monitored projects called [app], an installation
    detected in the second is looked for in the first, so that its
    manifest, present in the second, is never observed and the check is
    scheduled again. *)
Theorem C7_record_deleted_at_the_check :
  let detected :=
    run_step (fixture_world 0 [])
      (EvGlobalAddDir "/usr/local/lib/node_modules/chalk") initial in
  let checked :=
    run_step (fixture_world 500
                ["/usr/local/lib/node_modules/chalk/package.json"])
      (EvTimer 2) detected in
  let both := fixture_world 0 ["/a/app/package.json"; "/b/app/package.json"] in
  let registered :=
    run_register both (run_register both initial "/a/app/package.json")
      "/b/app/package.json" in
  let in_second :=
    run_step (fixture_world 0 [])
      (EvProjectAddDir (fixture_fs []) "/b/app" "/b/app/node_modules/chalk")
      registered in
  let installed :=
    fixture_world 500 ["/b/app/node_modules/chalk/package.json"] in
  activeInstalls checked !! "GLOBAL:chalk" = None /\
  progressBars checked !! "GLOBAL:chalk" = None /\
  multibar checked !! 0 = Some (mkBar (num 100) "chalk" "Complete!" "0s") /\
  timers checked !! 3
  = Some (mkTimer 1000 false
            (RetireBar (mkInstall 0 "GLOBAL" globalChain 0 (Some 1))
                       "GLOBAL" "chalk" 500)) /\
  monitoredProjects registered = ["/a/app"; "/b/app"] /\
  existsSync installed "/b/app/node_modules/chalk/package.json" = true /\
  activeInstalls (run_step installed (EvTimer 2) in_second) !! "app:chalk"
  = Some (mkInstall 0 "app" couldNotAnalyze 0 (Some 1)) /\
  timers (run_step installed (EvTimer 2) in_second) !! 3
  = Some (mkTimer 300 false (CheckComplete "app:chalk" "chalk" "app")).
Proof. cbv zeta. repeat split. Qed.

End CompletionRuns.

(* ===================================================================== *)
(** * The cache-clearing command *)
(* ===================================================================== *)

Section StashProperties.
Import Stash.

Variable FS : Type.
Variable HOME : option string.
Variable USERPROFILE : option string.
Variable cwd : string.
Variable path_join : list string -> string.
Variable spawn : string -> list string -> FS -> list ChildEvent * FS.
Variable pathExists : FS -> string -> bool.
Variable remove : FS -> string -> option Error * FS.

Local Abbreviation homeOrProfile := (Stash.homeOrProfile HOME USERPROFILE).
Local Abbreviation clearBerretCache :=
  (Stash.clearBerretCache FS HOME USERPROFILE cwd path_join pathExists remove).
Local Abbreviation runCommand := (Stash.runCommand FS spawn).
Local Abbreviation stashCommand :=
  (Stash.stashCommand FS HOME USERPROFILE cwd path_join spawn pathExists
                      remove).

Lemma runCommand_settles command args fs :
  runCommand command args fs
  = match fst (spawn command args fs) with
    | [] => None
    | Close (Some 0%Z) :: _ => Some (Resolved, snd (spawn command args fs))
    | Close code :: _ =>
        Some (Rejected (CommandFailed code), snd (spawn command args fs))
    | Failed error :: _ => Some (Rejected error, snd (spawn command args fs))
    end.
Proof.
  unfold Stash.runCommand. destruct (spawn command args fs) as [events fs'].
  reflexivity.
Qed.

(** X18.  The promise of [runCommand] is settled by the first event of
    the child, and never when the child emits none.  It resolves exactly
    when that event is a close with exit code 0; a close with any other
    code, or with no code (the child was ended by a signal), rejects with
    "Command failed with code" and the code; an error event rejects with
    its error. *)
Theorem X18_runCommand_settles_on_first_event
    (command : string) (args : list string) (fs : FS) :
  let events := fst (spawn command args fs) in
  let after := snd (spawn command args fs) in
  (events = [] <-> runCommand command args fs = None) /\
  ((exists rest, events = Close (Some 0%Z) :: rest) <->
   runCommand command args fs = Some (Resolved, after)) /\
  (forall code rest,
      events = Close code :: rest -> code <> Some 0%Z ->
      runCommand command args fs = Some (Rejected (CommandFailed code), after)) /\
  (forall error rest,
      events = Failed error :: rest ->
      runCommand command args fs = Some (Rejected error, after)) /\
  commandFailedMessage (Some 1%Z) = "Command failed with code 1" /\
  commandFailedMessage None = "Command failed with code null".
Proof.
  cbv zeta. rewrite runCommand_settles.
  destruct (fst (spawn command args fs)) as [|[[[|p|p]|]|error] rest].
  all: split; [split; first [reflexivity | discriminate]|].
  all: split;
    [split;
     [intros [rest' H]; first [discriminate H | reflexivity]
     |first [discriminate | intros _; eexists; reflexivity]]|].
  all: split;
    [intros code rest' H Hc;
     first [discriminate H
           |injection H as <- <-; first [reflexivity | contradiction]]|].
  all: split;
    [intros error' rest' H;
     first [discriminate H | injection H as <- <-; reflexivity]|].
  all: split; reflexivity.
Qed.

(** X19.  When the [npm cache clean --force] child settles, the command
    returns, and what it writes is: the opening line, the spinner of the
    npm cache with its outcome, the spinner of the berret cache with its
    outcome, and "All caches cleared successfully!".  The closing line is
    written whatever the outcomes, also when both tasks failed.  The
    berret cache is cleared on the file system the child left, whether
    the child succeeded or not.  When the child emits neither event the
    command never returns: it has written the opening line and the first
    spinner only. *)
Theorem X19_stash_reports_success_regardless (fs : FS) :
  let events := fst (spawn "npm" ["cache"; "clean"; "--force"] fs) in
  let after_npm := snd (spawn "npm" ["cache"; "clean"; "--force"] fs) in
  let run := stashCommand fs in
  (events <> [] ->
   finished run = true /\
   disk run = snd (clearBerretCache after_npm) /\
   exists npm_outcome,
     output run
     = [LogClearing;
        SpinnerStart "npm cache"; npm_outcome;
        SpinnerStart "berret cache";
        match fst (clearBerretCache after_npm) with
        | Resolved => SpinnerSucceed "berret cache"
        | Rejected error => SpinnerFail "berret cache" error
        end;
        LogAllCleared] /\
     (npm_outcome = SpinnerSucceed "npm cache" \/
      exists error, npm_outcome = SpinnerFail "npm cache" error) /\
     (npm_outcome = SpinnerSucceed "npm cache" <->
      exists rest, events = Close (Some 0%Z) :: rest)) /\
  (events = [] ->
   finished run = false /\
   output run = [LogClearing; SpinnerStart "npm cache"] /\
   disk run = fs).
Proof.
  cbv zeta. unfold Stash.stashCommand, tasks.
  cbn [runTasks runTask task_name app].
  rewrite runCommand_settles.
  destruct (fst (spawn "npm" ["cache"; "clean"; "--force"] fs))
    as [|[[[|p|p]|]|error] rest];
    (split; [intros Hne|intros Heq]);
    try contradiction; try discriminate;
    try (repeat split; reflexivity).
  all: destruct (clearBerretCache
                   (snd (spawn "npm" ["cache"; "clean"; "--force"] fs)))
         as [[|e] fs2];
    cbn [finished output disk app fst snd];
    (split; [reflexivity|]); (split; [reflexivity|]);
    eexists; (split; [reflexivity|]); split; eauto.
  all: split; [intros H; try discriminate H; eauto
              |intros [rest' H]; try discriminate H; reflexivity].
Qed.

(** X20.  Let [fs.remove], when it resolves, leave the removed path
    absent, and let it never make an absent path exist.  Then after
    [clearBerretCache] has resolved, neither the cache directory
    [.berret-cache] under the home directory nor the directory
    [.berret-temp] under the current directory exists. *)
Theorem X20_clearBerretCache_removes_both (fs : FS) :
  (forall fs0 p fs', remove fs0 p = (None, fs') -> pathExists fs' p = false) ->
  (forall fs0 p q, pathExists fs0 q = false ->
                   pathExists (snd (remove fs0 p)) q = false) ->
  fst (clearBerretCache fs) = Resolved ->
  exists home,
    homeOrProfile = Some home /\
    pathExists (snd (clearBerretCache fs)) (path_join [home; ".berret-cache"])
    = false /\
    pathExists (snd (clearBerretCache fs)) (path_join [cwd; ".berret-temp"])
    = false.
Proof.
  intros Hgone Hkeeps. unfold Stash.clearBerretCache.
  destruct homeOrProfile as [home|]; [|discriminate].
  set (cacheDir := path_join [home; ".berret-cache"]).
  set (tempDir := path_join [cwd; ".berret-temp"]).
  intros Hres. exists home. split; [reflexivity|]. revert Hres.
  assert (Hstep : forall fs1,
             pathExists fs1 cacheDir = false ->
             forall r2 fs2,
               (if pathExists fs1 tempDir then remove fs1 tempDir
                else (None, fs1)) = (r2, fs2) ->
               r2 = None ->
               pathExists fs2 cacheDir = false /\
               pathExists fs2 tempDir = false).
  { intros fs1 Hc r2 fs2 H ->.
    destruct (pathExists fs1 tempDir) eqn:Et.
    - split; [|exact (Hgone _ _ _ H)].
      pose proof (Hkeeps fs1 tempDir cacheDir Hc) as Hk.
      rewrite H in Hk. exact Hk.
    - injection H as <-. split; assumption. }
  destruct (pathExists fs cacheDir) eqn:Ec.
  - destruct (remove fs cacheDir) as [[e|] fs1] eqn:Er; [discriminate|].
    pose proof (Hgone _ _ _ Er) as Hc.
    destruct (if pathExists fs1 tempDir then _ else _) as [[e|] fs2] eqn:E2;
      [discriminate|].
    intros _. cbn [snd]. exact (Hstep fs1 Hc None fs2 E2 eq_refl).
  - destruct (if pathExists fs tempDir then _ else _) as [[e|] fs2] eqn:E2;
      [discriminate|].
    intros _. cbn [snd]. exact (Hstep fs Ec None fs2 E2 eq_refl).
Qed.

(** X21.  How [clearBerretCache] fails.  With neither [HOME] (unset or
    empty) nor [USERPROFILE] set it rejects before touching the file
    system, so that [.berret-temp] in the current directory stays too.
    When removing the cache directory rejects, it rejects with that
    error and the file system is as that removal left it: the temporary
    directory is not removed.  When neither directory exists it resolves
    and leaves the file system as it was.  An empty [HOME] gives way to
    [USERPROFILE]. *)
Theorem X21_clearBerretCache_failures (fs : FS) :
  (homeOrProfile = None ->
   clearBerretCache fs = (Rejected InvalidPathArgument, fs)) /\
  (forall home error fs1,
      homeOrProfile = Some home ->
      pathExists fs (path_join [home; ".berret-cache"]) = true ->
      remove fs (path_join [home; ".berret-cache"]) = (Some error, fs1) ->
      clearBerretCache fs = (Rejected error, fs1)) /\
  (forall home,
      homeOrProfile = Some home ->
      pathExists fs (path_join [home; ".berret-cache"]) = false ->
      pathExists fs (path_join [cwd; ".berret-temp"]) = false ->
      clearBerretCache fs = (Resolved, fs)) /\
  ((HOME = None \/ HOME = Some "") -> homeOrProfile = USERPROFILE) /\
  (forall home, HOME = Some home -> home <> "" -> homeOrProfile = Some home).
Proof.
  split; [|split; [|split; [|split]]].
  - intros H. unfold Stash.clearBerretCache. rewrite H. reflexivity.
  - intros home error fs1 H Hc Hr. unfold Stash.clearBerretCache.
    rewrite H, Hc, Hr. reflexivity.
  - intros home H Hc Ht. unfold Stash.clearBerretCache.
    rewrite H, Hc, Ht. reflexivity.
  - intros [H|H]; unfold Stash.homeOrProfile; rewrite H; reflexivity.
  - intros home H Hne. unfold Stash.homeOrProfile. rewrite H.
    unfold JSString.nonempty.
    destruct (String.eqb_spec home ""); [contradiction | reflexivity].
Qed.

End StashProperties.

Section StashRuns.
Import Stash Spec.

(** A child that exits with code 1 and changes nothing on disk. *)
Local Abbreviation npm_fails :=
  (fun (_ : string) (_ : list string) (fs : list string) =>
     ([Close (Some 1%Z)], fs)).

Lemma fixture_remove_gone (fs0 : list string) p fs' :
  fixture_remove fs0 p = (None, fs') -> fixture_exists fs' p = false.
Proof.
  unfold fixture_remove, fixture_exists. intros [= <-].
  induction fs0 as [|q fs0 IH]; [reflexivity|]. cbn [List.filter].
  destruct (String.eqb p q) eqn:E; cbn [negb existsb]; [exact IH|].
  rewrite E. exact IH.
Qed.

Lemma fixture_remove_only_removes (fs0 : list string) p q :
  fixture_exists fs0 q = false ->
  fixture_exists (snd (fixture_remove fs0 p)) q = false.
Proof.
  unfold fixture_remove, fixture_exists. cbn [snd].
  induction fs0 as [|x fs0 IH]; [reflexivity|]. cbn [existsb List.filter].
  intros H. apply orb_false_iff in H as [Hx H].
  destruct (negb (String.eqb p x)); cbn [existsb]; [rewrite Hx|]; auto.
Qed.

Lemma X18_runCommand_witness :
  Stash.runCommand (list string) npm_fails "npm" ["cache"; "clean"; "--force"]
    ["/work/src"]
  = Some (Rejected (CommandFailed (Some 1%Z)), ["/work/src"]).
Proof.
  apply (proj1 (proj2 (proj2
           (X18_runCommand_settles_on_first_event (list string) npm_fails
              "npm" ["cache"; "clean"; "--force"] ["/work/src"])))
         (Some 1%Z) []); [reflexivity | discriminate].
Defined.

(** The npm cache cannot be cleaned; the berret cache is cleared, and
    the command ends with its closing line. *)
Lemma X19_stash_witness :
  let run :=
    Stash.stashCommand (list string) (Some "/home/u") None "/work"
      fixture_join npm_fails fixture_exists fixture_remove
      ["/home/u/.berret-cache"; "/work/.berret-temp"; "/work/src"] in
  finished run = true /\
  output run
  = [LogClearing;
     SpinnerStart "npm cache";
     SpinnerFail "npm cache" (CommandFailed (Some 1%Z));
     SpinnerStart "berret cache"; SpinnerSucceed "berret cache";
     LogAllCleared] /\
  disk run = ["/work/src"].
Proof.
  cbv zeta.
  destruct (proj1 (X19_stash_reports_success_regardless (list string)
                     (Some "/home/u") None "/work" fixture_join npm_fails
                     fixture_exists fixture_remove
                     ["/home/u/.berret-cache"; "/work/.berret-temp";
                      "/work/src"])
                  ltac:(discriminate))
    as (Hf & Hd & _).
  split; [exact Hf|]. split; [reflexivity | exact Hd].
Defined.

Lemma X20_clearBerretCache_witness :
  let after :=
    snd (Stash.clearBerretCache (list string) (Some "/home/u") None "/work"
           fixture_join fixture_exists fixture_remove
           ["/home/u/.berret-cache"; "/work/.berret-temp"; "/work/src"]) in
  exists home,
    Stash.homeOrProfile (Some "/home/u") None = Some home /\
    fixture_exists after (fixture_join [home; ".berret-cache"]) = false /\
    fixture_exists after (fixture_join ["/work"; ".berret-temp"]) = false.
Proof.
  cbv zeta.
  exact (X20_clearBerretCache_removes_both (list string) (Some "/home/u") None
           "/work" fixture_join fixture_exists fixture_remove
           ["/home/u/.berret-cache"; "/work/.berret-temp"; "/work/src"]
           fixture_remove_gone fixture_remove_only_removes eq_refl).
Defined.

(** Neither variable is set: nothing is removed. *)
Lemma X21_clearBerretCache_witness :
  Stash.clearBerretCache (list string) None None "/work"
    fixture_join fixture_exists fixture_remove
    ["/work/.berret-temp"]
  = (Rejected InvalidPathArgument, ["/work/.berret-temp"]).
Proof.
  apply (proj1 (X21_clearBerretCache_failures (list string) None None "/work"
                  fixture_join fixture_exists fixture_remove
                  ["/work/.berret-temp"])).
  reflexivity.
Defined.

End StashRuns.
